(** * Douyin caption pipeline: a shallow embedding of the dev-server plugin

    The definitions below follow the TypeScript plugin that serves
    [/api/douyin/*] and [/api/caption/*]: the SSRF guard, the cached web
    session with its single-flight refresh, the account-video listing with
    its one retry, the caption task registry (create / query / cancel /
    sweep) and the Doubao "flash" recognizer.

    Conventions.
    - A JavaScript string is the bytes of its UTF-8 encoding. White space
      is JavaScript's, each character in its bytes; [toLowerCase] and
      [toUpperCase] act on the letters of ASCII.
    - [Date.now()] is an integer number of milliseconds ([Z]) handed in by
      the environment at every place the source reads the clock.
    - Whatever the source obtains by awaiting the outside world (a fetch,
      a file operation, the transcoder) enters as an explicit outcome.
    - A thrown [Error] is a value [Throw msg] of the type [Exc]. *)

From Stdlib Require Import ZArith QArith Lqa Lia List Ascii String.
From stdpp Require Import base strings list sorting gmap pretty.

Set Warnings "-register-all".

Local Open Scope string_scope.
Local Open Scope Z_scope.

(* ===================================================================== *)
(** * Part I. Definitions *)
(* ===================================================================== *)

(** ** Exceptions *)

Inductive Exc (A : Type) : Type :=
| Return (a : A)
| Throw (msg : string).
Arguments Return {A} a.
Arguments Throw {A} msg.

#[global] Instance Exc_ret : MRet Exc := fun A a => Return a.
#[global] Instance Exc_bind : MBind Exc := fun A B k m =>
  match m with
  | Return a => k a
  | Throw e => Throw e
  end.

(** ** Strings *)

Module Str.

Definition chars (s : string) : list ascii := list_ascii_of_string s.
Definition ofChars (l : list ascii) : string := string_of_list_ascii l.

Fixpoint prefixChars (p l : list ascii) : bool :=
  match p, l with
  | [], _ => true
  | a :: p', b :: l' => Ascii.eqb a b && prefixChars p' l'
  | _ :: _, [] => false
  end.

(** The ASCII members of JavaScript's WhiteSpace and LineTerminator:
    TAB, LF, VT, FF, CR and SPACE. *)
Definition isWhite (c : ascii) : bool :=
  let n := nat_of_ascii c in
  ((9 <=? n)%nat && (n <=? 13)%nat) || (n =? 32)%nat.

(** JavaScript's WhiteSpace and LineTerminator, each character as the
    bytes of its UTF-8 encoding: TAB, LF, VT, FF, CR, SPACE, U+00A0,
    U+1680, U+2000 to U+200A, U+2028, U+2029, U+202F, U+205F, U+3000 and
    U+FEFF. They are what [trim] strips and what [\s] matches. *)
Definition whites : list (list ascii) :=
  map (map ascii_of_nat)
    [[9]; [10]; [11]; [12]; [13]; [32];
     [194; 160];
     [225; 154; 128];
     [226; 128; 128]; [226; 128; 129]; [226; 128; 130]; [226; 128; 131];
     [226; 128; 132]; [226; 128; 133]; [226; 128; 134]; [226; 128; 135];
     [226; 128; 136]; [226; 128; 137]; [226; 128; 138];
     [226; 128; 168]; [226; 128; 169]; [226; 128; 175];
     [226; 129; 159];
     [227; 128; 128];
     [239; 187; 191]]%nat.

(** The length of the member of [pats] that [l] begins with, 0 where it
    begins with none. *)
Definition seqAt (pats : list (list ascii)) (l : list ascii) : nat :=
  match List.find (fun w => prefixChars w l) pats with
  | Some w => length w
  | None => 0
  end.

(** [l] without the members of [pats] that it begins with, one after the
    other; [skip] is what is left to drop of the member being dropped. *)
Fixpoint dropSeqs (pats : list (list ascii)) (skip : nat) (l : list ascii) : list ascii :=
  match l with
  | [] => []
  | _ :: l' =>
      match skip with
      | S skip' => dropSeqs pats skip' l'
      | O =>
          match seqAt pats l with
          | S n => dropSeqs pats n l'
          | O => l
          end
      end
  end.

(** The length of the white-space character that [l] begins with, 0
    where it begins with none. *)
Definition whiteAt (l : list ascii) : nat := seqAt whites l.

(** [l] without the white space it begins with, and without the white
    space it ends with: a character at the end of a string is read from
    its last byte backwards. *)
Definition dropWhite (l : list ascii) : list ascii := dropSeqs whites 0 l.

Definition dropWhiteEnd (l : list ascii) : list ascii :=
  rev (dropSeqs (map (@rev ascii) whites) 0 (rev l)).

(** [String.prototype.trim]. *)
Definition trim (s : string) : string :=
  ofChars (dropWhiteEnd (dropWhite (chars s))).

Definition lowerChar (c : ascii) : ascii :=
  let n := nat_of_ascii c in
  if ((65 <=? n)%nat && (n <=? 90)%nat)%bool then ascii_of_nat (n + 32) else c.

(** [String.prototype.toLowerCase]. *)
Definition toLowerCase (s : string) : string :=
  ofChars (map lowerChar (chars s)).

Definition upperChar (c : ascii) : ascii :=
  let n := nat_of_ascii c in
  if ((97 <=? n)%nat && (n <=? 122)%nat)%bool then ascii_of_nat (n - 32) else c.

(** [String.prototype.toUpperCase]. *)
Definition toUpperCase (s : string) : string :=
  ofChars (map upperChar (chars s)).

Definition startsWith (s p : string) : bool := prefixChars (chars p) (chars s).

(** [String.prototype.endsWith]. *)
Definition endsWith (s suffix : string) : bool :=
  prefixChars (rev (chars suffix)) (rev (chars s)).

Definition isEmpty (s : string) : bool :=
  match s with
  | EmptyString => true
  | String _ _ => false
  end.

(** [a || b] on strings: the empty string is the only falsy one. *)
Definition orElse (a b : string) : string := if isEmpty a then b else a.

(** [arr.join(sep)]. *)
Fixpoint join (sep : string) (l : list string) : string :=
  match l with
  | [] => ""
  | [x] => x
  | x :: l' => x +:+ sep +:+ join sep l'
  end.

End Str.

(** ** JavaScript values *)

(** A Number: NaN, an infinity, or a finite value. Only comparisons with
    constants and signs of differences are observed below, and rounding
    changes neither, so finite values are kept as exact rationals. *)
Inductive JsNumber : Type :=
| NaN
| Infinity (negative : bool)
| Finite (q : Q).

(** What [JSON.parse] can yield, plus [undefined]. *)
Inductive JsValue : Type :=
| JUndefined
| JNull
| JBool (b : bool)
| JNumber (n : JsNumber)
| JString (s : string)
| JArray (items : list JsValue)
| JObject (fields : list (string * JsValue)).

Module Js.

Definition numTruthy (n : JsNumber) : bool :=
  match n with
  | NaN => false
  | Infinity _ => true
  | Finite q => negb (Qeq_bool q 0)
  end.

(** [a === b] on Numbers. *)
Definition numStrictEq (a b : JsNumber) : bool :=
  match a, b with
  | Finite x, Finite y => Qeq_bool x y
  | Infinity s, Infinity t => Bool.eqb s t
  | _, _ => false
  end.

(** ToBoolean. *)
Definition truthy (v : JsValue) : bool :=
  match v with
  | JUndefined | JNull => false
  | JBool b => b
  | JNumber n => numTruthy n
  | JString s => negb (Str.isEmpty s)
  | JArray _ | JObject _ => true
  end.

Definition nullish (v : JsValue) : bool :=
  match v with
  | JUndefined | JNull => true
  | _ => false
  end.

(** [a || b]. *)
Definition or (a b : JsValue) : JsValue := if truthy a then a else b.

(** [a ?? b]. *)
Definition coalesce (a b : JsValue) : JsValue := if nullish a then b else a.

Fixpoint assoc (k : string) (fields : list (string * JsValue)) : JsValue :=
  match fields with
  | [] => JUndefined
  | (k', v) :: rest => if String.eqb k k' then v else assoc k rest
  end.

(** [v.k] for a value that is not nullish and a key that is no index and
    no built-in member of strings or arrays. *)
Definition prop (v : JsValue) (k : string) : JsValue :=
  match v with
  | JObject fields => assoc k fields
  | _ => JUndefined
  end.

(** [v?.k]. *)
Definition optProp (v : JsValue) (k : string) : JsValue :=
  if nullish v then JUndefined else prop v k.

(** [v?.[0]]. *)
Definition optFirst (v : JsValue) : JsValue :=
  match v with
  | JArray (x :: _) => x
  | JString (String c _) => JString (String c EmptyString)
  | JObject fields => assoc "0" fields
  | _ => JUndefined
  end.

(** [v.k] where the source does not guard against a nullish [v]. *)
Definition propOrThrow (v : JsValue) (k : string) : Exc JsValue :=
  if nullish v then Throw "TypeError: Cannot read properties of undefined"
  else Return (prop v k).

Definition isArray (v : JsValue) : bool :=
  match v with
  | JArray _ => true
  | _ => false
  end.

(** [a - b] on Numbers, up to rounding. *)
Definition numSub (a b : JsNumber) : JsNumber :=
  match a, b with
  | NaN, _ | _, NaN => NaN
  | Infinity s, Infinity t => if Bool.eqb s t then NaN else Infinity s
  | Infinity s, Finite _ => Infinity s
  | Finite _, Infinity t => Infinity (negb t)
  | Finite x, Finite y => Finite (x - y)
  end.

(** [n > 0]. *)
Definition numPositive (n : JsNumber) : bool :=
  match n with
  | NaN => false
  | Infinity negative => negb negative
  | Finite q => negb (Qle_bool q 0)
  end.



End Js.

(** The conversions of the host that the plugin calls: [Number(v)] and the
    coercion of [-] (ToNumber), [String(v)] and template interpolation
    (ToString), and [JSON.parse]. Their full definitions belong to the
    language; the plugin relies on the three laws stated here. *)
Class Platform : Type := {
  ToNumber : JsValue -> JsNumber;
  ToString : JsValue -> string;
  JSON_parse : string -> option JsValue;
  ToNumber_number : forall n, ToNumber (JNumber n) = n;
  ToNumber_zero : ToNumber (JString "0") = Finite 0;
  ToString_string : forall s, ToString (JString s) = s
}.

(** ** URLs and the SSRF guard *)

Module Url.

(** [protocol] ends with the colon; [hostname] of an IPv6 literal keeps
    its brackets; [href] is the text that was parsed, stripped. *)
Record URL : Type := mkURL {
  protocol : string;
  hostname : string;
  href : string
}.

Definition isAlpha (c : ascii) : bool :=
  let n := nat_of_ascii (Str.lowerChar c) in (97 <=? n)%nat && (n <=? 122)%nat.

Definition isSchemeChar (c : ascii) : bool :=
  let n := nat_of_ascii c in
  isAlpha c || ((48 <=? n)%nat && (n <=? 57)%nat)
  || (n =? 43)%nat || (n =? 45)%nat || (n =? 46)%nat.

(** Splits [scheme ":" rest]; the scheme starts with a letter. *)
Fixpoint splitScheme (acc l : list ascii) : option (list ascii * list ascii) :=
  match l with
  | [] => None
  | c :: l' =>
      if Ascii.eqb c ":" then
        match acc with
        | [] => None
        | _ => Some (rev acc, l')
        end
      else if (if acc is [] then isAlpha c else isSchemeChar c)
      then splitScheme (c :: acc) l'
      else None
  end.

Definition isSlash (c : ascii) : bool := Ascii.eqb c "/" || Ascii.eqb c "\".

Fixpoint dropSlashes (l : list ascii) : list ascii :=
  match l with
  | c :: l' => if isSlash c then dropSlashes l' else l
  | [] => []
  end.

Definition endsAuthority (c : ascii) : bool :=
  isSlash c || Ascii.eqb c "?" || Ascii.eqb c "#".

Fixpoint takeAuthority (l : list ascii) : list ascii :=
  match l with
  | c :: l' => if endsAuthority c then [] else c :: takeAuthority l'
  | [] => []
  end.

(** Drops the credentials: what follows the last ["@"]. *)
Fixpoint afterLastAt (l : list ascii) : list ascii :=
  match l with
  | [] => []
  | c :: l' =>
      if existsb (Ascii.eqb "@") l' then afterLastAt l'
      else if Ascii.eqb c "@" then l' else l
  end.

(** Drops the port: cuts at the first [":"] outside an IPv6 bracket. *)
Fixpoint dropPort (inBracket : bool) (l : list ascii) : list ascii :=
  match l with
  | [] => []
  | c :: l' =>
      if Ascii.eqb c "[" then c :: dropPort true l'
      else if Ascii.eqb c "]" then c :: dropPort false l'
      else if Ascii.eqb c ":" && negb inBracket then []
      else c :: dropPort inBracket l'
  end.

Definition isSpecial (scheme : string) : bool :=
  bool_decide (scheme ∈ ["http"; "https"; "ws"; "wss"; "ftp"]).

(** What [new URL] strips from the ends of its input: the C0 controls
    and the space. *)
Definition isC0OrSpace (c : ascii) : bool := (nat_of_ascii c <=? 32)%nat.

Fixpoint dropSpaces (l : list ascii) : list ascii :=
  match l with
  | c :: l' => if isC0OrSpace c then dropSpaces l' else l
  | [] => []
  end.

Definition strip (s : string) : string :=
  Str.ofChars (rev (dropSpaces (rev (dropSpaces (Str.chars s))))).

(** [new URL(url)] without a base, for the URLs the guard has to judge:
    [scheme://[user@]host[:port][/path][?query][#fragment]]. The host is
    kept as written, lower-cased; [None] is the [TypeError] of an input
    that has no scheme or, for a special scheme, no host. *)
Definition parse (url : string) : option URL :=
  let input := strip url in
  match splitScheme [] (Str.chars input) with
  | None => None
  | Some (scheme, rest) =>
      let scheme := Str.toLowerCase (Str.ofChars scheme) in
      if isSpecial scheme then
        let host := dropPort false (afterLastAt (takeAuthority (dropSlashes rest))) in
        match host with
        | [] => None
        | _ => Some (mkURL (scheme +:+ ":") (Str.toLowerCase (Str.ofChars host)) input)
        end
      else
        let host :=
          if Str.prefixChars (Str.chars "//") rest
          then dropPort false (afterLastAt (takeAuthority (drop 2 rest)))
          else [] in
        Some (mkURL (scheme +:+ ":") (Str.ofChars host) input)
  end.

(** The checks of [assertSafeExternalHttpUrl] on the parsed URL. *)
Definition checkExternalHttp (parsed : URL) : Exc URL :=
  let protocol := Str.toLowerCase (protocol parsed) in
  if negb (String.eqb protocol "http:") && negb (String.eqb protocol "https:") then
    Throw "仅支持 http/https 链接"
  else
    let host := Str.toLowerCase (hostname parsed) in
    if String.eqb host "localhost"
       || String.eqb host "0.0.0.0"
       || String.eqb host "127.0.0.1"
       || String.eqb host "::1"
       || Str.endsWith host ".local"
    then Throw "不安全的链接（可能为本机/内网地址）"
    else Return parsed.

Definition assertSafeExternalHttpUrl (url : string) : Exc URL :=
  match parse url with
  | None => Throw "链接格式错误"
  | Some parsed => checkExternalHttp parsed
  end.

(** [safeUrlHost]. *)
Definition safeUrlHost (url : URL) : bool :=
  let host := Str.toLowerCase (hostname url) in
  String.eqb host "douyin.com"
  || Str.endsWith host ".douyin.com"
  || String.eqb host "iesdouyin.com"
  || Str.endsWith host ".iesdouyin.com".

Definition checkDouyin (parsed : URL) : Exc URL :=
  let protocol := Str.toLowerCase (protocol parsed) in
  if negb (String.eqb protocol "http:") && negb (String.eqb protocol "https:") then
    Throw "仅支持 http/https 链接"
  else if negb (safeUrlHost parsed) then
    Throw "仅支持抖音链接（douyin.com / iesdouyin.com）"
  else Return parsed.

Definition assertSafeDouyinUrl (url : string) : Exc URL :=
  match parse url with
  | None => Throw "链接格式错误"
  | Some parsed => checkDouyin parsed
  end.

End Url.

(** ** The cached web session *)

Module Session.

Record DouyinWebSession : Type := mkSession {
  cookie : string;
  expiresAt : Z
}.

(** What the two requests of one handshake bring back. *)
Record Handshake : Type := mkHandshake {
  (** first GET: it rejects, or [pickCookieValue(sc1, '__ac_nonce')] *)
  hs_nonce : Exc (option string);
  (** reading the page and [computeDouyinAcSignature(html1, nonce, ua)] *)
  hs_signature : Exc string;
  (** second GET: it rejects, or the entries of [parseSetCookiePairs(sc2)] *)
  hs_jar : Exc (list (string * string));
  (** [Date.now()] when the session object is built *)
  hs_now : Z
}.

Definition ttlMs : Z := 29 * 60 * 1000.

Definition refreshDouyinWebSession (h : Handshake) : Exc DouyinWebSession :=
  nonce ← hs_nonce h;
  match nonce with
  | None | Some "" => Throw "获取 __ac_nonce 失败"
  | Some nonce =>
      sig ← hs_signature h;
      let baseCookie :=
        "__ac_nonce=" +:+ nonce +:+ "; __ac_signature=" +:+ sig +:+ "; __ac_referer=__ac_blank" in
      jar2 ← hs_jar h;
      let cookieParts := baseCookie :: map (fun kv => kv.1 +:+ "=" +:+ kv.2) jar2 in
      Return {| cookie := Str.join "; " cookieParts; expiresAt := hs_now h + ttlMs |}
  end.

(** The two module variables, and a count of the handshakes begun so far.
    A pending refresh (the promise held in the lock) is named by the
    number of the handshake that will settle it. *)
Record Cache : Type := mkCache {
  douyinWebSession : option DouyinWebSession;
  douyinWebSessionLock : option nat;
  handshakes : nat
}.

(** How a call of [getDouyinWebSession] leaves its synchronous part. *)
Inductive Entry : Type :=
| Cached (s : DouyinWebSession)   (* returned the cached session *)
| Joined (p : nat)                (* returned the promise found in the lock *)
| Started (p : nat).              (* created the lock and began a handshake *)

Definition usable (now : Z) (s : DouyinWebSession) : bool :=
  now <? expiresAt s - 60000.

(** The cache holds nothing a call at [now] would return. *)
Definition cold (now : Z) (c : Cache) : bool :=
  match douyinWebSession c with
  | Some s => negb (usable now s)
  | None => true
  end.

(** [getDouyinWebSession] up to its [await]. *)
Definition getDouyinWebSession (now : Z) (c : Cache) : Entry * Cache :=
  match douyinWebSession c with
  | Some s =>
      if usable now s then (Cached s, c)
      else
        match douyinWebSessionLock c with
        | Some p => (Joined p, c)
        | None =>
            (Started (handshakes c),
             mkCache (douyinWebSession c) (Some (handshakes c)) (S (handshakes c)))
        end
  | None =>
      match douyinWebSessionLock c with
      | Some p => (Joined p, c)
      | None =>
          (Started (handshakes c),
           mkCache (douyinWebSession c) (Some (handshakes c)) (S (handshakes c)))
      end
  end.

(** The handshake [p] settles: the lock's own continuation stores a
    session that was obtained, and the starter's [finally] clears the
    lock. *)
Definition settle (p : nat) (h : Handshake) (c : Cache) : Cache :=
  if bool_decide (douyinWebSessionLock c = Some p) then
    mkCache
      (match refreshDouyinWebSession h with
       | Return s => Some s
       | Throw _ => douyinWebSession c
       end)
      None (handshakes c)
  else c.

(** What a call gets in the end, the pending handshake settling with [h]. *)
Definition delivered (e : Entry) (h : Handshake) : Exc DouyinWebSession :=
  match e with
  | Cached s => Return s
  | Joined _ | Started _ => refreshDouyinWebSession h
  end.

(** [douyinWebSession = null]. *)
Definition invalidate (c : Cache) : Cache :=
  mkCache None (douyinWebSessionLock c) (handshakes c).

(** Calls arriving one after the other, at the given clock readings,
    before anything settles. *)
Fixpoint calls (nows : list Z) (c : Cache) : list Entry * Cache :=
  match nows with
  | [] => ([], c)
  | now :: rest =>
      let '(e, c1) := getDouyinWebSession now c in
      let '(es, c2) := calls rest c1 in
      (e :: es, c2)
  end.

(** One caller alone: the call and, where it has to wait, the settling
    of the handshake it waits for. *)
Definition awaitSession (now : Z) (h : Handshake) (c : Cache)
  : Exc DouyinWebSession * Cache :=
  match getDouyinWebSession now c with
  | (Cached s, c') => (Return s, c')
  | (Joined p, c') | (Started p, c') => (refreshDouyinWebSession h, settle p h c')
  end.

End Session.

(** ** HTTP responses as the plugin reads them *)

Module Http.

Record Response : Type := mkResponse {
  ok : bool;
  status : Z;
  headers : list (string * string)
}.

(** [headers.get(name)]: header names compare without regard to case. *)
Fixpoint get (hs : list (string * string)) (name : string) : option string :=
  match hs with
  | [] => None
  | (k, v) :: rest =>
      if String.eqb (Str.toLowerCase k) (Str.toLowerCase name) then Some v
      else get rest name
  end.

(** [headers.get(a) || headers.get(b) || '']. *)
Definition header2 (r : Response) (a b : string) : string :=
  Str.orElse (default "" (get (headers r) a))
    (Str.orElse (default "" (get (headers r) b)) "").

End Http.

(** [tailText]. *)
Definition tailText (text : string) (maxChars : nat) : string :=
  let s := Str.chars text in
  if (length s <=? maxChars)%nat then text
  else Str.ofChars (drop (length s - maxChars) s).

(** ** The Doubao flash recognizer: reading the reply *)

Module Flash.

Section WithPlatform.
Context `{Platform}.

Definition logidSuffix (logid : string) : string :=
  if Str.isEmpty logid then "" else "（logid=" +:+ logid +:+ "）".

(** [apiData]: the body parsed as JSON, [null] where it is empty or does
    not parse. *)
Definition bodyData (apiText : string) : JsValue :=
  if Str.isEmpty apiText then JNull
  else match JSON_parse apiText with
       | Some v => v
       | None => JNull
       end.

(** [String(apiData?.result?.text || '').trim()]. *)
Definition resultText (apiText : string) : string :=
  Str.trim
    (ToString
       (Js.or (Js.optProp (Js.optProp (bodyData apiText) "result") "text") (JString ""))).

(** [transcribeWithDoubaoBigasrFlash] from the point where the reply
    [apiRes] and its body text [apiText] are at hand. *)
Definition readReply (apiRes : Http.Response) (apiText : string) : Exc string :=
  let statusCode := Http.header2 apiRes "x-api-status-code" "X-Api-Status-Code" in
  let statusMessage := Http.header2 apiRes "x-api-message" "X-Api-Message" in
  let logid := Http.header2 apiRes "x-tt-logid" "X-Tt-Logid" in
  let apiData := bodyData apiText in
  if negb (Http.ok apiRes) then
    let extra :=
      Str.join ", "
        (List.filter (fun s => negb (Str.isEmpty s))
           [ if Str.isEmpty statusCode then "" else "X-Api-Status-Code=" +:+ statusCode;
             if Str.isEmpty statusMessage then "" else "X-Api-Message=" +:+ statusMessage;
             if Str.isEmpty logid then "" else "X-Tt-Logid=" +:+ logid ]) in
    Throw ("豆包语音识别失败 (HTTP " +:+ pretty (Http.status apiRes) +:+ ")"
           +:+ (if Str.isEmpty extra then "" else "：" +:+ extra)
           +:+ (if Str.isEmpty apiText then ""
                else String (ascii_of_nat 10) (tailText apiText 1200)))
  else
    (* the business status travels in X-Api-Status-Code; 20000000 is success *)
    let statusNum := ToNumber (JString (Str.orElse statusCode "0")) in
    if Js.numTruthy statusNum && negb (Js.numStrictEq statusNum (Finite 20000000)) then
      let msg :=
        Js.or (JString statusMessage)
          (Js.or (Js.optProp apiData "message")
             (Js.or (Js.optProp apiData "error") (JString "豆包语音识别失败"))) in
      Throw (ToString msg +:+ logidSuffix logid)
    else
      let transcript := resultText apiText in
      if Str.isEmpty transcript then
        Throw ("豆包语音识别完成，但返回文本为空" +:+ logidSuffix logid)
      else Return transcript.

End WithPlatform.

End Flash.

(** ** Caption tasks *)

Module Tasks.

Inductive CaptionTaskStatus : Type :=
| WAITING | RUNNING | SUCCESS | FAILURE | CANCELLED.

Inductive CaptionTaskStage : Type :=
| queued | downloading | uploading | submitting | polling
| fetching_result | done | failed | cancelled.

#[global] Instance CaptionTaskStatus_eq_dec : EqDecision CaptionTaskStatus.
Proof. solve_decision. Defined.

#[global] Instance CaptionTaskStage_eq_dec : EqDecision CaptionTaskStage.
Proof. solve_decision. Defined.

(** [abort] is the task's [AbortController], kept as the one bit that is
    read from it: [abort.signal.aborted]. *)
Record CaptionTask : Type := mkTask {
  id : string;
  status : CaptionTaskStatus;
  stage : CaptionTaskStage;
  message : option string;
  createdAt : Z;
  updatedAt : Z;
  transcript : option string;
  error : option string;
  publicFileUrl : option string;
  abort : bool
}.

Record Snapshot : Type := mkSnapshot {
  s_taskId : string;
  s_status : CaptionTaskStatus;
  s_stage : CaptionTaskStage;
  s_message : option string;
  s_transcript : option string;
  s_error : option string;
  s_publicFileUrl : option string;
  s_createdAt : Z;
  s_updatedAt : Z
}.

Definition snapshotCaptionTask (task : CaptionTask) : Snapshot :=
  {| s_taskId := id task;
     s_status := status task;
     s_stage := stage task;
     s_message := message task;
     s_transcript := transcript task;
     s_error := error task;
     s_publicFileUrl := publicFileUrl task;
     s_createdAt := createdAt task;
     s_updatedAt := updatedAt task |}.

Definition CAPTION_TASK_TTL_MS : Z := 60 * 60 * 1000.

Definition finished (task : CaptionTask) : bool :=
  bool_decide (status task = SUCCESS)
  || bool_decide (status task = FAILURE)
  || bool_decide (status task = CANCELLED).

Definition tooOld (now : Z) (task : CaptionTask) : bool :=
  now - updatedAt task >? CAPTION_TASK_TTL_MS.

(** One round of the loop of [cleanupCaptionTasks]. *)
Definition sweepEntry (now : Z) (entry : string * CaptionTask)
    (tasks : gmap string CaptionTask) : gmap string CaptionTask :=
  if tooOld now entry.2 && finished entry.2 then delete entry.1 tasks else tasks.

(** [cleanupCaptionTasks]: the loop runs over the entries the map has
    when it starts and deletes from the map itself. *)
Definition cleanupCaptionTasks (now : Z) (captionTasks : gmap string CaptionTask)
  : gmap string CaptionTask :=
  foldr (sweepEntry now) captionTasks (map_to_list captionTasks).

(** *** What the background job writes to its task *)

Definition cancelMessage : string := "已取消请求。".

(** The closure [update] of the job. *)
Definition update (now : Z) (stage : CaptionTaskStage) (message : string)
    (task : CaptionTask) : CaptionTask :=
  {| id := id task;
     status := RUNNING;
     stage := stage;
     message := Some message;
     createdAt := createdAt task;
     updatedAt := now;
     transcript := transcript task;
     error := error task;
     publicFileUrl := publicFileUrl task;
     abort := abort task |}.

(** The end of the job's [try] block. *)
Definition succeed (now : Z) (transcript : string) (publicUrl : option string)
    (task : CaptionTask) : CaptionTask :=
  {| id := id task;
     status := SUCCESS;
     stage := done;
     message := Some "提取完成";
     createdAt := createdAt task;
     updatedAt := now;
     transcript := Some transcript;
     error := error task;
     publicFileUrl := publicUrl;
     abort := abort task |}.

Record JsError : Type := mkError {
  errName : string;
  errMessage : string
}.

(** [new Error(msg)]. *)
Definition plainError (msg : string) : JsError := mkError "Error" msg.

(** What an aborted [fetch] rejects with. *)
Definition abortError : JsError := mkError "AbortError" "This operation was aborted".

(** The job's [catch] block. *)
Definition fail (now : Z) (err : JsError) (task : CaptionTask) : CaptionTask :=
  let aborted :=
    abort task
    || String.eqb (errName err) "AbortError"
    || String.eqb (errMessage err) cancelMessage in
  {| id := id task;
     status := if aborted then CANCELLED else FAILURE;
     stage := if aborted then cancelled else failed;
     message := Some (if aborted then "已取消" else "提取失败");
     createdAt := createdAt task;
     updatedAt := now;
     transcript := transcript task;
     error := Some (if aborted then cancelMessage else errMessage err);
     publicFileUrl := publicFileUrl task;
     abort := abort task |}.

(** The body of the [if] in [handleCaptionCancel]. *)
Definition cancelNow (now : Z) (task : CaptionTask) : CaptionTask :=
  {| id := id task;
     status := CANCELLED;
     stage := cancelled;
     message := Some "已取消";
     createdAt := createdAt task;
     updatedAt := now;
     transcript := transcript task;
     error := Some cancelMessage;
     publicFileUrl := publicFileUrl task;
     abort := true |}.

(** *** Adapters as resumable computations *)

(** The operations an adapter awaits. *)
Inductive Op : Type :=
| Fetch (url : string)     (* fetch(url, { ..., signal }) *)
| ReadBody                 (* res.arrayBuffer(), res.text(), res.json() *)
| GetFfmpegPath
| Mkdtemp
| WriteFile
| ReadFile
| RemoveDir
| Transcoder               (* the spawned ffmpeg, until 'error' or 'close' *)
| Timer (ms : Z).          (* the timeout inside sleep(ms, signal) *)

(** What the outside world answers. An answer of another kind than its
    operation's does not arise; the adapters turn one into a rejection. *)
Inductive Outcome : Type :=
| Rejects (e : JsError)
| Responds (r : Http.Response)
| Gives (data : string)                      (* a body, a file, a path *)
| Exits (code : option Z) (stderr : string)  (* 'close' of the child *)
| Completes.

(** An adapter: what it does from now to its next [await]. *)
Inductive Adapter : Type :=
| Resolve (transcript : string) (publicUrl : option string)
| Reject (err : JsError)
| OnStage (stage : CaptionTaskStage) (message : string) (k : Adapter)
| Aborted (k : bool -> Adapter)              (* reads signal.aborted *)
| Clock (k : Z -> Adapter)                   (* reads Date.now() *)
| Await (op : Op) (k : Outcome -> Adapter).

(** Aborting the signal settles these at once: a pending [fetch] rejects,
    a body still being read is errored, and the listener of [sleep]
    rejects its promise. *)
Definition wakesOnAbort (op : Op) : bool :=
  match op with
  | Fetch _ | ReadBody | Timer _ => true
  | _ => false
  end.

(** A job between two turns of the event loop: the operation it waits
    for and what it does with the answer. *)
Abbreviation Suspended := (Op * (Outcome -> Adapter))%type.

(** A job runs from where it is to its next real wait. Every write to the
    task is recorded, newest first. An operation that the aborted signal
    settles at once does not make the job wait. *)
Fixpoint runJob (now : Z) (a : Adapter) (task : CaptionTask) (writes : list CaptionTask)
  : CaptionTask * list CaptionTask * option Suspended :=
  match a with
  | Resolve transcript publicUrl =>
      let task' := succeed now transcript publicUrl task in (task', task' :: writes, None)
  | Reject err =>
      let task' := fail now err task in (task', task' :: writes, None)
  | OnStage stage message k =>
      let task' := update now stage message task in runJob now k task' (task' :: writes)
  | Aborted k => runJob now (k (abort task)) task writes
  | Clock k => runJob now (k now) task writes
  | Await op k =>
      if wakesOnAbort op && abort task
      then runJob now (k (Rejects abortError)) task writes
      else (task, writes, Some (op, k))
  end.

(** The task as it is when the call that started the job returns: the
    adapter has run to its first [await], [return] or [throw], and the
    continuation of the job's own [await] has not run yet. *)
Fixpoint atFirstPause (now : Z) (a : Adapter) (task : CaptionTask) : CaptionTask :=
  match a with
  | OnStage stage message k => atFirstPause now k (update now stage message task)
  | Aborted k => atFirstPause now (k (abort task)) task
  | Clock k => atFirstPause now (k now) task
  | Resolve _ _ | Reject _ | Await _ _ => task
  end.

Section WithPlatform.
Context `{Platform}.

Definition errorOf (o : Outcome) : JsError :=
  match o with
  | Rejects e => e
  | _ => mkError "TypeError" "unexpected answer"
  end.

(** The [finally] of [extractMp3FromVideoBuffer]: [cleanup] swallows
    whatever [rm] does. *)
Definition cleanupThen (a : Adapter) : Adapter := Await RemoveDir (fun _ => a).

Definition ffmpegMissing : JsError :=
  plainError "ffmpeg 不可用：请先安装依赖 ffmpeg-static".

(** [extractMp3FromVideoBuffer]; [k] is what the caller does with the
    audio. *)
Definition extractMp3FromVideoBuffer (videoBuffer : string) (k : string -> Adapter)
  : Adapter :=
  Aborted (fun aborted =>
    if aborted then Reject (plainError cancelMessage)
    else
      OnStage uploading "提取音频中..."
        (Await GetFfmpegPath (fun o =>
           match o with
           | Gives value =>
               if Str.isEmpty (Str.trim value) then Reject ffmpegMissing
               else
                 Await Mkdtemp (fun o =>
                   match o with
                   | Gives tmpRoot =>
                       Await WriteFile (fun o =>
                         match o with
                         | Completes =>
                             Await Transcoder (fun o =>
                               Aborted (fun aborted =>
                                 match o with
                                 | Exits code stderr =>
                                     if aborted then
                                       cleanupThen (Reject (plainError cancelMessage))
                                     else if bool_decide (code = Some 0) then
                                       Await ReadFile (fun o =>
                                         match o with
                                         | Gives mp3 =>
                                             if Str.isEmpty mp3 then
                                               cleanupThen
                                                 (Reject (plainError "提取音频失败：输出为空"))
                                             else cleanupThen (k mp3)
                                         | other => cleanupThen (Reject (errorOf other))
                                         end)
                                     else
                                       let hint :=
                                         if Str.isEmpty (Str.trim stderr) then ""
                                         else "：" +:+ tailText (Str.trim stderr) 1200 in
                                       cleanupThen
                                         (Reject
                                            (plainError
                                               ("提取音频失败（ffmpeg exit="
                                                +:+ from_option pretty "null" code
                                                +:+ "）" +:+ hint)))
                                 | other => cleanupThen (Reject (errorOf other))
                                 end))
                         | other => cleanupThen (Reject (errorOf other))
                         end)
                   | other => Reject (errorOf other)
                   end)
           | _ => Reject ffmpegMissing
           end))).

Definition flashEndpoint : string :=
  "https://openspeech.bytedance.com/api/v3/auc/bigmodel/recognize/flash".

Definition downloadRefused (res : Http.Response) : JsError :=
  plainError ("下载视频失败：可能权限受限 (HTTP " +:+ pretty (Http.status res) +:+ ")").

(** [transcribeWithDoubaoBigasrFlash], called by the job with the task's
    signal and with [update] as [onStage]. *)
Definition transcribeWithDoubaoBigasrFlash (videoUrl cfgAppKey cfgAccessKey : string)
  : Adapter :=
  match Url.assertSafeExternalHttpUrl videoUrl with
  | Throw msg => Reject (plainError msg)
  | Return safeUrl =>
      let appKey := Str.trim cfgAppKey in
      let accessKey := Str.trim cfgAccessKey in
      if Str.isEmpty appKey then
        Reject (plainError "缺少豆包语音 AppID（X-Api-App-Key）")
      else if Str.isEmpty accessKey then
        Reject (plainError "缺少豆包语音 Access Token（X-Api-Access-Key）")
      else
        OnStage downloading "下载视频中..."
          (Await (Fetch (Url.href safeUrl)) (fun o =>
             match o with
             | Responds videoRes =>
                 if negb (Http.ok videoRes) then Reject (downloadRefused videoRes)
                 else
                   Await ReadBody (fun o =>
                     match o with
                     | Gives videoBuf =>
                         extractMp3FromVideoBuffer videoBuf (fun mp3Buf =>
                           OnStage submitting "提交豆包语音识别中..."
                             (Await (Fetch flashEndpoint) (fun o =>
                                match o with
                                | Responds apiRes =>
                                    Await ReadBody (fun o =>
                                      let apiText :=
                                        match o with
                                        | Gives text => text
                                        | _ => ""
                                        end in
                                      match Flash.readReply apiRes apiText with
                                      | Return transcript => Resolve transcript None
                                      | Throw msg => Reject (plainError msg)
                                      end)
                                | other => Reject (errorOf other)
                                end)))
                     | other => Reject (errorOf other)
                     end)
             | other => Reject (errorOf other)
             end))
  end.

(** [await res.json()], then [k]. *)
Definition withJson (o : Outcome) (k : JsValue -> Adapter) : Adapter :=
  match o with
  | Gives text =>
      match JSON_parse text with
      | Some v => k v
      | None => Reject (mkError "SyntaxError" "Unexpected token in JSON")
      end
  | other => Reject (errorOf other)
  end.

(** [v.name] with no guard in the source, then [k]. *)
Definition withProp (v : JsValue) (name : string) (k : JsValue -> Adapter) : Adapter :=
  if Js.nullish v then
    Reject (mkError "TypeError" "Cannot read properties of undefined")
  else k (Js.prop v name).

Definition strictEqString (v : JsValue) (s : string) : bool :=
  match v with
  | JString s' => String.eqb s' s
  | _ => false
  end.

(** [getDashscopeUploadPolicy]. *)
Definition getDashscopeUploadPolicy (k : JsValue -> Adapter) : Adapter :=
  Await (Fetch "https://dashscope.aliyuncs.com/api/v1/uploads?action=getPolicy&model=paraformer-v2")
    (fun o =>
       match o with
       | Responds res =>
           Await ReadBody (fun o =>
             let data :=
               match o with
               | Gives text => default JNull (JSON_parse text)
               | _ => JNull
               end in
             if negb (Http.ok res) || Js.truthy (Js.optProp data "code") then
               Reject
                 (plainError
                    (ToString
                       (Js.or (Js.optProp data "message")
                          (JString ("获取上传凭证失败 (HTTP " +:+ pretty (Http.status res) +:+ ")")))))
             else
               let policy := Js.optProp data "data" in
               if negb (Js.truthy (Js.optProp policy "upload_dir"))
                  || negb (Js.truthy (Js.optProp policy "upload_host"))
               then Reject (plainError "获取上传凭证失败：返回数据不完整")
               else k policy)
       | other => Reject (errorOf other)
       end).

(** [uploadToDashscopeTemporaryOss]. *)
Definition uploadToDashscopeTemporaryOss (filename : string) (k : string -> Adapter)
  : Adapter :=
  getDashscopeUploadPolicy (fun policy =>
    let key := ToString (Js.prop policy "upload_dir") +:+ "/" +:+ filename in
    Await (Fetch (ToString (Js.prop policy "upload_host"))) (fun o =>
      match o with
      | Responds uploadRes =>
          if negb (Http.ok uploadRes) then
            Await ReadBody (fun o =>
              let errText :=
                match o with
                | Gives text => text
                | _ => ""
                end in
              Reject
                (plainError
                   ("上传临时文件失败 (HTTP " +:+ pretty (Http.status uploadRes) +:+ ")"
                    +:+ (if Str.isEmpty errText then "" else "：" +:+ errText))))
          else k ("oss://" +:+ key)
      | other => Reject (errorOf other)
      end)).

(** [sleep(ms, signal)]. *)
Definition sleep (ms : Z) (k : Adapter) : Adapter :=
  Aborted (fun aborted =>
    if aborted then Reject (plainError cancelMessage)
    else
      Await (Timer ms) (fun o =>
        match o with
        | Rejects _ => Reject (plainError cancelMessage)
        | _ => k
        end)).

Definition maxWaitMs : Z := 300000.
Definition pollInterval : Z := 2000.

(** [texts.join('\n')] over [transcripts.map(t => t.text).filter(Boolean)]. *)
Fixpoint collectTexts (transcripts : list JsValue) : option (list string) :=
  match transcripts with
  | [] => Some []
  | t :: rest =>
      if Js.nullish t then None
      else
        rest' ← collectTexts rest;
        let text := Js.prop t "text" in
        Some (if Js.truthy text then ToString text :: rest' else rest')
  end.

Definition readTranscripts (resultData : JsValue) (publicUrl : string) : Adapter :=
  withProp resultData "transcripts" (fun transcripts =>
    match transcripts with
    | JUndefined | JNull => Reject (plainError "转录结果为空")
    | JArray items =>
        match collectTexts items with
        | None => Reject (mkError "TypeError" "Cannot read properties of undefined")
        | Some [] => Reject (plainError "转录结果为空")
        | Some texts => Resolve (Str.join (String (ascii_of_nat 10) "") texts) (Some publicUrl)
        end
    | _ => Reject (mkError "TypeError" "transcripts.map is not a function")
    end).

(** The polling loop of [transcribeWithParaformer]. A round lasts at
    least [pollInterval], so the clock ends the loop within
    [maxWaitMs / pollInterval] rounds; [rounds] is that bound. *)
Fixpoint pollLoop (rounds : nat) (taskId : string) (startTime : Z) (publicUrl : string)
  : Adapter :=
  match rounds with
  | O => Reject (plainError "转录超时，请稍后重试")
  | S rounds' =>
      Clock (fun now =>
        if negb (now - startTime <? maxWaitMs) then
          Reject (plainError "转录超时，请稍后重试")
        else
          sleep pollInterval
            (Await (Fetch ("https://dashscope.aliyuncs.com/api/v1/tasks/" +:+ taskId)) (fun o =>
               match o with
               | Responds queryRes =>
                   Await ReadBody (fun o =>
                     withJson o (fun queryData =>
                       withProp queryData "output" (fun output =>
                         let status := Js.optProp output "task_status" in
                         if Js.truthy (Js.prop queryData "code") then
                           Reject
                             (plainError
                                (ToString
                                   (Js.or (Js.prop queryData "message")
                                      (JString "查询任务状态失败"))))
                         else if strictEqString status "SUCCEEDED" then
                           let transcriptionUrl :=
                             Js.optProp (Js.optFirst (Js.optProp output "results"))
                               "transcription_url" in
                           if negb (Js.truthy transcriptionUrl) then
                             Reject (plainError "未获取到转录结果 URL")
                           else
                             OnStage fetching_result "获取转录结果中..."
                               (Await (Fetch (ToString transcriptionUrl)) (fun o =>
                                  match o with
                                  | Responds resultRes =>
                                      if negb (Http.ok resultRes) then
                                        Reject (plainError "获取转录结果失败")
                                      else
                                        Await ReadBody (fun o =>
                                          withJson o (fun resultData =>
                                            readTranscripts resultData publicUrl))
                                  | other => Reject (errorOf other)
                                  end))
                         else if strictEqString status "FAILED" then
                           Reject
                             (plainError
                                (ToString
                                   (Js.or (Js.prop queryData "message")
                                      (JString "转录任务失败"))))
                         else pollLoop rounds' taskId startTime publicUrl)))
               | other => Reject (errorOf other)
               end)))
  end.

(** [transcribeWithParaformer]. *)
Definition transcribeWithParaformer (videoUrl apiKey : string) : Adapter :=
  match Url.assertSafeExternalHttpUrl videoUrl with
  | Throw msg => Reject (plainError msg)
  | Return safeUrl =>
      OnStage downloading "下载视频中..."
        (Await (Fetch (Url.href safeUrl)) (fun o =>
           match o with
           | Responds videoRes =>
               if negb (Http.ok videoRes) then Reject (downloadRefused videoRes)
               else
                 Await ReadBody (fun o =>
                   match o with
                   | Gives buffer =>
                       OnStage uploading "上传临时文件中..."
                         (uploadToDashscopeTemporaryOss "video.mp4" (fun publicUrl =>
                            OnStage submitting "提交语音识别任务中..."
                              (Await
                                 (Fetch "https://dashscope.aliyuncs.com/api/v1/services/audio/asr/transcription")
                                 (fun o =>
                                    match o with
                                    | Responds submitRes =>
                                        Await ReadBody (fun o =>
                                          withJson o (fun submitData =>
                                            withProp submitData "code" (fun code =>
                                              if negb (Http.ok submitRes) || Js.truthy code then
                                                Reject
                                                  (plainError
                                                     (ToString
                                                        (Js.or (Js.prop submitData "message")
                                                           (JString "提交转录任务失败"))))
                                              else
                                                let taskId :=
                                                  Js.optProp (Js.prop submitData "output") "task_id" in
                                                if negb (Js.truthy taskId) then
                                                  Reject (plainError "未获取到转录任务ID")
                                                else
                                                  OnStage polling "语音识别中..."
                                                    (Clock (fun startTime =>
                                                       pollLoop 151 (ToString taskId) startTime
                                                         publicUrl)))))
                                    | other => Reject (errorOf other)
                                    end))))
                   | other => Reject (errorOf other)
                   end)
           | other => Reject (errorOf other)
           end))
  end.

(** *** The registry and the jobs, turn by turn *)

(** The task objects live in the map; a job reaches its task through the
    map. A job whose task has been swept writes to an object that no
    handler can reach any more: it leaves the model. *)
Record World : Type := mkWorld {
  captionTasks : gmap string CaptionTask;
  jobs : gmap string Suspended
}.

Definition setJob (taskId : string) (j : option Suspended) (js : gmap string Suspended)
  : gmap string Suspended :=
  match j with
  | Some s => <[taskId := s]> js
  | None => delete taskId js
  end.

(** The job of [taskId] goes on as [a] until it has to wait. *)
Definition advance (now : Z) (taskId : string) (a : Adapter) (w : World) : World :=
  match captionTasks w !! taskId with
  | None => mkWorld (captionTasks w) (delete taskId (jobs w))
  | Some task =>
      let '(task', _, j) := runJob now a task [] in
      mkWorld (<[taskId := task']> (captionTasks w)) (setJob taskId j (jobs w))
  end.

(** The operation the job of [taskId] waits for answers [o]. *)
Definition resume (now : Z) (taskId : string) (o : Outcome) (w : World) : World :=
  match jobs w !! taskId with
  | None => w
  | Some (_, k) => advance now taskId (k o) w
  end.

(** The successive states that turn writes to the task, oldest first. *)
Definition writesOfResume (now : Z) (taskId : string) (o : Outcome) (w : World)
  : list CaptionTask :=
  match jobs w !! taskId, captionTasks w !! taskId with
  | Some (_, k), Some task => rev (runJob now (k o) task []).1.2
  | _, _ => []
  end.

(** After [abort()]: a job waiting for something the signal settles goes
    on within the same turn. *)
Definition wake (now : Z) (taskId : string) (w : World) : World :=
  match jobs w !! taskId with
  | Some (op, k) =>
      if wakesOnAbort op then advance now taskId (k (Rejects abortError)) w else w
  | None => w
  end.

Inductive Body : Type :=
| ErrorBody (error : string)
| SnapshotBody (snapshot : Snapshot).

Record Reply : Type := mkReply {
  statusCode : Z;
  body : Body
}.

(** [String(a || b || ... || '').trim()] over fields of the request body. *)
Definition bodyField (body : JsValue) (names : list string) : string :=
  Str.trim (ToString (foldr (fun name rest => Js.or (Js.prop body name) rest) (JString "") names)).

Definition isPost (method : option string) : bool :=
  String.eqb (Str.toUpperCase (Str.orElse (default "" method) "GET")) "POST".

Definition sweep (now : Z) (w : World) : World :=
  mkWorld (cleanupCaptionTasks now (captionTasks w)) (jobs w).

(** [handleCaptionQuery]; [taskId] is the query parameter, [""] when it
    is missing. *)
Definition handleCaptionQuery (now : Z) (taskId : string) (w : World) : Reply * World :=
  let w := sweep now w in
  if Str.isEmpty taskId then (mkReply 400 (ErrorBody "缺少 taskId"), w)
  else
    match captionTasks w !! taskId with
    | None => (mkReply 404 (ErrorBody "任务不存在或已过期"), w)
    | Some task => (mkReply 200 (SnapshotBody (snapshotCaptionTask task)), w)
    end.

Record CancelRequest : Type := mkCancelRequest {
  cancel_method : option string;
  (** the query parameter [taskId], [""] when it is missing *)
  cancel_query : string;
  (** [readJsonBody(req)] *)
  cancel_body : Exc JsValue
}.

(** The [taskId] of a cancel request: the query parameter, else the field
    of the body. *)
Definition requestedTaskId (req : CancelRequest) : string :=
  if Str.isEmpty (cancel_query req) then
    match cancel_body req with
    | Return body => bodyField (Js.or body (JObject [])) ["taskId"]
    | Throw _ => ""
    end
  else cancel_query req.

(** [handleCaptionCancel] from the line after [await readJsonBody]. *)
Definition cancelAfterBody (req : CancelRequest) (now : Z) (w : World) : Reply * World :=
  let taskId := requestedTaskId req in
  if Str.isEmpty taskId then (mkReply 400 (ErrorBody "缺少 taskId"), w)
  else
    match captionTasks w !! taskId with
    | None => (mkReply 404 (ErrorBody "任务不存在或已过期"), w)
    | Some task =>
        if bool_decide (status task = RUNNING) || bool_decide (status task = WAITING) then
          let task' := cancelNow now task in
          (mkReply 200 (SnapshotBody (snapshotCaptionTask task')),
           wake now taskId (mkWorld (<[taskId := task']> (captionTasks w)) (jobs w)))
        else (mkReply 200 (SnapshotBody (snapshotCaptionTask task)), w)
    end.

(** [handleCaptionCancel]: the sweep at [now0], and the rest at [now1]
    once the body has been read, nothing else running in between. *)
Definition handleCaptionCancel (req : CancelRequest) (now0 now1 : Z) (w : World)
  : Reply * World :=
  let w := sweep now0 w in
  if negb (isPost (cancel_method req)) then (mkReply 405 (ErrorBody "仅支持 POST"), w)
  else cancelAfterBody req now1 w.

(** What [fetchVideoMeta] returns, as far as the task API reads it. *)
Record VideoMeta : Type := mkMeta {
  caption : JsValue;
  playUrl : JsValue
}.

Record CreateRequest : Type := mkCreateRequest {
  create_method : option string;
  (** [readJsonBody(req)] *)
  create_body : Exc JsValue;
  (** what [extractUrlFromText], [normalizeUrl], [assertSafeDouyinUrl],
      [resolveRedirects] and [parseVideoId] make of the link: an error
      thrown on the way, or the video id if there is one *)
  create_videoId : Exc (option string);
  (** [fetchVideoMeta(id)] *)
  create_meta : Exc VideoMeta;
  (** [randomUUID()] *)
  create_taskId : string
}.

Inductive Provider : Type := doubao | dashscope.

(** What a call of [handleCaptionCreate] did: its reply, the registry
    after it, and the background job it launched, if it launched one. *)
Record Created : Type := mkCreated {
  reply : Reply;
  world : World;
  launched : option Adapter
}.

Definition refuse (code : Z) (error : string) (w : World) : Created :=
  mkCreated (mkReply code (ErrorBody error)) w None.

(** [meta.caption && meta.caption.trim()]: the trimmed caption when that
    is a string with something in it. *)
Definition ownCaption (meta : VideoMeta) : Exc (option string) :=
  if Js.truthy (caption meta) then
    match caption meta with
    | JString text =>
        let trimmed := Str.trim text in
        Return (if Str.isEmpty trimmed then None else Some trimmed)
    | _ => Throw "meta.caption.trim is not a function"
    end
  else Return None.

(** The detached job: the adapter of the provider, under the job's
    [try]. *)
Definition jobFor (provider : Provider) (doubaoAppId doubaoToken dashscopeApiKey : string)
    (playUrl : JsValue) : Adapter :=
  match provider with
  | doubao => transcribeWithDoubaoBigasrFlash (ToString playUrl) doubaoAppId doubaoToken
  | dashscope =>
      OnStage downloading "下载视频中..."
        (transcribeWithParaformer (ToString playUrl) dashscopeApiKey)
  end.

(** [handleCaptionCreate] once [fetchVideoMeta] has answered. *)
Definition createFromMeta (provider : Provider)
    (doubaoAppId doubaoToken dashscopeApiKey : string)
    (meta : VideoMeta) (taskId : string) (now : Z) (w : World) : Created :=
  match ownCaption meta with
  | Throw msg => refuse 500 msg w
  | Return (Some text) =>
      (* Douyin's own caption is reused: no speech recognition *)
      let task :=
        {| id := taskId; status := SUCCESS; stage := done;
           message := Some "已获取抖音字幕";
           createdAt := now; updatedAt := now;
           transcript := Some text; error := None; publicFileUrl := None;
           abort := false |} in
      mkCreated (mkReply 200 (SnapshotBody (snapshotCaptionTask task)))
        (mkWorld (<[taskId := task]> (captionTasks w)) (jobs w)) None
  | Return None =>
      if negb (Js.truthy (playUrl meta)) then
        refuse 500 "无法获取视频播放地址，可能权限受限或视频不可用" w
      else
        let task :=
          {| id := taskId; status := WAITING; stage := queued;
             message := Some "任务已创建";
             createdAt := now; updatedAt := now;
             transcript := None; error := None; publicFileUrl := None;
             abort := false |} in
        let job := jobFor provider doubaoAppId doubaoToken dashscopeApiKey (playUrl meta) in
        mkCreated
          (mkReply 200 (SnapshotBody (snapshotCaptionTask (atFirstPause now job task))))
          (advance now taskId job (mkWorld (<[taskId := task]> (captionTasks w)) (jobs w)))
          (Some job)
  end.

(** [handleCaptionCreate]: the sweep at [now0], and the rest at [now1]
    with what the awaited steps brought back. *)
Definition handleCaptionCreate (req : CreateRequest) (now0 now1 : Z) (w : World) : Created :=
  let w := sweep now0 w in
  if negb (isPost (create_method req)) then refuse 405 "仅支持 POST" w
  else
    match create_body req with
    | Throw msg => refuse 500 msg w
    | Return body =>
        let body := Js.or body (JObject []) in
        let workUrlRaw := bodyField body ["workUrl"; "url"] in
        let providerRaw := Str.toLowerCase (bodyField body ["provider"; "asrProvider"]) in
        let doubaoAppId := bodyField body ["doubaoAppId"; "appId"; "doubaoAppKey"; "appKey"] in
        let doubaoToken := bodyField body ["doubaoToken"; "token"; "doubaoAccessKey"; "accessKey"] in
        let dashscopeApiKey := bodyField body ["dashscopeApiKey"; "apiKey"] in
        if Str.isEmpty workUrlRaw then refuse 400 "缺少 workUrl" w
        else
          let provider :=
            if String.eqb providerRaw "doubao" then doubao
            else if String.eqb providerRaw "dashscope" then dashscope
            else if negb (Str.isEmpty doubaoAppId) || negb (Str.isEmpty doubaoToken) then doubao
            else dashscope in
          let missing :=
            match provider with
            | doubao =>
                if Str.isEmpty doubaoAppId then Some "缺少 doubaoAppId（豆包语音 AppID）"
                else if Str.isEmpty doubaoToken then Some "缺少 doubaoToken（豆包语音 Access Token）"
                else None
            | dashscope =>
                if Str.isEmpty dashscopeApiKey then Some "缺少 dashscopeApiKey（阿里百炼）"
                else None
            end in
          match missing with
          | Some error => refuse 400 error w
          | None =>
              match create_videoId req with
              | Throw msg => refuse 500 msg w
              | Return None => refuse 400 "无法识别视频 ID" w
              | Return (Some _) =>
                  match create_meta req with
                  | Throw msg => refuse 500 msg w
                  | Return meta =>
                      createFromMeta provider doubaoAppId doubaoToken dashscopeApiKey
                        meta (create_taskId req) now1 w
                  end
              end
          end
    end.

End WithPlatform.

End Tasks.

(** ** The account's videos *)

Module Listing.

Record Stats : Type := mkStats {
  diggCount : JsValue;
  commentCount : JsValue;
  shareCount : JsValue;
  collectCount : JsValue
}.

Record Video : Type := mkVideo {
  awemeId : JsValue;
  desc : JsValue;
  createTime : JsValue;
  durationMs : JsValue;
  coverUrl : JsValue;
  playUrl : JsValue;
  stats : Stats
}.

(** [v?.a?.b?.[0]]. *)
Definition firstOf (v : JsValue) (a b : string) : JsValue :=
  Js.optFirst (Js.optProp (Js.optProp v a) b).

(** The callback of [awemeList.map]. *)
Definition toVideo (item : JsValue) : Exc Video :=
  statistics ← Js.propOrThrow item "statistics";
  let stats := Js.or statistics (Js.or (Js.prop item "stats") (JObject [])) in
  let video := Js.optProp item "video" in
  let cover :=
    Js.or (firstOf video "cover" "url_list")
      (Js.or (firstOf video "origin_cover" "url_list")
         (Js.or (firstOf video "dynamic_cover" "url_list")
            (Js.or (Js.optProp item "cover_url") JNull))) in
  let playUrl :=
    Js.or (firstOf video "play_addr" "url_list")
      (Js.or (firstOf video "play_addr_lowbr" "url_list") JNull) in
  let count (a b : string) :=
    Js.coalesce (Js.prop stats a) (Js.coalesce (Js.prop stats b) (JNumber (Finite 0))) in
  Return
    {| awemeId := Js.or (Js.prop item "aweme_id") (Js.prop item "awemeId");
       desc := Js.or (Js.prop item "desc") (Js.or (Js.prop item "title") (JString "无标题"));
       createTime := Js.or (Js.prop item "create_time") (Js.or (Js.prop item "createTime") JNull);
       durationMs := Js.coalesce (Js.optProp video "duration") JNull;
       coverUrl := cover;
       playUrl := playUrl;
       stats :=
         {| diggCount := count "digg_count" "diggCount";
            commentCount := count "comment_count" "commentCount";
            shareCount := count "share_count" "shareCount";
            collectCount := count "collect_count" "collectCount" |} |}.

Fixpoint mapExc {A B : Type} (f : A -> Exc B) (l : list A) : Exc (list B) :=
  match l with
  | [] => Return []
  | x :: rest =>
      y ← f x;
      ys ← mapExc f rest;
      Return (y :: ys)
  end.

(** [Array.prototype.slice(0, count)] for an integer [count]. *)
Definition slice0 {A : Type} (count : Z) (l : list A) : list A :=
  if count <? 0 then take (Z.to_nat (Z.max (Z.of_nat (length l) + count) 0)) l
  else take (Z.to_nat count) l.

Section WithPlatform.
Context `{Platform}.

(** The like count the sort reads: [v.stats.diggCount || 0], as a Number. *)
Definition likes (v : Video) : JsNumber :=
  ToNumber (Js.or (diggCount (stats v)) (JNumber (Finite 0))).

(** The comparator handed to [sort]. *)
Definition byLikesDesc (a b : Video) : JsNumber := Js.numSub (likes b) (likes a).

(** [Array.prototype.sort(cmp)], which is stable: an element moves behind
    another only where [cmp] says it is greater. *)
Fixpoint insertSorted {A : Type} (cmp : A -> A -> JsNumber) (x : A) (l : list A) : list A :=
  match l with
  | [] => [x]
  | y :: rest =>
      if Js.numPositive (cmp x y) then y :: insertSorted cmp x rest else x :: l
  end.

Definition sort {A : Type} (cmp : A -> A -> JsNumber) (l : list A) : list A :=
  foldr (insertSorted cmp) [] l.

(** What the listing endpoint answers to one attempt. *)
Inductive ListingReply : Type :=
| FetchRejects (msg : string)                        (* fetch itself throws *)
| Replies (ok : bool) (status : Z) (json : option JsValue).
    (* res.ok, res.status, and res.json() unless that throws *)

(** What one round of the loop meets: the clock and, should a handshake be
    needed or pending, how it ends; then the reply. *)
Record Attempt : Type := mkAttempt {
  at_now : Z;
  at_handshake : Session.Handshake;
  at_reply : ListingReply
}.

(** What a call does to the outside, in order. *)
Inductive Effect : Type :=
| AskListing (cookie : string)     (* the GET of the listing endpoint *)
| Invalidate                       (* douyinWebSession = null *)
| Warn (msg : string).

Record Result : Type := mkResult {
  outcome : Exc (list Video);
  cache : Session.Cache;
  effects : list Effect
}.

(** The lines after a failed check: [if (attempt === 0) { ...; continue }
    return []]. *)
Definition retryOrGiveUp (attempt : nat) (c : Session.Cache) (log : list Effect)
    (again : Session.Cache -> list Effect -> Result) : Result :=
  if (attempt =? 0)%nat then again (Session.invalidate c) (log ++ [Invalidate])%list
  else mkResult (Return []) c log.

(** The parsed videos, ordered and cut. *)
Definition pickVideos (count : Z) (awemeList : list JsValue) : Exc (list Video) :=
  videos ← mapExc toVideo awemeList;
  let videos := List.filter (fun v => Js.truthy (awemeId v)) videos in
  Return (slice0 count (sort byLikesDesc videos)).

(** [data.aweme_list] unless
    [!data || data.status_code !== 0 || !Array.isArray(data.aweme_list)]. *)
Definition payloadList (data : JsValue) : option (list JsValue) :=
  if negb (Js.truthy data) then None
  else
    match Js.prop data "status_code" with
    | JNumber n =>
        if Js.numStrictEq n (Finite 0) then
          match Js.prop data "aweme_list" with
          | JArray awemeList => Some awemeList
          | _ => None
          end
        else None
    | _ => None
    end.

(** The loop [for (attempt = 0; attempt < 2; attempt++)], [rounds] rounds
    of it still to go. *)
Fixpoint attempts (rounds attempt : nat) (env : nat -> Attempt) (count : Z)
    (c : Session.Cache) (log : list Effect) : Result :=
  match rounds with
  | O => mkResult (Return []) c log
  | S rounds' =>
      let a := env attempt in
      let again := attempts rounds' (S attempt) env count in
      match Session.awaitSession (at_now a) (at_handshake a) c with
      | (Throw msg, c) => mkResult (Throw msg) c log
      | (Return session, c) =>
          let log := (log ++ [AskListing (Session.cookie session)])%list in
          match at_reply a with
          | FetchRejects msg => mkResult (Throw msg) c log
          | Replies ok status json =>
              if negb ok then
                retryOrGiveUp attempt c
                  (log ++ [Warn ("[User Videos] HTTP " +:+ pretty status)])%list again
              else
                match json with
                | None =>
                    retryOrGiveUp attempt c
                      (log ++ [Warn "[User Videos] Failed to parse JSON response"])%list again
                | Some data =>
                    match payloadList data with
                    | None =>
                        retryOrGiveUp attempt c
                          (log ++ [Warn "[User Videos] Invalid response payload:"])%list again
                    | Some [] =>
                        retryOrGiveUp attempt c
                          (log ++ [Warn "[User Videos] Empty aweme_list"])%list again
                    | Some awemeList => mkResult (pickVideos count awemeList) c log
                    end
                end
          end
      end
  end.

(** [fetchUserVideos]. [abogus] is what [generate_a_bogus] makes of the
    query string: a signature, or the error of a missing or failing
    generator. *)
Definition fetchUserVideos (abogus : Exc string) (env : nat -> Attempt) (count : Z)
    (c : Session.Cache) : Result :=
  let r :=
    match abogus with
    | Throw msg => mkResult (Throw msg) c []
    | Return _ => attempts 2 0 env count c []
    end in
  match outcome r with
  | Return videos => r
  | Throw msg =>
      (* catch (err): the error is logged and an empty list returned *)
      mkResult (Return []) (cache r) (effects r ++ [Warn "[User Videos] Error:"])%list
  end.

(** The clamp of [handleUserVideos]; [parsed] is [parseInt(countStr, 10)],
    [None] for NaN. *)
Definition listingCalls (log : list Effect) : nat :=
  length (List.filter (fun e => match e with AskListing _ => true | _ => false end) log).

Definition invalidations (log : list Effect) : nat :=
  length (List.filter (fun e => match e with Invalidate => true | _ => false end) log).


Definition clampCount (parsed : option Z) : Z :=
  let n := match parsed with
           | Some n => if n =? 0 then 10 else n
           | None => 10
           end in
  Z.min (Z.max n 1) 50.

End WithPlatform.

End Listing.

(** ** A platform to run the definitions on *)

(** Decimal integers are read and printed as JavaScript does; the other
    conversions are fixed to values the examples do not depend on, and
    [JSON.parse] knows the bodies the examples use. *)
Module Ref.

Fixpoint digits (acc : Z) (l : list ascii) : option Z :=
  match l with
  | [] => Some acc
  | c :: rest =>
      let n := nat_of_ascii c in
      if ((48 <=? n)%nat && (n <=? 57)%nat)%bool
      then digits (10 * acc + (Z.of_nat n - 48)) rest
      else None
  end.

Definition number (s : string) : JsNumber :=
  match Str.chars (Str.trim s) with
  | [] => Finite 0
  | c :: rest =>
      if Ascii.eqb c "-" then
        match rest with
        | [] => NaN
        | _ => from_option (fun n => Finite (inject_Z (- n))) NaN (digits 0 rest)
        end
      else from_option (fun n => Finite (inject_Z n)) NaN (digits 0 (c :: rest))
  end.

Definition toNumber (v : JsValue) : JsNumber :=
  match v with
  | JNumber n => n
  | JString s => number s
  | JBool true => Finite 1
  | JBool false | JNull => Finite 0
  | JUndefined | JArray _ | JObject _ => NaN
  end.

Definition toString (v : JsValue) : string :=
  match v with
  | JString s => s
  | JNumber (Finite q) => pretty (Qnum q / Z.pos (Qden q))
  | JNumber NaN => "NaN"
  | JNumber (Infinity negative) => if negative then "-Infinity" else "Infinity"
  | JBool b => if b then "true" else "false"
  | JNull => "null"
  | JUndefined => "undefined"
  | JArray _ => ""
  | JObject _ => "[object Object]"
  end.

Definition quote : string := String (ascii_of_nat 34) "".

(** The JSON text of an object with one string field inside one object
    field: [{ outer: { inner: text } }]. *)
Definition nested (outer inner text : string) : string :=
  "{" +:+ quote +:+ outer +:+ quote +:+ ":{" +:+ quote +:+ inner +:+ quote +:+ ":"
  +:+ quote +:+ text +:+ quote +:+ "}}".

Definition helloBody : string := nested "result" "text" "hello".
Definition blankBody : string := nested "result" "text" "  ".
Definition wideBlankBody : string := nested "result" "text" "　".

Definition parseJson (s : string) : option JsValue :=
  if String.eqb s helloBody then
    Some (JObject [("result", JObject [("text", JString "hello")])])
  else if String.eqb s blankBody then
    Some (JObject [("result", JObject [("text", JString "  ")])])
  else if String.eqb s wideBlankBody then
    Some (JObject [("result", JObject [("text", JString "　")])])
  else if String.eqb s "null" then Some JNull
  else if String.eqb s "{}" then Some (JObject [])
  else None.

#[export] Instance platform : Platform.
Proof.
  refine {| ToNumber := toNumber; ToString := toString; JSON_parse := parseJson |};
    reflexivity.
Defined.

End Ref.

(** ** The words of the properties *)

(** A status from which the task API never moves a task on. *)
Definition terminal (s : Tasks.CaptionTaskStatus) : Prop :=
  s = Tasks.SUCCESS \/ s = Tasks.FAILURE \/ s = Tasks.CANCELLED.

(** A task the sweep at [now] is to delete: terminal, and last written
    more than one hour before. *)
Definition expired (now : Z) (task : Tasks.CaptionTask) : Prop :=
  terminal (Tasks.status task) /\ now - Tasks.updatedAt task > 3600000.






(** ** The discipline of the jobs *)

Section Discipline.
Context `{Platform}.
Import Tasks.

(** [Settles dirty a]: resumed as [a] under an aborted signal, the job
    never resolves and never goes to wait with a stage written over the
    cancellation; [dirty] says that a stage has been written since the
    turn began. Where it waits, it waits for something the signal does
    not settle. *)
Inductive Settles : bool -> Adapter -> Prop :=
| Settles_reject dirty err : Settles dirty (Reject err)
| Settles_stage dirty stage message k :
    Settles true k -> Settles dirty (OnStage stage message k)
| Settles_aborted dirty k : Settles dirty (k true) -> Settles dirty (Aborted k)
| Settles_clock dirty k : (forall now, Settles dirty (k now)) -> Settles dirty (Clock k)
| Settles_wake dirty op k :
    wakesOnAbort op = true -> Settles dirty (k (Rejects abortError)) ->
    Settles dirty (Await op k)
| Settles_wait op k :
    wakesOnAbort op = false -> (forall o, Settles false (k o)) ->
    Settles false (Await op k).

(** [Tame a]: a job that is [a] keeps to that at every place where it
    may be waiting when the signal is aborted. *)
Inductive Tame : Adapter -> Prop :=
| Tame_resolve transcript publicUrl : Tame (Resolve transcript publicUrl)
| Tame_reject err : Tame (Reject err)
| Tame_stage stage message k : Tame k -> Tame (OnStage stage message k)
| Tame_aborted k : Tame (k false) -> Tame (Aborted k)
| Tame_clock k : (forall now, Tame (k now)) -> Tame (Clock k)
| Tame_await op k :
    (forall o, Tame (k o)) -> Settles false (Await op k) -> Tame (Await op k).

(** The statuses in the order of the life of a task. *)
Definition rank (s : CaptionTaskStatus) : nat :=
  match s with
  | WAITING => 0
  | RUNNING => 1
  | SUCCESS | FAILURE | CANCELLED => 2
  end.

Definition forward (s s' : CaptionTaskStatus) : Prop :=
  (rank s <= rank s')%nat /\ (terminal s -> s' = s).

Definition runnable (task : CaptionTask) (a : Adapter) : Prop :=
  if abort task then status task = CANCELLED /\ Settles false a
  else (status task = WAITING \/ status task = RUNNING) /\ Tame a.

Definition jobOk (task : CaptionTask) (j : option Suspended) : Prop :=
  match j with
  | Some (op, k) =>
      if abort task
      then status task = CANCELLED /\ wakesOnAbort op = false /\ forall o, Settles false (k o)
      else (status task = WAITING \/ status task = RUNNING) /\ Tame (Await op k)
  | None => terminal (status task)
  end.

Definition Disciplined (w : World) : Prop :=
  forall taskId task,
    captionTasks w !! taskId = Some task -> jobOk task (jobs w !! taskId).

(** The rest of the world is in order: every task but [taskId]. *)
Definition DisciplinedBut (taskId : string) (w : World) : Prop :=
  forall taskId' task,
    taskId' ≠ taskId ->
    captionTasks w !! taskId' = Some task -> jobOk task (jobs w !! taskId').

(** What a turn does to the statuses: every task still there has moved
    forward or stayed. *)
Definition Forward (w w' : World) : Prop :=
  forall taskId task task',
    captionTasks w !! taskId = Some task ->
    captionTasks w' !! taskId = Some task' ->
    forward (status task) (status task').

(** The turns: a create request that draws an unused id, a query, a
    cancel request, and the answer to what a job waits for. *)
Inductive Step : World -> World -> Prop :=
| Step_create req now0 now1 w :
    captionTasks w !! create_taskId req = None ->
    jobs w !! create_taskId req = None ->
    Step w (world (handleCaptionCreate req now0 now1 w))
| Step_query now taskId w : Step w (handleCaptionQuery now taskId w).2
| Step_cancel req now0 now1 w : Step w (handleCaptionCancel req now0 now1 w).2
| Step_resume now taskId o w : Step w (resume now taskId o w).

End Discipline.

(** ** Runs of the definitions *)

(** Two white-space characters that do not show in print: the byte-order
    mark U+FEFF and the no-break space U+00A0. *)
Module Wide.

Definition bom : string := Str.ofChars (map ascii_of_nat [239; 187; 191]%nat).
Definition nbsp : string := Str.ofChars (map ascii_of_nat [194; 160]%nat).

End Wide.

Definition oldTask (taskId : string) (s : Tasks.CaptionTaskStatus) : Tasks.CaptionTask :=
  Tasks.mkTask taskId s Tasks.done None 0 0 None None None false.

Module Scenario.
Import Tasks.

#[local] Existing Instance Ref.platform.

Definition nothing : World := mkWorld ∅ ∅.

Definition media : JsValue := JString "https://v3-web.douyinvod.com/video.mp4".

(** A video whose caption is one blank: created with the flash provider. *)
Definition blankCaption : Created :=
  createFromMeta doubao "app" "token" "" (mkMeta (JString " ") media) "t1" 1000 nothing.

(** The request that creates the task [t1] with the flash provider. *)
Definition createRequest : CreateRequest :=
  mkCreateRequest (Some "POST")
    (Return (JObject [("workUrl", JString "https://v.douyin.com/iRNBho6u/");
                      ("provider", JString "doubao");
                      ("doubaoAppId", JString "app");
                      ("doubaoToken", JString "token")]))
    (Return (Some "7300000000000000000")) (Return (mkMeta JNull media)) "t1".

(** A flash job from its creation to the removal of its temporary
    directory ... *)
Definition created : World :=
  world (createFromMeta doubao "app" "token" "" (mkMeta JNull media) "t1" 1000 nothing).
Definition downloaded : World :=
  resume 1200 "t1" (Gives "video")
    (resume 1100 "t1" (Responds (Http.mkResponse true 200 [])) created).
Definition transcoded : World :=
  resume 1600 "t1" (Exits (Some 0) "")
    (resume 1500 "t1" Completes
       (resume 1400 "t1" (Gives "/tmp/douying-asr-1")
          (resume 1300 "t1" (Gives "/opt/ffmpeg") downloaded))).
Definition removing : World := resume 1700 "t1" (Gives "mp3") transcoded.

(** ... and a cancel request that arrives while the directory is being
    removed. *)
Definition cancelRequest : CancelRequest := mkCancelRequest (Some "POST") "t1" (Return JNull).
Definition afterCancel : World := (handleCaptionCancel cancelRequest 1800 1800 removing).2.

End Scenario.

Module ListingRun.
Import Listing.

#[local] Existing Instance Ref.platform.

Definition handshake (nonce : string) (now : Z) : Session.Handshake :=
  Session.mkHandshake (Return (Some nonce)) (Return "sig") (Return [("ttwid", "1")]) now.

Definition item (awemeId : string) (likes : Z) : JsValue :=
  JObject [("aweme_id", JString awemeId);
           ("statistics", JObject [("digg_count", JNumber (Finite (inject_Z likes)))])].

Definition payload : JsValue :=
  JObject [("status_code", JNumber (Finite 0));
           ("aweme_list", JArray [item "a" 5; item "b" 9; item "c" 7])].

(** The listing answers 403 first and lists three videos then. The
    session of the first handshake is good for 29 minutes; the second
    round comes one second after the first. *)
Definition env (attempt : nat) : Attempt :=
  match attempt with
  | O => mkAttempt 1000 (handshake "n1" 1000) (Replies false 403 None)
  | S _ => mkAttempt 2000 (handshake "n2" 2000) (Replies true 200 (Some payload))
  end.

Definition run : Result :=
  fetchUserVideos (Return "a_bogus") env 2 (Session.mkCache None None 0).

Definition ids (r : Result) : list JsValue :=
  match outcome r with
  | Return videos => map awemeId videos
  | Throw _ => []
  end.

End ListingRun.

(** ** Matching text *)

(** The regular expressions of the plugin are of a few shapes; each is
    read as the matcher it stands for. [\s] is JavaScript's white space,
    [Str.whites]; [\d] is the ten digits of ASCII. *)
Module Re.

Definition isDigit (c : ascii) : bool :=
  let n := nat_of_ascii c in (48 <=? n)%nat && (n <=? 57)%nat.

(** Not one of the white bytes of ASCII. *)
Definition nonWhite (c : ascii) : bool := negb (Str.isWhite c).

(** What [[^\s]+] takes at the start of [l]: the bytes up to the first
    white-space character. *)
Fixpoint ink (l : list ascii) : list ascii :=
  match l with
  | [] => []
  | c :: l' => if (Str.whiteAt l =? 0)%nat then c :: ink l' else []
  end.

(** No white-space character stands in [l]. *)
Fixpoint whiteFree (l : list ascii) : bool :=
  match l with
  | [] => true
  | _ :: l' => (Str.whiteAt l =? 0)%nat && whiteFree l'
  end.

Definition isNot (x : ascii) (c : ascii) : bool := negb (Ascii.eqb c x).

(** [A-Za-z0-9_]: the characters that stand for themselves in a pattern. *)
Definition isWord (c : ascii) : bool :=
  let n := nat_of_ascii c in
  ((48 <=? n)%nat && (n <=? 57)%nat)
  || ((65 <=? n)%nat && (n <=? 90)%nat)
  || ((97 <=? n)%nat && (n <=? 122)%nat)
  || (n =? 95)%nat.

Definition plain (name : string) : bool := forallb isWord (Str.chars name).

(** What [class+] takes at the start of [l]: the longest prefix in
    [class]. *)
Fixpoint run (class : ascii -> bool) (l : list ascii) : list ascii :=
  match l with
  | c :: l' => if class c then c :: run class l' else []
  | [] => []
  end.

(** The capture of [/pat(class+)/] matched at the start of [l]. *)
Definition captureHere (pat : list ascii) (class : ascii -> bool) (l : list ascii)
  : option (list ascii) :=
  if Str.prefixChars pat l then
    match run class (drop (length pat) l) with
    | [] => None
    | m => Some m
    end
  else None.

(** [s.match(/pat(class+)/)?.[1]]: the capture of the leftmost match. *)
Fixpoint capture (pat : list ascii) (class : ascii -> bool) (l : list ascii)
  : option (list ascii) :=
  match captureHere pat class l with
  | Some m => Some m
  | None =>
      match l with
      | [] => None
      | _ :: l' => capture pat class l'
      end
  end.

(** [s.includes(p)]. *)
Fixpoint contains (p l : list ascii) : bool :=
  Str.prefixChars p l
  || match l with
     | [] => false
     | _ :: l' => contains p l'
     end.

(** [s.match(/.../g)] for a pattern that matches no empty string:
    [here start l] is the length of the match at the start of [l], [start]
    saying whether [l] is the whole string. The matches are taken from
    left to right, each search going on where the last match ended. *)
Fixpoint scan (here : bool -> list ascii -> option nat) (start : bool) (skip : nat)
    (l : list ascii) : list (list ascii) :=
  match l with
  | [] => []
  | _ :: l' =>
      match skip with
      | S skip' => scan here false skip' l'
      | O =>
          match here start l with
          | Some (S n) => take (S n) l :: scan here false n l'
          | _ => scan here false O l'
          end
      end
  end.

End Re.

(** ** The cookies of the handshake *)

Module Cookies.

(** [pickCookieValue]. The name goes into [new RegExp(`${name}=([^;]+)`)];
    a name of letters, digits and underscores, as the one name the plugin
    asks for, stands for itself there. *)
Fixpoint pickCookieValue (setCookies : list string) (name : string) : option string :=
  match setCookies with
  | [] => None
  | sc :: rest =>
      match Re.capture (Str.chars (name +:+ "=")) (Re.isNot ";") (Str.chars sc) with
      | Some m => Some (Str.ofChars m)
      | None => pickCookieValue rest name
      end
  end.

(** [kv.indexOf('=')]. *)
Fixpoint indexOf (x : ascii) (l : list ascii) : option nat :=
  match l with
  | [] => None
  | c :: l' => if Ascii.eqb c x then Some O else S <$> indexOf x l'
  end.

(** The name and the value of one [Set-Cookie] header, where
    [parseSetCookiePairs] finds them. *)
Definition pairOf (sc : string) : option (string * string) :=
  let kv := Re.run (Re.isNot ";") (Str.chars sc) in   (* sc.split(';')[0] *)
  match indexOf "=" kv with
  | Some (S eq) =>
      Some (Str.trim (Str.ofChars (take (S eq) kv)),
            Str.trim (Str.ofChars (drop (S (S eq)) kv)))
  | _ => None
  end.

(** [jar.set(k, v)] on the entries of a [Map], which keeps the order in
    which the keys first came. *)
Fixpoint jarSet (k v : string) (jar : list (string * string)) : list (string * string) :=
  match jar with
  | [] => [(k, v)]
  | (k', v') :: rest =>
      if String.eqb k' k then (k', v) :: rest else (k', v') :: jarSet k v rest
  end.

(** [jar.get(k)]. *)
Fixpoint jarGet (k : string) (jar : list (string * string)) : option string :=
  match jar with
  | [] => None
  | (k', v) :: rest => if String.eqb k' k then Some v else jarGet k rest
  end.

(** One round of the loop of [parseSetCookiePairs]. *)
Definition putCookie (jar : list (string * string)) (sc : string) : list (string * string) :=
  match pairOf sc with
  | Some (k, v) => jarSet k v jar
  | None => jar
  end.

(** [parseSetCookiePairs], as the entries of the map it returns. *)
Definition parseSetCookiePairs (setCookies : list string) : list (string * string) :=
  fold_left putCookie setCookies [].

End Cookies.

(** ** Links in what the user pasted *)

Module Links.

(** The characters [normalizeUrl] strips from the end of a link: the
    ASCII ones, and the wide ones in their UTF-8 bytes. *)
Definition closers : list ascii :=
  (Str.chars ")]}'" ++ [ascii_of_nat 34] ++ Str.chars ",!.?;:")%list.

Definition wideClosers : list (list ascii) :=
  map Str.chars ["’"; "”"; "、"; "。"; "，"; "！"; "？"; "；"; "："].

Definition isCloser (c : ascii) : bool := existsb (Ascii.eqb c) closers.

Definition isWideCloser (c1 c2 c3 : ascii) : bool :=
  existsb
    (fun w =>
       match w with
       | [a; b; c] => Ascii.eqb a c1 && Ascii.eqb b c2 && Ascii.eqb c c3
       | _ => false
       end)
    wideClosers.

(** [url.replace(/[...]+$/g, '')] on the reversed string. *)
Fixpoint dropClosers (reversed : list ascii) : list ascii :=
  match reversed with
  | [] => []
  | c :: rest =>
      if isCloser c then dropClosers rest
      else
        match rest with
        | c2 :: c1 :: rest' =>
            if isWideCloser c1 c2 c then dropClosers rest' else reversed
        | _ => reversed
        end
  end.

(** [/^https?:\/\//i.test(url)]. *)
Definition hasScheme (url : string) : bool :=
  Str.startsWith (Str.toLowerCase url) "http://"
  || Str.startsWith (Str.toLowerCase url) "https://".

Definition normalizeUrl (value : string) : string :=
  let url := Str.trim value in
  let url := Str.ofChars (rev (dropClosers (rev (Str.chars url)))) in
  if hasScheme url then url else "https://" +:+ url.

(** [/https?:\/\/[^\s]+/i] at the start of [l]: the length of the match. *)
Definition httpHere (l : list ascii) : option nat :=
  let lower := map Str.lowerChar l in
  let rest (n : nat) :=
    match Re.ink (drop n l) with
    | [] => None
    | m => Some (n + length m)%nat
    end in
  if Str.prefixChars (Str.chars "https://") lower then rest 8%nat
  else if Str.prefixChars (Str.chars "http://") lower then rest 7%nat
  else None.

(** [/v\.douyin\.com\/[^\s]+/i] at the start of [l]. *)
Definition shortLinkHere (l : list ascii) : option nat :=
  if Str.prefixChars (Str.chars "v.douyin.com/") (map Str.lowerChar l) then
    match Re.ink (drop 13 l) with
    | [] => None
    | m => Some (13 + length m)%nat
    end
  else None.

(** [/(?:^|\s)(v\.douyin\.com\/[^\s]+)/i] at the start of [l]: the match
    begins where the string begins, or with one white-space character. *)
Definition looseHere (start : bool) (l : list ascii) : option nat :=
  match (if start then shortLinkHere l else None) with
  | Some n => Some n
  | None =>
      match Str.whiteAt l with
      | O => None
      | S w => (fun n => (S w + n)%nat) <$> shortLinkHere (drop (S w) l)
      end
  end.

(** [/douyin\.com/i.test(u)]. *)
Definition mentionsDouyin (u : list ascii) : bool :=
  Re.contains (Str.chars "douyin.com") (map Str.lowerChar u).

Definition extractUrlFromText (input : string) : option string :=
  let text := Str.trim input in
  if Str.isEmpty text then None
  else
    let matches := Re.scan (fun _ => httpHere) true 0 (Str.chars text) in
    let looseDouyin := Re.scan looseHere true 0 (Str.chars text) in
    let matches :=
      (matches ++ map (fun m => Str.chars (Str.trim (Str.ofChars m))) looseDouyin)%list in
    match matches with
    | [] => None
    | first :: _ =>
        let preferred := default first (List.find mentionsDouyin matches) in
        Some (normalizeUrl (Str.ofChars preferred))
    end.

(** *** What a link points to *)

(** The two parts of [new URL(url)] that the classification reads. The
    parser is the platform's: a parsed URL enters as a value, [None]
    where [new URL] throws. *)
Record Location : Type := mkLocation {
  pathname : string;
  searchParams : list (string * string)
}.

(** [u.searchParams.get(name)]. *)
Fixpoint searchGet (params : list (string * string)) (name : string) : option string :=
  match params with
  | [] => None
  | (k, v) :: rest => if String.eqb k name then Some v else searchGet rest name
  end.

Inductive ResolveType : Type := video | account | unknown.

Definition includes (s p : string) : bool := Re.contains (Str.chars p) (Str.chars s).

Definition guessType (u : option Location) : ResolveType :=
  match u with
  | None => unknown
  | Some u =>
      let p := pathname u in
      if includes p "/share/video/" || includes p "/video/" then video
      else if includes p "/share/user/" || includes p "/user/" then account
      else unknown
  end.

Definition parseVideoId (u : option Location) : option string :=
  match u with
  | None => None
  | Some u =>
      let p := Str.chars (pathname u) in
      match Re.capture (Str.chars "/share/video/") Re.isDigit p with
      | Some m1 => Some (Str.ofChars m1)
      | None =>
          match Re.capture (Str.chars "/video/") Re.isDigit p with
          | Some m2 => Some (Str.ofChars m2)
          | None =>
              let item :=
                Str.orElse (default "" (searchGet (searchParams u) "aweme_id"))
                  (default "" (searchGet (searchParams u) "item_id")) in
              if Str.isEmpty item then None else Some item
          end
      end
  end.

Section WithDecoder.

(** [decodeURIComponent], [None] where it throws. *)
Variable decodeURIComponent : string -> option string.

Definition parseSecUid (u : option Location) : option string :=
  match u with
  | None => None
  | Some u =>
      let p := Str.chars (pathname u) in
      match Re.capture (Str.chars "/share/user/") (Re.isNot "/") p with
      | Some m1 => decodeURIComponent (Str.ofChars m1)
      | None =>
          match Re.capture (Str.chars "/user/") (Re.isNot "/") p with
          | Some m2 => decodeURIComponent (Str.ofChars m2)
          | None =>
              let uid := default "" (searchGet (searchParams u) "sec_uid") in
              if Str.isEmpty uid then None else Some uid
          end
      end
  end.

End WithDecoder.

End Links.

(** ** Following redirects, and the handlers that resolve a link *)

Module Resolve.
Import Links.

(** What [handleVideo] and [handleUser] answer: an error, or the page
    found, with the URL it was found under. *)
Inductive PageReply (M : Type) : Type :=
| PageError (status : Z) (error : string)
| PageFound (resolvedUrl : string) (meta : M).

Arguments PageError {M} status error.
Arguments PageFound {M} resolvedUrl meta.

(** The reply, the requests made to resolve the link, and the id that the
    page was asked for, if one was. *)
Record PageRun (M : Type) : Type := mkPageRun {
  page_reply : PageReply M;
  page_requests : list Url.URL;
  page_asked : option string
}.

Arguments mkPageRun {M} page_reply page_requests page_asked.
Arguments page_reply {M} p.
Arguments page_requests {M} p.
Arguments page_asked {M} p.

Section WithNetwork.

(** [new URL(location, base).toString()], [None] where it throws. *)
Variable resolveUrl : string -> Url.URL -> option string.

(** The answer to the request of hop [i]; [redirect: 'manual'] hands a
    3xx answer over as it is. *)
Variable net : nat -> Url.URL -> Exc Http.Response.

(** The parser behind [guessType], [parseVideoId] and [parseSecUid]. *)
Variable locate : string -> option Location.

Variable decodeURIComponent : string -> option string.

(** The loop of [resolveRedirects], [maxHops] rounds of it still to go;
    [requests] are the URLs fetched so far. *)
Fixpoint hops (maxHops i : nat) (current : string) (requests : list Url.URL)
  : Exc string * list Url.URL :=
  match maxHops with
  | O => (Return current, requests)
  | S maxHops' =>
      match Url.assertSafeDouyinUrl current with
      | Throw msg => (Throw msg, requests)
      | Return currentUrl =>
          let requests := (requests ++ [currentUrl])%list in
          match net i currentUrl with
          | Throw msg => (Throw msg, requests)
          | Return res =>
              if (300 <=? Http.status res) && (Http.status res <? 400) then
                match Http.get (Http.headers res) "location" with
                | None | Some "" => (Return current, requests)
                | Some location =>
                    match resolveUrl location currentUrl with
                    | None => (Throw "Invalid URL", requests)
                    | Some next => hops maxHops' (S i) next requests
                    end
                end
              else (Return (Url.href currentUrl), requests)
          end
      end
  end.

Definition resolveRedirects (startUrl : string) : Exc string * list Url.URL :=
  hops 6 0 startUrl [].

(** [let resolved = link; try { resolved = await resolveRedirects(link) }
    catch {}]. *)
Definition follow (link : string) : string * list Url.URL :=
  match resolveRedirects link with
  | (Return resolved, requests) => (resolved, requests)
  | (Throw _, requests) => (link, requests)
  end.

(** [get('input') || get('text') || get('url') || '']. *)
Definition inputOf (params : list (string * string)) : string :=
  Str.orElse (default "" (searchGet params "input"))
    (Str.orElse (default "" (searchGet params "text"))
       (Str.orElse (default "" (searchGet params "url")) "")).

Record Resolution : Type := mkResolution {
  extractedUrl : string;
  resolvedUrl : string;
  type : ResolveType;
  videoId : option string;
  secUid : option string
}.

Inductive ResolveReply : Type :=
| Refused (status : Z) (error : string)
| Resolved (r : Resolution).

(** [handleResolve]: the reply and the requests made on the way. *)
Definition handleResolve (params : list (string * string)) : ResolveReply * list Url.URL :=
  match extractUrlFromText (inputOf params) with
  | None => (Refused 400 "未找到有效链接", [])
  | Some extracted =>
      match Url.assertSafeDouyinUrl extracted with
      | Throw msg => (Refused 400 msg, [])
      | Return _ =>
          let '(resolved, requests) := follow extracted in
          let type := guessType (locate resolved) in
          (Resolved
             {| extractedUrl := extracted;
                resolvedUrl := resolved;
                type := type;
                videoId := if type is video then parseVideoId (locate resolved) else None;
                secUid :=
                  if type is account then parseSecUid decodeURIComponent (locate resolved)
                  else None |},
           requests)
      end
  end.

(** The lines of [handleCaptionCreate] between the check of the
    credentials and [fetchVideoMeta]: what they make of [workUrlRaw], and
    the requests made on the way. *)
Definition videoIdOf (workUrlRaw : string) : Exc (option string) * list Url.URL :=
  let extracted := default workUrlRaw (extractUrlFromText workUrlRaw) in
  let normalized := normalizeUrl extracted in
  match Url.assertSafeDouyinUrl normalized with
  | Throw msg => (Throw msg, [])
  | Return _ =>
      let '(resolved, requests) := follow normalized in
      (Return (parseVideoId (locate resolved)), requests)
  end.

Record UserVideosReply : Type := mkUserVideosReply {
  uv_status : Z;
  uv_videos : list Listing.Video;
  uv_secUid : option string
}.

(** What [handleUserVideos] did: its reply, the requests made to resolve
    the link, and the call of [fetchUserVideos] if there was one. *)
Record UserVideos : Type := mkUserVideos {
  uv_reply : UserVideosReply;
  uv_requests : list Url.URL;
  uv_listing : option Listing.Result
}.

Definition noVideos (requests : list Url.URL) : UserVideos :=
  mkUserVideos (mkUserVideosReply 200 [] None) requests None.

(** [handleUserVideos]; [parsedCount] is [parseInt(countStr, 10)], [None]
    for NaN, and the last four arguments are what [fetchUserVideos] meets.
    An error thrown past the handler would be answered with 500 by the
    middleware. *)
Definition handleUserVideos `{Platform} (params : list (string * string))
    (parsedCount : option Z) (abogus : Exc string) (env : nat -> Listing.Attempt)
    (c : Session.Cache) : UserVideos :=
  let inputUrl := default "" (searchGet params "url") in
  let count := Listing.clampCount parsedCount in
  let extracted := default inputUrl (extractUrlFromText inputUrl) in
  if Str.isEmpty extracted then noVideos []
  else
    let normalized := normalizeUrl extracted in
    match Url.assertSafeDouyinUrl normalized with
    | Throw _ => noVideos []
    | Return _ =>
        let '(resolved, requests) := follow normalized in
        match parseSecUid decodeURIComponent (locate resolved) with
        | None | Some "" => noVideos requests
        | Some secUid =>
            let r := Listing.fetchUserVideos abogus env count c in
            match Listing.outcome r with
            | Return videos =>
                mkUserVideos (mkUserVideosReply 200 videos (Some secUid)) requests (Some r)
            | Throw _ => mkUserVideos (mkUserVideosReply 500 [] None) requests (Some r)
            end
        end
    end.

(** [handleVideo]. An error that [fetchVideoMeta] throws goes past the
    handler to the middleware, which answers 500 with its message. *)
Definition handleVideo {M : Type} (fetchVideoMeta : string -> Exc M)
    (params : list (string * string)) : PageRun M :=
  let inputUrl := default "" (searchGet params "url") in
  let extracted := default inputUrl (extractUrlFromText inputUrl) in
  if Str.isEmpty extracted then mkPageRun (PageError 400 "缺少 url 参数") [] None
  else
    let normalized := normalizeUrl extracted in
    match Url.assertSafeDouyinUrl normalized with
    | Throw msg => mkPageRun (PageError 400 msg) [] None
    | Return _ =>
        let '(resolved, requests) := follow normalized in
        match parseVideoId (locate resolved) with
        | None | Some "" => mkPageRun (PageError 400 "无法识别视频 ID") requests None
        | Some id =>
            match fetchVideoMeta id with
            | Return meta => mkPageRun (PageFound resolved meta) requests (Some id)
            | Throw msg => mkPageRun (PageError 500 msg) requests (Some id)
            end
        end
    end.

(** [handleUser]. *)
Definition handleUser {M : Type} (fetchUserMeta : string -> Exc M)
    (params : list (string * string)) : PageRun M :=
  let inputUrl := default "" (searchGet params "url") in
  let extracted := default inputUrl (extractUrlFromText inputUrl) in
  if Str.isEmpty extracted then mkPageRun (PageError 400 "缺少 url 参数") [] None
  else
    let normalized := normalizeUrl extracted in
    match Url.assertSafeDouyinUrl normalized with
    | Throw msg => mkPageRun (PageError 400 msg) [] None
    | Return _ =>
        let '(resolved, requests) := follow normalized in
        match parseSecUid decodeURIComponent (locate resolved) with
        | None | Some "" => mkPageRun (PageError 400 "无法识别 sec_uid") requests None
        | Some secUid =>
            match fetchUserMeta secUid with
            | Return meta => mkPageRun (PageFound resolved meta) requests (Some secUid)
            | Throw msg => mkPageRun (PageError 500 msg) requests (Some secUid)
            end
        end
    end.

End WithNetwork.

End Resolve.

(** ** Request bodies *)

(** [readJsonBody]; [raw] is the text of the body. *)
Definition readJsonBody `{Platform} (raw : string) : Exc JsValue :=
  let raw := Str.trim raw in
  if Str.isEmpty raw then Return JNull
  else
    match JSON_parse raw with
    | Some v => Return v
    | None => Throw "请求体不是有效的 JSON"
    end.

(** ** The transcoder's path *)

Module Ffmpeg.

(** [cachedFfmpegPath]: [None] is [undefined], [Some None] is [null]. *)
Definition Cache : Type := option (option string).

Definition unavailable : string := "ffmpeg 不可用：请先安装依赖 ffmpeg-static".

(** [mod?.default ?? mod] of the loaded module, where it is a string with
    something in it. *)
Definition pathOf (imported : Exc JsValue) : option string :=
  match imported with
  | Throw _ => None
  | Return loaded =>
      match Js.coalesce (Js.optProp loaded "default") loaded with
      | JString value =>
          if Str.isEmpty (Str.trim value) then None else Some (Str.trim value)
      | _ => None
      end
  end.

(** [getFfmpegPath]; [imported] is how [import('ffmpeg-static')] ends,
    should the call come to it. *)
Definition getFfmpegPath (cachedFfmpegPath : Cache) (imported : Exc JsValue)
  : Exc string * Cache :=
  match cachedFfmpegPath with
  | Some cached =>
      match cached with
      | None | Some "" => (Throw unavailable, cachedFfmpegPath)
      | Some path => (Return path, cachedFfmpegPath)
      end
  | None =>
      let found := pathOf imported in
      (match found with
       | None | Some "" => Throw unavailable
       | Some path => Return path
       end,
       Some found)
  end.

End Ffmpeg.

(** ** Whole runs of an adapter *)

Module Runs.
Import Tasks.

(** What an adapter does that can be seen from outside: the stages it
    reports and the operations it awaits, each with its answer. *)
Inductive Event : Type :=
| Staged (stage : CaptionTaskStage) (message : string)
| Asked (op : Op) (answer : Outcome).

Inductive Ending : Type :=
| Resolved (transcript : string) (publicUrl : option string)
| Rejected (err : JsError)
| Pending.                         (* still waiting when the answers end *)

(** The surroundings of a run: what [signal.aborted] and [Date.now()]
    read at each step, and the answers to the operations, in order. *)
Record Setting : Type := mkSetting {
  aborted : nat -> bool;
  clock : nat -> Z;
  answers : list Outcome
}.

(** The adapter [a] run from its step [n] on. *)
Fixpoint play (a : Adapter) (aborted : nat -> bool) (clock : nat -> Z) (n : nat)
    (answers : list Outcome) : list Event * Ending :=
  match a with
  | Resolve transcript publicUrl => ([], Resolved transcript publicUrl)
  | Reject err => ([], Rejected err)
  | OnStage stage message k =>
      let '(events, ending) := play k aborted clock (S n) answers in
      (Staged stage message :: events, ending)
  | Aborted k => play (k (aborted n)) aborted clock (S n) answers
  | Clock k => play (k (clock n)) aborted clock (S n) answers
  | Await op k =>
      match answers with
      | [] => ([], Pending)
      | answer :: rest =>
          let '(events, ending) := play (k answer) aborted clock (S n) rest in
          (Asked op answer :: events, ending)
      end
  end.

Definition run (a : Adapter) (s : Setting) : list Event * Ending :=
  play a (aborted s) (clock s) 0 (answers s).

(** The temporary directories a run made, and the removals it asked for. *)
Definition made (events : list Event) : nat :=
  length (List.filter (fun e => match e with Asked Mkdtemp (Gives _) => true | _ => false end)
            events).

Definition removed (events : list Event) : nat :=
  length (List.filter (fun e => match e with Asked RemoveDir _ => true | _ => false end)
            events).

(** The URLs a run requested, and the stages it reported. *)
Definition requested (events : list Event) : list string :=
  omap (fun e => match e with Asked (Fetch url) _ => Some url | _ => None end) events.

Definition stages (events : list Event) : list CaptionTaskStage :=
  omap (fun e => match e with Staged stage _ => Some stage | _ => None end) events.

(** The stages in the order in which a job goes through them. *)
Definition stageRank (stage : CaptionTaskStage) : nat :=
  match stage with
  | queued => 0
  | downloading => 1
  | uploading => 2
  | submitting => 3
  | polling => 4
  | fetching_result => 5
  | done | failed | cancelled => 6
  end.

End Runs.

(** ** Monitors of a run *)

Module Monitors.
Import Tasks Runs.

(** A monitor keeps a state through the events of a run and judges the
    ending, [Pending] included, from the state it has then. *)
Record Monitor : Type := mkMonitor {
  mstate : Type;
  observe : mstate -> Event -> mstate;
  accepts : mstate -> Ending -> Prop
}.

(** [Kept m s a]: the monitor, in the state [s], accepts wherever a run
    of [a] may end. *)
Inductive Kept (m : Monitor) : mstate m -> Adapter -> Prop :=
| Kept_resolve s transcript publicUrl :
    accepts m s (Resolved transcript publicUrl) -> Kept m s (Resolve transcript publicUrl)
| Kept_reject s err : accepts m s (Rejected err) -> Kept m s (Reject err)
| Kept_stage s stage message k :
    Kept m (observe m s (Staged stage message)) k -> Kept m s (OnStage stage message k)
| Kept_aborted s k : (forall aborted, Kept m s (k aborted)) -> Kept m s (Aborted k)
| Kept_clock s k : (forall now, Kept m s (k now)) -> Kept m s (Clock k)
| Kept_await s op k :
    accepts m s Pending ->
    (forall answer, Kept m (observe m s (Asked op answer)) (k answer)) ->
    Kept m s (Await op k).

Definition isPending (ending : Ending) : bool :=
  match ending with
  | Pending => true
  | _ => false
  end.

(** The directories made and the removals asked for, counted: at most
    one directory, no removal before it, and its removal asked for when
    the run ends. *)
Definition dirs : Monitor :=
  {| mstate := nat * nat;
     observe s e :=
       match e with
       | Asked Mkdtemp (Gives _) => (S s.1, s.2)
       | Asked RemoveDir _ => (s.1, S s.2)
       | _ => s
       end;
     accepts s ending :=
       (s.2 <= s.1 <= 1)%nat /\ (isPending ending = false -> s.1 = s.2) |}.

(** The URLs requested, in order: they are the first of [urls], and all
    of [urls] when the run resolves, which it does with a transcript that
    is trimmed and not empty and with no public URL. *)
Definition requestsTo (urls : list string) : Monitor :=
  {| mstate := list string;
     observe s e :=
       match e with
       | Asked (Fetch url) _ => (s ++ [url])%list
       | _ => s
       end;
     accepts s ending :=
       s `prefix_of` urls
       /\ match ending with
          | Resolved transcript publicUrl =>
              s = urls /\ transcript <> "" /\ Str.trim transcript = transcript
              /\ publicUrl = None
          | _ => True
          end |}.

(** The stages reported, in order: stages of work, each at least as far
    on as the one before. *)
Definition rising : Monitor :=
  {| mstate := list CaptionTaskStage;
     observe s e :=
       match e with
       | Staged stage _ => (s ++ [stage])%list
       | _ => s
       end;
     accepts s _ :=
       StronglySorted (fun a b => (stageRank a <= stageRank b)%nat) s
       /\ Forall (fun stage => (1 <= stageRank stage <= 5)%nat) s |}.

(** The endpoints of DashScope that [transcribeWithParaformer] and
    [getDashscopeUploadPolicy] ask. *)
Definition policyEndpoint : string :=
  "https://dashscope.aliyuncs.com/api/v1/uploads?action=getPolicy&model=paraformer-v2".

Definition submitEndpoint : string :=
  "https://dashscope.aliyuncs.com/api/v1/services/audio/asr/transcription".

Definition taskEndpoint (taskId : string) : string :=
  "https://dashscope.aliyuncs.com/api/v1/tasks/" +:+ taskId.

(** Queries for the state of the task [taskId], and nothing else. *)
Definition queries (taskId : string) (urls : list string) : Prop :=
  exists polls, urls = replicate polls (taskEndpoint taskId).

(** The course of a run of [transcribeWithParaformer] that resolved: all
    five stages, once each and in order; the video, the upload policy, the
    upload to the host that the policy named, the submission, one or more
    queries for the state of the task, and the result; and the [oss://]
    address of the upload as the public URL. *)
Definition resolvedCourse (videoHref : string) (s : list CaptionTaskStage * list string)
    (publicUrl : option string) : Prop :=
  s.1 = [downloading; uploading; submitting; polling; fetching_result]
  /\ exists host dir taskId earlier resultUrl,
       s.2 = ([videoHref; policyEndpoint; host; submitEndpoint]
              ++ (earlier ++ [taskEndpoint taskId]) ++ [resultUrl])%list
       /\ queries taskId earlier
       /\ publicUrl = Some ("oss://" +:+ dir +:+ "/video.mp4").

(** The stages and the requests of a run of [transcribeWithParaformer]:
    the first request is for the video, and a run that resolves has taken
    the whole course. *)
Definition course (videoHref : string) : Monitor :=
  {| mstate := list CaptionTaskStage * list string;
     observe s e :=
       match e with
       | Staged stage _ => ((s.1 ++ [stage])%list, s.2)
       | Asked (Fetch url) _ => (s.1, (s.2 ++ [url])%list)
       | _ => s
       end;
     accepts s ending :=
       (head s.2 = None \/ head s.2 = Some videoHref)
       /\ match ending with
          | Resolved _ publicUrl => resolvedCourse videoHref s publicUrl
          | _ => True
          end |}.

End Monitors.

(** ** The captions of a subtitle file *)

(** What [fetchVideoMeta] makes of the text behind [srt_lyric.url]. *)
Module Srt.

Definition newline : ascii := ascii_of_nat 10.

(** [s.split('\n')], on the characters. *)
Fixpoint split (l : list ascii) : list (list ascii) :=
  match l with
  | [] => [[]]
  | c :: l' =>
      if Ascii.eqb c newline then [] :: split l'
      else
        match split l' with
        | line :: lines => (c :: line) :: lines
        | [] => [[c]]
        end
  end.

(** [/^\d+$/.test(s)]. *)
Definition isNumber (s : string) : bool :=
  negb (Str.isEmpty s) && forallb Re.isDigit (Str.chars s).

(** The filter: a line is kept unless it is blank, is the number of a
    cue, or has the arrow of a time range. *)
Definition keeps (line : string) : bool :=
  negb (Str.isEmpty (Str.trim line))
  && negb (isNumber (Str.trim line))
  && negb (Links.includes line "-->").

(** [srtText.split('\n').filter(...).join(' ').trim()]. *)
Definition caption (srtText : string) : string :=
  Str.trim
    (Str.join " " (List.filter keeps (map Str.ofChars (split (Str.chars srtText))))).

End Srt.

(** ** Testing a link *)

Module LinkTest.
Import Links Resolve.

(** The two requests of a probe: [HEAD], and [GET] with a [Range] of two
    bytes, which the result calls RANGE. *)
Inductive Method : Type := HEAD | RANGE.

(** What [probeRemoteMediaUrl] returns. *)
Record Probe : Type := mkProbe {
  probe_ok : bool;
  probe_status : option Z;
  probe_method : option Method;
  probe_error : option string
}.

(** [probeRemoteMediaUrl], with the requests it made; [head] and [range]
    are how the two requests end, should it come to them. *)
Definition probeRemoteMediaUrl (url : string) (head range : Exc Http.Response)
  : Exc Probe * list (Method * string) :=
  match Url.assertSafeExternalHttpUrl url with
  | Throw msg => (Throw msg, [])
  | Return safeUrl =>
      let safe := Url.href safeUrl in
      match head with
      | Return headRes =>
          (Return (mkProbe (Http.ok headRes) (Some (Http.status headRes)) (Some HEAD) None),
           [(HEAD, safe)])
      | Throw _ =>
          match range with
          | Return rangeRes =>
              (Return
                 (mkProbe (Http.ok rangeRes) (Some (Http.status rangeRes)) (Some RANGE) None),
               [(HEAD, safe); (RANGE, safe)])
          | Throw msg =>
              (Return (mkProbe false None None (Some msg)), [(HEAD, safe); (RANGE, safe)])
          end
      end
  end.

(** [LinkTestResult]; [lt_probe] stands for [playUrlOk], [playUrlStatus]
    and [playUrlMethod], which are set together from a probe. *)
Record LinkTestResult : Type := mkLinkTestResult {
  lt_extractedUrl : string;
  lt_resolvedUrl : string;
  lt_type : ResolveType;
  lt_ok : bool;
  lt_message : string;
  lt_videoId : option string;
  lt_secUid : option string;
  lt_hasCaption : option bool;
  lt_probe : option Probe
}.

Inductive LinkTestReply : Type :=
| Untested (status : Z) (error : string)
| Tested (result : LinkTestResult).       (* answered with 200 *)

(** The reply, the requests made to resolve the link, and the requests
    of the probe. *)
Record LinkTestRun : Type := mkLinkTestRun {
  run_reply : LinkTestReply;
  run_requests : list Url.URL;
  run_probes : list (Method * string)
}.

(** The message for a probe that was not ok. *)
Definition probeFailure (probe : Probe) : string :=
  let failed :=
    match probe_error probe with
    | None | Some "" => "视频播放地址探测失败"
    | Some error => "视频播放地址探测失败：" +:+ error
    end in
  match probe_status probe with
  | Some status =>
      if status =? 0 then failed else "视频播放地址可能受限 (HTTP " +:+ pretty status +:+ ")"
  | None => failed
  end.

Section WithNetwork.
Context `{Platform}.

Variable resolveUrl : string -> Url.URL -> option string.
Variable net : nat -> Url.URL -> Exc Http.Response.
Variable locate : string -> option Location.
Variable decodeURIComponent : string -> option string.

(** The page of an account, of which only the arrival is looked at. *)
Variable UserMeta : Type.
Variable fetchUserMeta : string -> Exc UserMeta.
Variable fetchVideoMeta : string -> Exc Tasks.VideoMeta.

(** How the two requests of the probe end. *)
Variable head range : Exc Http.Response.

(** [handleLinkTest]. *)
Definition handleLinkTest (params : list (string * string)) : LinkTestRun :=
  let input := inputOf params in
  let extracted := default (Str.trim input) (extractUrlFromText input) in
  if Str.isEmpty extracted then mkLinkTestRun (Untested 400 "未找到有效链接") [] []
  else
    match Url.assertSafeDouyinUrl extracted with
    | Throw msg => mkLinkTestRun (Untested 400 msg) [] []
    | Return _ =>
        let '(resolved, requests) := follow resolveUrl net extracted in
        let type := guessType (locate resolved) in
        let videoId := if type is video then parseVideoId (locate resolved) else None in
        let secUid :=
          if type is account then parseSecUid decodeURIComponent (locate resolved)
          else None in
        let base ok message hasCaption probe :=
          mkLinkTestResult extracted resolved type ok message videoId secUid hasCaption
            probe in
        let answer result probes := mkLinkTestRun (Tested result) requests probes in
        match type with
        | unknown =>
            answer (base false "可解析到抖音域名，但无法判断是账号还是视频链接" None None) []
        | account =>
            match secUid with
            | None | Some "" =>
                answer (base false "链接看起来是账号链接，但无法识别 sec_uid" None None) []
            | Some secUid =>
                match fetchUserMeta secUid with
                | Return _ => answer (base true "账号链接可访问" None None) []
                | Throw msg => answer (base false msg None None) []
                end
            end
        | video =>
            match videoId with
            | None | Some "" =>
                answer (base false "链接看起来是视频链接，但无法识别视频 ID" None None) []
            | Some videoId =>
                match fetchVideoMeta videoId with
                | Throw msg => answer (base false msg None None) []
                | Return meta =>
                    match Tasks.ownCaption meta with
                    | Throw msg => answer (base false msg None None) []
                    | Return own =>
                        let hasCaption := if own is Some _ then true else false in
                        if negb (Js.truthy (Tasks.playUrl meta)) then
                          answer
                            (base false
                               "已解析到视频信息，但无法获取播放地址（可能权限受限或视频不可用）"
                               (Some hasCaption) None)
                            []
                        else
                          match probeRemoteMediaUrl (ToString (Tasks.playUrl meta)) head range with
                          | (Throw msg, probes) =>
                              answer (base false msg (Some hasCaption) None) probes
                          | (Return probe, probes) =>
                              if probe_ok probe then
                                answer
                                  (base true
                                     (if hasCaption then "链接可访问（该视频自带字幕）"
                                      else "链接可访问（可进行语音识别提取口播文案）")
                                     (Some hasCaption) (Some probe))
                                  probes
                              else
                                answer
                                  (base false (probeFailure probe) (Some hasCaption)
                                     (Some probe))
                                  probes
                          end
                    end
                end
            end
        end
    end.

End WithNetwork.

End LinkTest.

(** ** More words of the properties *)

(** A URL on a Douyin host, over http or https. *)
Definition onDouyin (u : Url.URL) : Prop :=
  Url.safeUrlHost u = true
  /\ (Str.toLowerCase (Url.protocol u) = "http:" \/ Str.toLowerCase (Url.protocol u) = "https:").

(** The closers of [normalizeUrl], as strings. *)
Definition closerStrings : list string :=
  (map (fun c => String c "") Links.closers ++ map Str.ofChars Links.wideClosers)%list.

(** The link ends with none of the closers. *)
Definition settled (url : string) : Prop :=
  Forall (fun w => Str.endsWith url w = false) closerStrings.

(** The pattern [/https?:\/\/[^\s]+/i] matches the whole of [link]. *)
Definition isHttpLink (link : list ascii) : Prop :=
  Links.httpHere link = Some (length link).

(** The white-space characters, each from its last byte to its first. *)
Definition revWhites : list (list ascii) := map (@rev ascii) Str.whites.

(** [l] is empty or ends with a white-space character; is empty or
    begins with one. *)
Definition whiteEnd (l : list ascii) : Prop :=
  match l with
  | [] => True
  | _ => (0 <? Str.seqAt revWhites (rev l))%nat = true
  end.

Definition whiteStart (l : list ascii) : Prop :=
  match l with
  | [] => True
  | _ => (0 <? Str.whiteAt l)%nat = true
  end.

(** [c] is the last byte of a white-space character. *)
Definition lastWhite (c : ascii) : bool :=
  existsb (fun w => match w with
                    | x :: _ => Ascii.eqb x c
                    | [] => false
                    end) revWhites.

(** No member of [pats] is empty or begins another. *)
Definition prefixFree (pats : list (list ascii)) : Prop :=
  Forall (fun w => w <> []) pats
  /\ forall w1 w2, In w1 pats -> In w2 pats -> Str.prefixChars w1 w2 = true -> w1 = w2.

(** The bytes that members of [pats] have after their first. *)
Definition tailBytes (pats : list (list ascii)) : list ascii := concat (map (drop 1) pats).

(** The header [sc] has no [name=] that a character other than [;]
    follows. *)
Definition lacksCookie (name sc : string) : Prop :=
  forall front c rest, sc = front +:+ name +:+ "=" +:+ String c rest -> c = ";"%char.

(** The header [sc] sets no cookie of the name [k]. *)
Definition setsNot (k sc : string) : Prop :=
  forall v, Cookies.pairOf sc <> Some (k, v).

(** ** More runs of the definitions *)

Module CreateRun.
Import Tasks.

#[local] Existing Instance Ref.platform.

(** A network in which every request is answered with 200, and a parser
    that finds the path of a video in every link. *)
Definition net (_ : nat) (_ : Url.URL) : Exc Http.Response :=
  Return (Http.mkResponse true 200 []).

Definition resolveUrl (_ : string) (_ : Url.URL) : option string := None.

Definition locate (_ : string) : option Links.Location :=
  Some (Links.mkLocation "/video/7123456" []).

Definition body : JsValue :=
  JObject [("workUrl", JString "https://v.douyin.com/iRNBho6u/");
           ("dashscopeApiKey", JString "sk-1")].

(** A create request for a video that brings its own caption. *)
Definition request : CreateRequest :=
  {| create_method := Some "POST";
     create_body := Return body;
     create_videoId :=
       (Resolve.videoIdOf resolveUrl net locate "https://v.douyin.com/iRNBho6u/").1;
     create_meta := Return (mkMeta (JString " hello ") JNull);
     create_taskId := "t2" |}.

Definition snapshot : Snapshot :=
  mkSnapshot "t2" SUCCESS done (Some "已获取抖音字幕") (Some "hello") None None 5000 5000.

End CreateRun.

(* ===================================================================== *)
(** * Part II. Properties *)
(* ===================================================================== *)

(** ** The SSRF guard *)





Example assertSafeExternalHttpUrl_loopback :
  Url.assertSafeExternalHttpUrl "http://127.0.0.1/x"
  = Throw "不安全的链接（可能为本机/内网地址）".
Proof. vm_compute. reflexivity. Qed.

Example assertSafeExternalHttpUrl_ftp :
  Url.assertSafeExternalHttpUrl "ftp://example.com/"
  = Throw "仅支持 http/https 链接".
Proof. vm_compute. reflexivity. Qed.

Example assertSafeExternalHttpUrl_ipv6_loopback :
  Url.assertSafeExternalHttpUrl "http://[::1]/x"
  = Return (Url.mkURL "http:" "[::1]" "http://[::1]/x").
Proof. vm_compute. reflexivity. Qed.

(** C1. The guard lets the link-local metadata address through:
    [assertSafeExternalHttpUrl("http://169.254.169.254/")] returns the
    parsed URL instead of raising. The host is none of the five names the
    guard compares with. *)
Theorem assertSafeExternalHttpUrl_link_local_passes :
  Url.assertSafeExternalHttpUrl "http://169.254.169.254/"
  = Return (Url.mkURL "http:" "169.254.169.254" "http://169.254.169.254/").
Proof. vm_compute. reflexivity. Qed.

(** ** The cached web session *)

Section SessionFacts.
Import Session.

Lemma refresh_expiry (h : Handshake) (s : DouyinWebSession) :
  refreshDouyinWebSession h = Return s -> expiresAt s = hs_now h + 29 * 60 * 1000.
Proof.
  unfold refreshDouyinWebSession. intros Hs.
  destruct (hs_nonce h) as [[nonce|]|]; cbn in Hs; try discriminate.
  destruct nonce; try discriminate.
  destruct (hs_signature h); cbn in Hs; try discriminate.
  destruct (hs_jar h); cbn in Hs; try discriminate.
  injection Hs as <-. reflexivity.
Qed.

Lemma getDouyinWebSession_usable (now : Z) (c : Cache) (s : DouyinWebSession) :
  douyinWebSession c = Some s -> usable now s = true ->
  getDouyinWebSession now c = (Cached s, c).
Proof. intros Hc Hu. unfold getDouyinWebSession. rewrite Hc, Hu. reflexivity. Qed.

Lemma getDouyinWebSession_cached_inv (now : Z) (c c' : Cache) (s : DouyinWebSession) :
  getDouyinWebSession now c = (Cached s, c') -> usable now s = true.
Proof.
  unfold getDouyinWebSession.
  destruct (douyinWebSession c) as [s0|]; [destruct (usable now s0) eqn:Hu|];
    destruct (douyinWebSessionLock c); intros [= <- <-] || intros [=]; assumption.
Qed.

Lemma getDouyinWebSession_cold_free (now : Z) (c : Cache) :
  cold now c = true -> douyinWebSessionLock c = None ->
  getDouyinWebSession now c
  = (Started (handshakes c),
     mkCache (douyinWebSession c) (Some (handshakes c)) (S (handshakes c))).
Proof.
  unfold cold, getDouyinWebSession. intros Hcold ->.
  destruct (douyinWebSession c) as [s|]; [|reflexivity].
  apply negb_true_iff in Hcold. rewrite Hcold. reflexivity.
Qed.

Lemma getDouyinWebSession_cold_locked (now : Z) (c : Cache) (p : nat) :
  cold now c = true -> douyinWebSessionLock c = Some p ->
  getDouyinWebSession now c = (Joined p, c).
Proof.
  unfold cold, getDouyinWebSession. intros Hcold ->.
  destruct (douyinWebSession c) as [s|]; [|reflexivity].
  apply negb_true_iff in Hcold. rewrite Hcold. reflexivity.
Qed.

Lemma calls_locked (nows : list Z) (c : Cache) (p : nat) :
  douyinWebSessionLock c = Some p ->
  Forall (fun now => cold now c = true) nows ->
  calls nows c = (map (fun _ => Joined p) nows, c).
Proof.
  intros Hlock. induction 1 as [|now rest Hcold _ IH]; [reflexivity|].
  cbn [calls]. rewrite (getDouyinWebSession_cold_locked _ _ _ Hcold Hlock), IH.
  reflexivity.
Qed.

(** C5. A call inside the validity window returns the cached session and
    leaves the cache, the handshake count included, as it was; a session a
    call delivers is inside its window at the clock reading that produced
    it (the call's for a cached one, the handshake's for a fresh one); and
    a fresh session expires 29 minutes after that reading. *)
Theorem getDouyinWebSession_window (c : Cache) (now : Z) :
  (forall s, douyinWebSession c = Some s -> now < expiresAt s - 60000 ->
             getDouyinWebSession now c = (Cached s, c))
  /\ (forall e c' h s,
        getDouyinWebSession now c = (e, c') -> delivered e h = Return s ->
        match e with
        | Cached _ => now < expiresAt s - 60000
        | Joined _ | Started _ => hs_now h < expiresAt s - 60000
        end)
  /\ (forall h s, refreshDouyinWebSession h = Return s ->
                  expiresAt s = hs_now h + 29 * 60 * 1000).
Proof.
  split; [|split].
  - intros s Hc Hnow. apply getDouyinWebSession_usable; [assumption|].
    unfold usable. apply Z.ltb_lt. assumption.
  - intros e c' h s Hcall Hdel. destruct e as [s0|p|p]; cbn in Hdel.
    + injection Hdel as ->. apply getDouyinWebSession_cached_inv in Hcall.
      unfold usable in Hcall. apply Z.ltb_lt in Hcall. assumption.
    + apply refresh_expiry in Hdel. lia.
    + apply refresh_expiry in Hdel. lia.
  - apply refresh_expiry.
Qed.

(** C6. Calls that all find the cache cold and arrive before anything
    settles: the first begins the one handshake and holds the lock, every
    later one is handed the promise in that lock; when the handshake
    settles each call gets its result and the lock is free again. *)
Theorem getDouyinWebSession_single_flight (c : Cache) (now : Z) (later : list Z) :
  douyinWebSessionLock c = None ->
  Forall (fun t => cold t c = true) (now :: later) ->
  calls (now :: later) c
  = (Started (handshakes c) :: map (fun _ => Joined (handshakes c)) later,
     mkCache (douyinWebSession c) (Some (handshakes c)) (S (handshakes c)))
  /\ (forall h,
        Forall (fun e => delivered e h = refreshDouyinWebSession h)
          (calls (now :: later) c).1
        /\ douyinWebSessionLock (settle (handshakes c) h (calls (now :: later) c).2) = None
        /\ handshakes (settle (handshakes c) h (calls (now :: later) c).2)
           = S (handshakes c)).
Proof.
  intros Hfree Hcold. apply Forall_cons in Hcold as [Hnow Hlater].
  assert (Hcalls : calls (now :: later) c
    = (Started (handshakes c) :: map (fun _ => Joined (handshakes c)) later,
       mkCache (douyinWebSession c) (Some (handshakes c)) (S (handshakes c)))).
  { cbn [calls]. rewrite (getDouyinWebSession_cold_free _ _ Hnow Hfree).
    rewrite (calls_locked later _ (handshakes c)); [reflexivity|reflexivity|].
    eapply Forall_impl; [exact Hlater|]. intros t Ht. exact Ht. }
  split; [exact Hcalls|].
  intros h. rewrite Hcalls. cbn [fst snd]. split; [|split].
  - constructor; [reflexivity|]. clear. induction later; constructor; auto.
  - unfold settle. cbn. rewrite bool_decide_eq_true_2 by reflexivity. reflexivity.
  - unfold settle. cbn. rewrite bool_decide_eq_true_2 by reflexivity. reflexivity.
Qed.

End SessionFacts.

Lemma getDouyinWebSession_window_witness :
  Session.getDouyinWebSession 1000 (Session.mkCache (Some (Session.mkSession "ttwid=1" 100000)) None 1)
  = (Session.Cached (Session.mkSession "ttwid=1" 100000),
     Session.mkCache (Some (Session.mkSession "ttwid=1" 100000)) None 1).
Proof.
  apply (getDouyinWebSession_window
           (Session.mkCache (Some (Session.mkSession "ttwid=1" 100000)) None 1) 1000).
  - reflexivity.
  - cbn. lia.
Defined.

Lemma getDouyinWebSession_single_flight_witness :
  Session.calls [1000; 1001; 1002] (Session.mkCache None None 0)
  = ([Session.Started 0%nat; Session.Joined 0%nat; Session.Joined 0%nat],
     Session.mkCache None (Some 0%nat) 1).
Proof.
  apply (getDouyinWebSession_single_flight (Session.mkCache None None 0) 1000 [1001; 1002]).
  - reflexivity.
  - repeat constructor.
Defined.

(** ** The sweep *)

Section SweepFacts.
Import Tasks.

Lemma finished_terminal (task : CaptionTask) :
  finished task = true <-> terminal (status task).
Proof.
  unfold finished, terminal. rewrite !orb_true_iff, !bool_decide_eq_true. tauto.
Qed.

Lemma sweepEntry_expired (now : Z) (task : CaptionTask) :
  tooOld now task && finished task = true <-> expired now task.
Proof.
  unfold expired, tooOld, CAPTION_TASK_TTL_MS.
  rewrite andb_true_iff, finished_terminal, Z.gtb_gt. change (60 * 60 * 1000) with 3600000.
  tauto.
Qed.

Lemma sweep_fold_lookup (now : Z) (entries : list (string * CaptionTask))
    (tasks : gmap string CaptionTask) (taskId : string) (task : CaptionTask) :
  foldr (sweepEntry now) tasks entries !! taskId = Some task
  <-> tasks !! taskId = Some task
      /\ forall task', (taskId, task') ∈ entries -> ~ expired now task'.
Proof.
  induction entries as [|[k t] entries IH]; cbn [foldr].
  - split; [intros Hl; split; [exact Hl|]|tauto].
    intros task' Hin. apply elem_of_nil in Hin. destruct Hin.
  - unfold sweepEntry at 1. cbn [fst snd].
    destruct (tooOld now t && finished t) eqn:Hexp.
    + apply sweepEntry_expired in Hexp. rewrite lookup_delete_Some, IH. split.
      * intros (Hne & Hl & Hrest). split; [exact Hl|]. intros task' Hin.
        apply elem_of_cons in Hin as [[= -> ->]|Hin]; [congruence|eauto].
      * intros (Hl & Hrest). split; [|split; [exact Hl|]].
        -- intros <-. apply (Hrest t); [left|exact Hexp].
        -- intros task' Hin. apply Hrest. right. exact Hin.
    + rewrite IH. split; intros (Hl & Hrest); (split; [exact Hl|]).
      * intros task' Hin. apply elem_of_cons in Hin as [[= -> ->]|Hin]; [|eauto].
        rewrite <- sweepEntry_expired, Hexp. discriminate.
      * intros task' Hin. apply Hrest. right. exact Hin.
Qed.

Lemma cleanupCaptionTasks_lookup (now : Z) (captionTasks : gmap string CaptionTask)
    (taskId : string) (task : CaptionTask) :
  cleanupCaptionTasks now captionTasks !! taskId = Some task
  <-> captionTasks !! taskId = Some task /\ ~ expired now task.
Proof.
  unfold cleanupCaptionTasks. rewrite sweep_fold_lookup. split.
  - intros (Hl & Hrest). split; [exact Hl|]. apply Hrest.
    apply elem_of_map_to_list. exact Hl.
  - intros (Hl & Hne). split; [exact Hl|]. intros task' Hin.
    apply elem_of_map_to_list in Hin. congruence.
Qed.

(** C8. After the sweep at [now] the registry holds under [taskId] what
    it held before, unless that task is terminal and was last written more
    than one hour before [now]: exactly those tasks are gone. A task that
    is WAITING or RUNNING stays, whatever its age. *)
Theorem cleanupCaptionTasks_removes_exactly (now : Z)
    (captionTasks : gmap string CaptionTask) (taskId : string) :
  (forall task,
     cleanupCaptionTasks now captionTasks !! taskId = Some task
     <-> captionTasks !! taskId = Some task /\ ~ expired now task)
  /\ (forall task,
        captionTasks !! taskId = Some task ->
        status task = WAITING \/ status task = RUNNING ->
        cleanupCaptionTasks now captionTasks !! taskId = Some task)
  /\ (forall task,
        captionTasks !! taskId = Some task -> expired now task ->
        cleanupCaptionTasks now captionTasks !! taskId = None).
Proof.
  split; [apply cleanupCaptionTasks_lookup|split].
  - intros task Hl Hlive. apply cleanupCaptionTasks_lookup. split; [exact Hl|].
    intros [Hterm _]. unfold terminal in Hterm.
    destruct Hlive as [Hs|Hs]; rewrite Hs in Hterm;
      destruct Hterm as [|[|]]; discriminate.
  - intros task Hl Hexp.
    apply eq_None_not_Some. intros [task' Hc].
    apply cleanupCaptionTasks_lookup in Hc as [Hl' Hne]. congruence.
Qed.

End SweepFacts.

Lemma cleanupCaptionTasks_removes_exactly_witness :
  Tasks.cleanupCaptionTasks 4000000
    (<["a" := oldTask "a" Tasks.SUCCESS]> (<["b" := oldTask "b" Tasks.RUNNING]> ∅)) !! "b"
  = Some (oldTask "b" Tasks.RUNNING)
  /\ Tasks.cleanupCaptionTasks 4000000
       (<["a" := oldTask "a" Tasks.SUCCESS]> (<["b" := oldTask "b" Tasks.RUNNING]> ∅)) !! "a"
     = None.
Proof.
  split.
  - apply (cleanupCaptionTasks_removes_exactly 4000000
             (<["a" := oldTask "a" Tasks.SUCCESS]> (<["b" := oldTask "b" Tasks.RUNNING]> ∅)) "b").
    + vm_compute. reflexivity.
    + right. reflexivity.
  - destruct (cleanupCaptionTasks_removes_exactly 4000000
             (<["a" := oldTask "a" Tasks.SUCCESS]> (<["b" := oldTask "b" Tasks.RUNNING]> ∅)) "a")
      as (_ & _ & Hgone).
    apply (Hgone (oldTask "a" Tasks.SUCCESS)).
    + vm_compute. reflexivity.
    + split; [left; reflexivity|]. vm_compute. reflexivity.
Defined.

(** ** The flash recognizer's reply *)

Lemma isEmpty_true (s : string) : Str.isEmpty s = true <-> s = "".
Proof. destruct s; cbn; split; congruence. Qed.

Lemma isEmpty_false (s : string) : Str.isEmpty s = false <-> s ≠ "".
Proof. destruct s; cbn; split; congruence. Qed.

Lemma get_same_case (hs : list (string * string)) (a b : string) :
  Str.toLowerCase a = Str.toLowerCase b -> Http.get hs a = Http.get hs b.
Proof.
  intros Hab. induction hs as [|[k v] hs IH]; [reflexivity|].
  cbn [Http.get]. rewrite Hab, IH. reflexivity.
Qed.

Lemma orElse_idem (s : string) : Str.orElse s (Str.orElse s "") = s.
Proof. destruct s; reflexivity. Qed.

(** The header is looked up twice, in two spellings of one name. *)
Lemma header2_status (apiRes : Http.Response) :
  Http.header2 apiRes "x-api-status-code" "X-Api-Status-Code"
  = default "" (Http.get (Http.headers apiRes) "X-Api-Status-Code").
Proof.
  unfold Http.header2.
  rewrite (get_same_case _ "x-api-status-code" "X-Api-Status-Code") by reflexivity.
  apply orElse_idem.
Qed.

Section FlashFacts.
Context `{Platform}.
Import Flash.

Lemma readReply_ok (apiRes : Http.Response) (apiText : string) :
  Http.ok apiRes = true ->
  readReply apiRes apiText
  = let statusCode := default "" (Http.get (Http.headers apiRes) "X-Api-Status-Code") in
    let statusNum := ToNumber (JString (Str.orElse statusCode "0")) in
    if Js.numTruthy statusNum && negb (Js.numStrictEq statusNum (Finite 20000000)) then
      Throw (ToString
               (Js.or (JString (Http.header2 apiRes "x-api-message" "X-Api-Message"))
                  (Js.or (Js.optProp (bodyData apiText) "message")
                     (Js.or (Js.optProp (bodyData apiText) "error")
                        (JString "豆包语音识别失败"))))
             +:+ logidSuffix (Http.header2 apiRes "x-tt-logid" "X-Tt-Logid"))
    else if Str.isEmpty (resultText apiText) then
      Throw ("豆包语音识别完成，但返回文本为空"
             +:+ logidSuffix (Http.header2 apiRes "x-tt-logid" "X-Tt-Logid"))
    else Return (resultText apiText).
Proof.
  intros Hok. unfold readReply. rewrite Hok, header2_status. reflexivity.
Qed.

(** The text of the transcript is read off the body parsed as JSON; a
    body that is empty or does not parse has none. *)
Lemma resultText_parsed (apiText : string) (data : JsValue) :
  apiText ≠ "" ->
  JSON_parse apiText = Some data ->
  resultText apiText
  = Str.trim
      (ToString (Js.or (Js.optProp (Js.optProp data "result") "text") (JString ""))).
Proof.
  intros Hne Hdata. unfold resultText, bodyData.
  apply isEmpty_false in Hne. rewrite Hne, Hdata. reflexivity.
Qed.

Lemma resultText_unparsed (apiText : string) :
  apiText = "" \/ JSON_parse apiText = None -> resultText apiText = "".
Proof.
  intros Hnone. unfold resultText.
  assert (Hnull : bodyData apiText = JNull).
  { unfold bodyData. destruct Hnone as [->|Hnone]; [reflexivity|].
    rewrite Hnone. destruct (Str.isEmpty apiText); reflexivity. }
  rewrite Hnull. cbn. rewrite ToString_string. reflexivity.
Qed.

(** Where [result.text] of the parsed body is a string, the text of the
    transcript is that string, trimmed. *)
Lemma resultText_string (apiText : string) (data : JsValue) (text : string) :
  apiText ≠ "" ->
  JSON_parse apiText = Some data ->
  Js.optProp (Js.optProp data "result") "text" = JString text ->
  resultText apiText = Str.trim text.
Proof.
  intros Hne Hdata Htext.
  rewrite (resultText_parsed apiText data Hne Hdata), Htext. unfold Js.or.
  cbn [Js.truthy]. destruct (Str.isEmpty text) eqn:Hempty; cbn [negb].
  - apply isEmpty_true in Hempty. subst text. rewrite ToString_string. reflexivity.
  - rewrite ToString_string. reflexivity.
Qed.

(** C3, as it holds. A reply with an ok HTTP status whose
    X-Api-Status-Code header is there and reads, by [Number], as a number
    (not NaN) that is neither 0 nor 20000000 makes the adapter throw; and
    whatever the business status, a reply whose transcript text is empty
    once trimmed makes it throw too: a body that is empty or no JSON, and
    a body whose [result.text] is a string of nothing but white space. *)
Theorem readReply_business_failure (apiRes : Http.Response) (apiText : string) :
  Http.ok apiRes = true ->
  (forall code n,
     Http.get (Http.headers apiRes) "X-Api-Status-Code" = Some code ->
     code ≠ "" ->
     ToNumber (JString code) = n ->
     n ≠ NaN ->
     (forall q, n = Finite q -> ~ (q == 0)%Q /\ ~ (q == 20000000)%Q) ->
     exists msg, readReply apiRes apiText = Throw msg)
  /\ (resultText apiText = "" -> exists msg, readReply apiRes apiText = Throw msg)
  /\ (apiText = "" \/ JSON_parse apiText = None ->
      exists msg, readReply apiRes apiText = Throw msg)
  /\ (forall data text,
        apiText ≠ "" ->
        JSON_parse apiText = Some data ->
        Js.optProp (Js.optProp data "result") "text" = JString text ->
        Str.trim text = "" ->
        exists msg, readReply apiRes apiText = Throw msg).
Proof.
  intros Hok.
  assert (Hblank : resultText apiText = "" -> exists msg, readReply apiRes apiText = Throw msg).
  { intros Hempty. rewrite (readReply_ok _ _ Hok). cbn zeta.
    destruct (_ && _); [eauto|]. rewrite Hempty. cbn. eauto. }
  split; [|split; [exact Hblank|split]].
  2: { intros Hnone. apply Hblank, resultText_unparsed, Hnone. }
  2: { intros data text Hne Hdata Htext Htrim. apply Hblank.
       rewrite (resultText_string apiText data text Hne Hdata Htext). exact Htrim. }
  rewrite (readReply_ok _ _ Hok). cbn zeta.
  - intros code n Hget Hcode Hnum Hnan Hfinite.
    rewrite Hget. cbn [default from_option id].
    apply isEmpty_false in Hcode. unfold Str.orElse. rewrite Hcode, Hnum.
    destruct n as [|negative|q]; [contradiction|cbn; eauto|].
    destruct (Hfinite q eq_refl) as [Hq0 Hq2].
    cbn [Js.numTruthy Js.numStrictEq].
    destruct (Qeq_bool q 0) eqn:E0; [apply Qeq_bool_iff in E0; contradiction|].
    destruct (Qeq_bool q 20000000) eqn:E2; [apply Qeq_bool_iff in E2; contradiction|].
    cbn. eauto.
Qed.

(** C10. A reply with an ok HTTP status and no X-Api-Status-Code header,
    or one that reads as zero, is a business success: the adapter returns
    a transcript exactly when the body parses as JSON and [result.text]
    of what it parses to has something in it after trimming, and the
    transcript is that text, trimmed. In particular, where [result.text]
    is a string [text], the adapter returns [text.trim()] if that is not
    empty and throws if it is. *)
Theorem readReply_without_status (apiRes : Http.Response) (apiText : string) :
  Http.ok apiRes = true ->
  Http.get (Http.headers apiRes) "X-Api-Status-Code" = None
  \/ (exists code q,
        Http.get (Http.headers apiRes) "X-Api-Status-Code" = Some code
        /\ ToNumber (JString code) = Finite q /\ (q == 0)%Q) ->
  (forall transcript,
     readReply apiRes apiText = Return transcript
     <-> exists data,
           apiText ≠ ""
           /\ JSON_parse apiText = Some data
           /\ transcript
              = Str.trim
                  (ToString
                     (Js.or (Js.optProp (Js.optProp data "result") "text") (JString "")))
           /\ transcript ≠ "")
  /\ (forall data text,
        apiText ≠ "" ->
        JSON_parse apiText = Some data ->
        Js.optProp (Js.optProp data "result") "text" = JString text ->
        if Str.isEmpty (Str.trim text)
        then exists msg, readReply apiRes apiText = Throw msg
        else readReply apiRes apiText = Return (Str.trim text)).
Proof.
  intros Hok Hstatus.
  assert (Hreply : forall transcript,
            readReply apiRes apiText = Return transcript
            <-> transcript = resultText apiText /\ resultText apiText ≠ "");
    [|split].
  2: { intros transcript. rewrite Hreply. split.
       - intros [-> Hne].
         destruct (Str.isEmpty apiText) eqn:Hempty;
           [apply isEmpty_true in Hempty;
            rewrite (resultText_unparsed apiText (or_introl Hempty)) in Hne; contradiction|].
         apply isEmpty_false in Hempty.
         destruct (JSON_parse apiText) as [data|] eqn:Hdata;
           [|rewrite (resultText_unparsed apiText (or_intror Hdata)) in Hne; contradiction].
         exists data. rewrite <- (resultText_parsed apiText data Hempty Hdata).
         repeat split; assumption.
       - intros (data & Hne & Hdata & -> & Hsome).
         rewrite (resultText_parsed apiText data Hne Hdata). split; [reflexivity|exact Hsome]. }
  2: { intros data text Hne Hdata Htext.
       pose proof (resultText_string apiText data text Hne Hdata Htext) as Hresult.
       destruct (Str.isEmpty (Str.trim text)) eqn:Hblank.
       - assert (Hnot : forall transcript, readReply apiRes apiText ≠ Return transcript).
         { intros transcript Hr. apply Hreply in Hr as [_ Hr]. apply isEmpty_true in Hblank.
           rewrite Hresult in Hr. contradiction. }
         destruct (readReply apiRes apiText) as [transcript|msg];
           [exfalso; exact (Hnot transcript eq_refl)|eauto].
       - apply Hreply. apply isEmpty_false in Hblank. rewrite Hresult.
         split; [reflexivity|exact Hblank]. }
  intros transcript. rewrite (readReply_ok _ _ Hok). cbn zeta.
  assert (Hnum : Js.numTruthy
            (ToNumber (JString (Str.orElse
               (default "" (Http.get (Http.headers apiRes) "X-Api-Status-Code")) "0")))
          = false).
  { destruct Hstatus as [->|(code & q & -> & Hnum & Hq)]; cbn [default from_option id].
    - cbn. rewrite ToNumber_zero. reflexivity.
    - destruct code as [|c code]; cbn [Str.orElse Str.isEmpty].
      + rewrite ToNumber_zero. reflexivity.
      + rewrite Hnum. cbn. apply Qeq_bool_iff in Hq. rewrite Hq. reflexivity. }
  rewrite Hnum. cbn [andb].
  destruct (Str.isEmpty (resultText apiText)) eqn:Hempty.
  - apply isEmpty_true in Hempty. split; [discriminate|]. intros [_ Hne]. contradiction.
  - apply isEmpty_false in Hempty. split.
    + intros [= <-]. split; [reflexivity|assumption].
    + intros [-> _]. reflexivity.
Qed.

End FlashFacts.

Lemma readReply_business_failure_witness :
  exists msg,
    Flash.readReply (H := Ref.platform)
      (Http.mkResponse true 200 [("X-Api-Status-Code", "45000001")]) Ref.helloBody
    = Throw msg.
Proof.
  apply (readReply_business_failure
           (Http.mkResponse true 200 [("X-Api-Status-Code", "45000001")]) Ref.helloBody
           eq_refl) with (code := "45000001") (n := Finite (inject_Z 45000001)).
  - reflexivity.
  - discriminate.
  - reflexivity.
  - discriminate.
  - intros q [= <-]. split; intros Hq; vm_compute in Hq; discriminate.
Defined.

(** C3, as the claim has it, fails. A header that is there and is no
    number, such as [failed], or the code of a failure sent twice, which
    [headers.get] joins with a comma, is nonzero and different from
    20000000; [Number] reads it as NaN, [statusNum && ...] is false, and
    the adapter returns the transcript of the body. *)
Theorem readReply_unreadable_status :
  Forall
    (fun code =>
       let apiRes := Http.mkResponse true 200 [("X-Api-Status-Code", code)] in
       Http.ok apiRes = true
       /\ Http.get (Http.headers apiRes) "X-Api-Status-Code" = Some code
       /\ code ≠ "" /\ code ≠ "0" /\ code ≠ "20000000"
       /\ ToNumber (Platform := Ref.platform) (JString code) = NaN
       /\ Flash.readReply (H := Ref.platform) apiRes Ref.helloBody = Return "hello")
    ["failed"; "45000001, 45000001"].
Proof. repeat constructor; try discriminate. Qed.

Lemma readReply_without_status_witness :
  Flash.readReply (H := Ref.platform) (Http.mkResponse true 200 []) Ref.helloBody = Return "hello".
Proof.
  destruct (readReply_without_status (H := Ref.platform) (Http.mkResponse true 200 [])
              Ref.helloBody eq_refl (or_introl eq_refl)) as [_ Htext].
  apply (Htext (JObject [("result", JObject [("text", JString "hello")])]) "hello");
    [discriminate|reflexivity|reflexivity].
Defined.

(** ** The task API *)

Section TaskFacts.
Context `{Platform}.
Import Tasks.

(** Nothing a job does touches the identity of its task or its
    cancellation handle. *)
Lemma runJob_keeps_handle (now : Z) (a : Adapter) :
  forall task writes,
    abort (runJob now a task writes).1.1 = abort task
    /\ id (runJob now a task writes).1.1 = id task.
Proof.
  induction a as [transcript publicUrl|err|stage message k IH|k IH|k IH|op k IH];
    intros task writes; cbn [runJob].
  - split; reflexivity.
  - split; reflexivity.
  - destruct (IH (update now stage message task) (update now stage message task :: writes))
      as [-> ->]. split; reflexivity.
  - apply IH.
  - apply IH.
  - destruct (wakesOnAbort op && abort task); [apply IH|split; reflexivity].
Qed.

Lemma advance_keeps_handle (now : Z) (taskId : string) (a : Adapter) (w : World)
    (task : CaptionTask) :
  captionTasks w !! taskId = Some task ->
  exists task',
    captionTasks (advance now taskId a w) !! taskId = Some task'
    /\ abort task' = abort task.
Proof.
  intros Hl. unfold advance. rewrite Hl.
  pose proof (runJob_keeps_handle now a task []) as [Hab _].
  destruct (runJob now a task []) as [[task' writes] j]. cbn [fst] in Hab.
  exists task'. cbn [captionTasks]. rewrite lookup_insert_eq. split; [reflexivity|exact Hab].
Qed.

Lemma wake_keeps_handle (now : Z) (taskId : string) (w : World) (task : CaptionTask) :
  captionTasks w !! taskId = Some task ->
  exists task',
    captionTasks (wake now taskId w) !! taskId = Some task' /\ abort task' = abort task.
Proof.
  intros Hl. unfold wake.
  destruct (jobs w !! taskId) as [[op k]|]; [|eauto].
  destruct (wakesOnAbort op); [|eauto].
  apply advance_keeps_handle. exact Hl.
Qed.

(** The job's [catch] rewrites a cancelled task to what it was. *)
Lemma fail_cancelNow (now : Z) (err : JsError) (task : CaptionTask) :
  fail now err (cancelNow now task) = cancelNow now task.
Proof. reflexivity. Qed.

Lemma not_live_terminal (s : CaptionTaskStatus) :
  terminal s -> bool_decide (s = RUNNING) || bool_decide (s = WAITING) = false.
Proof. intros [Hs | [Hs | Hs]]; rewrite Hs; reflexivity. Qed.

Lemma update_status (now : Z) (stage : CaptionTaskStage) (message : string)
    (task : CaptionTask) :
  status (update now stage message task) = RUNNING.
Proof. reflexivity. Qed.

Lemma trim_nonempty (text : string) : Str.trim text ≠ "" -> text ≠ "".
Proof. intros Htrim ->. apply Htrim. reflexivity. Qed.

(** C4, as the code has it. Where the fetched caption is a string with
    something in it after trimming, the call answers 200 with a snapshot
    that is SUCCESS at stage done and carries the trimmed caption, the
    task is in the registry under its id, and no background job is
    launched: neither adapter runs. *)
Theorem createFromMeta_own_caption (provider : Provider)
    (doubaoAppId doubaoToken dashscopeApiKey : string) (meta : VideoMeta) (text : string)
    (taskId : string) (now : Z) (w : World) :
  caption meta = JString text ->
  Str.trim text ≠ "" ->
  let created :=
    createFromMeta provider doubaoAppId doubaoToken dashscopeApiKey meta taskId now w in
  reply created
  = mkReply 200
      (SnapshotBody
         (mkSnapshot taskId SUCCESS done (Some "已获取抖音字幕") (Some (Str.trim text))
            None None now now))
  /\ captionTasks (world created) !! taskId
     = Some (mkTask taskId SUCCESS done (Some "已获取抖音字幕") now now
               (Some (Str.trim text)) None None false)
  /\ jobs (world created) = jobs w
  /\ launched created = None.
Proof.
  intros Hcap Htrim. cbn zeta. unfold createFromMeta, ownCaption. rewrite Hcap.
  pose proof (trim_nonempty _ Htrim) as Htext.
  apply isEmpty_false in Htext, Htrim. cbn [Js.truthy]. rewrite Htext, Htrim.
  cbn [negb reply world launched captionTasks jobs].
  rewrite lookup_insert_eq. repeat split; reflexivity.
Qed.

End TaskFacts.

Lemma createFromMeta_own_caption_witness :
  Tasks.reply
    (Tasks.createFromMeta (H := Ref.platform) Tasks.dashscope "" "" "sk-1"
       (Tasks.mkMeta (JString "　hello ") JNull) "t2" 5000 Scenario.nothing)
  = Tasks.mkReply 200
      (Tasks.SnapshotBody
         (Tasks.mkSnapshot "t2" Tasks.SUCCESS Tasks.done (Some "已获取抖音字幕")
            (Some "hello") None None 5000 5000)).
Proof.
  assert (Htrim : Str.trim "　hello " ≠ "") by (vm_compute; discriminate).
  destruct (createFromMeta_own_caption (H := Ref.platform) Tasks.dashscope "" "" "sk-1"
              (Tasks.mkMeta (JString "　hello ") JNull) "　hello " "t2" 5000
              Scenario.nothing eq_refl Htrim) as [Hreply _].
  exact Hreply.
Defined.

(** C4, as it is stated, fails on a caption that is not empty but blank:
    the call launches the recognizer and answers with a RUNNING task
    that has no transcript. *)
Lemma createFromMeta_blank_caption :
  Js.truthy (Tasks.caption (Tasks.mkMeta (JString " ") Scenario.media)) = true
  /\ Tasks.reply Scenario.blankCaption
     = Tasks.mkReply 200
         (Tasks.SnapshotBody
            (Tasks.mkSnapshot "t1" Tasks.RUNNING Tasks.downloading (Some "下载视频中...")
               None None None 1000 1000))
  /\ is_Some (Tasks.launched Scenario.blankCaption).
Proof.
  split; [reflexivity|split].
  - vm_compute. reflexivity.
  - apply (bool_decide_unpack _). vm_compute. exact I.
Qed.

(** C2. A flash job is cancelled while it removes its temporary
    directory: the task is CANCELLED. When the removal is over the job
    reports its next stage, and [update] writes RUNNING over CANCELLED;
    the rejected request that follows makes the job's [catch] write
    CANCELLED again, with a new [updatedAt]. *)
Theorem update_overwrites_cancelled :
  Tasks.status <$> (Tasks.captionTasks Scenario.afterCancel !! "t1") = Some Tasks.CANCELLED
  /\ Tasks.status <$> Tasks.writesOfResume 1900 "t1" Tasks.Completes Scenario.afterCancel
     = [Tasks.RUNNING; Tasks.CANCELLED]
  /\ Tasks.updatedAt <$> Tasks.writesOfResume 1900 "t1" Tasks.Completes Scenario.afterCancel
     = [1900; 1900]
  /\ Tasks.updatedAt <$> (Tasks.captionTasks Scenario.afterCancel !! "t1") = Some 1800.
Proof. repeat split; vm_compute; reflexivity. Qed.

(** ** The account's videos *)

Section NumberOrder.




End NumberOrder.

Section SortFacts.
Context `{Platform}.
Import Listing.






Lemma slice0_take {A : Type} (count : Z) (l : list A) :
  0 <= count -> slice0 count l = take (Z.to_nat count) l.
Proof. intros Hc. unfold slice0. destruct (Z.ltb_spec count 0); [lia|reflexivity]. Qed.




End SortFacts.

Section ListingFacts.
Context `{Platform}.
Import Listing.







Lemma fetchUserVideos_returns (abogus : Exc string) (env : nat -> Attempt) (count : Z)
    (c : Session.Cache) :
  exists videos, outcome (fetchUserVideos abogus env count c) = Return videos.
Proof.
  unfold fetchUserVideos. destruct abogus as [sig|msg]; cbn [outcome].
  - destruct (outcome (attempts 2 0 env count c [])) eqn:Ho; cbn [outcome]; eauto.
  - eauto.
Qed.








End ListingFacts.

Example fetchUserVideos_run :
  ListingRun.ids ListingRun.run = [JString "b"; JString "c"]
  /\ Listing.listingCalls (Listing.effects ListingRun.run) = 2%nat
  /\ Listing.invalidations (Listing.effects ListingRun.run) = 1%nat.
Proof. repeat split; vm_compute; reflexivity. Qed.


(** ** The jobs, turn by turn *)

Section DisciplineFacts.
Context `{Platform}.
Import Tasks.

Lemma runJob_settles (now : Z) (dirty : bool) (a : Adapter) :
  Settles dirty a ->
  forall task writes,
    abort task = true ->
    (dirty = false -> status task = CANCELLED) ->
    status (runJob now a task writes).1.1 = CANCELLED
    /\ match (runJob now a task writes).2 with
       | Some (op, k) => wakesOnAbort op = false /\ forall o, Settles false (k o)
       | None => True
       end.
Proof.
  induction 1 as [dirty err|dirty stage message k Hk IH|dirty k Hk IH|dirty k Hk IH
                 |dirty op k Hop Hk IH|op k Hop Hk IH];
    intros task writes Hab Hclean; cbn [runJob].
  - cbn. unfold fail. rewrite Hab. cbn. split; [reflexivity|exact I].
  - apply IH; [exact Hab|discriminate].
  - rewrite Hab. apply IH; assumption.
  - apply IH; assumption.
  - rewrite Hop, Hab. cbn [andb]. apply IH; assumption.
  - rewrite Hop. cbn [andb fst snd]. split; [apply Hclean; reflexivity|].
    split; [exact Hop|exact Hk].
Qed.

Lemma readReply_empty_body (apiRes : Http.Response) :
  exists msg, Flash.readReply apiRes "" = Throw msg.
Proof.
  unfold Flash.readReply. destruct (negb (Http.ok apiRes)); [eauto|].
  destruct (_ && _); [eauto|].
  unfold Flash.resultText, Flash.bodyData. cbn. rewrite ToString_string. cbn. eauto.
Qed.

Ltac step_settles :=
  first
    [ apply Settles_reject
    | apply Settles_stage
    | apply Settles_aborted
    | apply Settles_clock; intros ?
    | apply Settles_wake; [reflexivity|]
    | apply Settles_wait; [reflexivity|intros []]
    | match goal with
      | |- Settles _ (if ?b then _ else _) => destruct b
      | |- Settles _ (match ?x with _ => _ end) => destruct x
      end ].

Ltac reduce_adapter :=
  cbv beta iota zeta
      delta [cleanupThen errorOf withJson withProp sleep readTranscripts
             getDashscopeUploadPolicy uploadToDashscopeTemporaryOss].

Ltac settles :=
  repeat (reduce_adapter;
          first [ match goal with
                  | |- context [Flash.readReply ?r ""] =>
                      let msg := fresh "msg" in
                      let Hmsg := fresh "Hmsg" in
                      destruct (readReply_empty_body r) as [msg Hmsg]; rewrite Hmsg
                  end
                | step_settles ]).

Ltac step_tame :=
  first
    [ match goal with
      | Hpoll : context [pollLoop] |- Tame (pollLoop _ _ _ _) => apply Hpoll
      end
    | apply Tame_resolve
    | apply Tame_reject
    | apply Tame_stage
    | apply Tame_aborted
    | apply Tame_clock; intros ?
    | assumption
    | apply Tame_await; [intros []|solve [settles]]
    | match goal with
      | |- Tame (if ?b then _ else _) => destruct b
      | |- Tame (match ?x with _ => _ end) => destruct x
      end ].

Ltac tame := repeat (reduce_adapter; step_tame).

Lemma flash_tame (videoUrl cfgAppKey cfgAccessKey : string) :
  Tame (transcribeWithDoubaoBigasrFlash videoUrl cfgAppKey cfgAccessKey).
Proof.
  unfold transcribeWithDoubaoBigasrFlash, extractMp3FromVideoBuffer. tame.
Qed.

Lemma pollLoop_tame (rounds : nat) (taskId : string) (startTime : Z) (publicUrl : string) :
  Tame (pollLoop rounds taskId startTime publicUrl).
Proof.
  induction rounds as [|rounds IH]; cbn [pollLoop]; tame.
Qed.

Lemma paraformer_tame (videoUrl apiKey : string) :
  Tame (transcribeWithParaformer videoUrl apiKey).
Proof.
  unfold transcribeWithParaformer.
  pose proof pollLoop_tame as Hpoll. tame.
Qed.

Lemma jobFor_tame (provider : Provider) (a b c : string) (playUrl : JsValue) :
  Tame (jobFor provider a b c playUrl).
Proof.
  destruct provider; cbn [jobFor];
    [apply flash_tame|apply Tame_stage, paraformer_tame].
Qed.

Lemma forward_refl (s : CaptionTaskStatus) : forward s s.
Proof. split; [lia|reflexivity]. Qed.

Lemma runJob_tame (now : Z) (a : Adapter) :
  Tame a ->
  forall task writes,
    abort task = false ->
    status task = WAITING \/ status task = RUNNING ->
    match (runJob now a task writes).2 with
    | Some (op, k) =>
        (status (runJob now a task writes).1.1 = WAITING
         \/ status (runJob now a task writes).1.1 = RUNNING)
        /\ Tame (Await op k)
    | None => terminal (status (runJob now a task writes).1.1)
    end
    /\ (status (runJob now a task writes).1.1 = WAITING -> status task = WAITING).
Proof.
  induction 1 as [transcript publicUrl|err|stage message k Hk IH|k Hk IH|k Hk IH
                 |op k Hk IH Hs];
    intros task writes Hab Hlive; cbn [runJob].
  - cbn. split; [left; reflexivity|discriminate].
  - cbn. unfold fail. rewrite Hab. cbn [orb].
    destruct (_ || _); cbn; (split; [unfold terminal; auto|discriminate]).
  - destruct (IH (update now stage message task) (update now stage message task :: writes)
                Hab (or_intror eq_refl)) as [Hj Hw].
    split; [exact Hj|]. intros Hw'. apply Hw in Hw'. discriminate.
  - rewrite Hab. apply IH; assumption.
  - apply IH; assumption.
  - rewrite Hab, andb_false_r. cbn [fst snd]. split; [|auto].
    split; [exact Hlive|]. constructor; assumption.
Qed.

Lemma runJob_ok (now : Z) (a : Adapter) (task : CaptionTask) (writes : list CaptionTask) :
  runnable task a ->
  jobOk (runJob now a task writes).1.1 (runJob now a task writes).2
  /\ forward (status task) (status (runJob now a task writes).1.1).
Proof.
  unfold runnable. intros Hrun.
  pose proof (runJob_keeps_handle now a task writes) as [Hab _].
  destruct (abort task) eqn:Habort.
  - destruct Hrun as [Hst Hs].
    destruct (runJob_settles now false a Hs task writes Habort (fun _ => Hst)) as [Hc Hj].
    split.
    + unfold jobOk. destruct (runJob now a task writes).2 as [[op k]|].
      * rewrite Hab. destruct Hj as [Hop Hk]. auto.
      * rewrite Hc. unfold terminal. auto.
    + rewrite Hc, Hst. apply forward_refl.
  - destruct Hrun as [Hlive Ht].
    destruct (runJob_tame now a Ht task writes Habort Hlive) as [Hj Hw].
    split.
    + unfold jobOk. destruct (runJob now a task writes).2 as [[op k]|]; [|exact Hj].
      rewrite Hab. exact Hj.
    + split.
      * destruct Hlive as [Hs|Hs]; rewrite Hs; cbn [rank]; [lia|].
        destruct (status (runJob now a task writes).1.1) eqn:Hs'; cbn [rank]; try lia.
        specialize (Hw eq_refl). congruence.
      * intros Hterm. unfold terminal in Hterm.
        destruct Hlive as [Hs|Hs]; rewrite Hs in Hterm; destruct Hterm as [|[|]]; discriminate.
Qed.

Lemma lookup_setJob (taskId taskId' : string) (j : option Suspended)
    (js : gmap string Suspended) :
  setJob taskId j js !! taskId' = if decide (taskId = taskId') then j else js !! taskId'.
Proof.
  unfold setJob. destruct j as [s|].
  - rewrite lookup_insert. reflexivity.
  - rewrite lookup_delete. destruct (decide (taskId = taskId')); reflexivity.
Qed.

Lemma advance_disciplined (now : Z) (taskId : string) (a : Adapter) (w : World)
    (task : CaptionTask) :
  DisciplinedBut taskId w ->
  captionTasks w !! taskId = Some task ->
  runnable task a ->
  Disciplined (advance now taskId a w)
  /\ (exists task', captionTasks (advance now taskId a w) !! taskId = Some task'
                    /\ forward (status task) (status task'))
  /\ (forall taskId', taskId' ≠ taskId ->
        captionTasks (advance now taskId a w) !! taskId' = captionTasks w !! taskId').
Proof.
  intros Hw Hl Hrun. unfold advance. rewrite Hl.
  destruct (runJob_ok now a task [] Hrun) as [Hj Hf].
  destruct (runJob now a task []) as [[task' writes] j]. cbn [fst snd] in Hj, Hf.
  split; [|split].
  - intros taskId' t Hl'. cbn [captionTasks jobs] in *.
    rewrite lookup_setJob. rewrite lookup_insert in Hl'.
    destruct (decide (taskId = taskId')) as [<-|Hne].
    + injection Hl' as <-. exact Hj.
    + apply Hw; [congruence|exact Hl'].
  - exists task'. cbn [captionTasks]. rewrite lookup_insert_eq. auto.
  - intros taskId' Hne. cbn [captionTasks]. apply lookup_insert_ne. congruence.
Qed.

Lemma sweep_disciplined (now : Z) (w : World) :
  Disciplined w ->
  Disciplined (sweep now w)
  /\ (forall taskId task, captionTasks (sweep now w) !! taskId = Some task ->
                          captionTasks w !! taskId = Some task).
Proof.
  intros Hw.
  assert (Hsub : forall taskId task, captionTasks (sweep now w) !! taskId = Some task ->
                                     captionTasks w !! taskId = Some task).
  { intros taskId task Hl. cbn [sweep captionTasks] in Hl.
    apply cleanupCaptionTasks_lookup in Hl as [Hl _]. exact Hl. }
  split; [|exact Hsub].
  intros taskId task Hl. cbn [sweep jobs]. apply Hw, Hsub, Hl.
Qed.

Lemma Disciplined_but (taskId : string) (w : World) :
  Disciplined w -> DisciplinedBut taskId w.
Proof. intros Hw taskId' task _ Hl. apply Hw, Hl. Qed.

Lemma Forward_same (w w' : World) :
  (forall taskId task', captionTasks w' !! taskId = Some task' ->
                        captionTasks w !! taskId = Some task') ->
  Forward w w'.
Proof.
  intros Hsub taskId task task' Hl Hl'. apply Hsub in Hl'.
  assert (task' = task) as -> by congruence. apply forward_refl.
Qed.

Lemma Forward_after_sweep (now : Z) (w w' : World) :
  Forward (sweep now w) w' ->
  (forall taskId task', captionTasks w' !! taskId = Some task' ->
                        is_Some (captionTasks w !! taskId) ->
                        is_Some (captionTasks (sweep now w) !! taskId)) ->
  Forward w w'.
Proof.
  intros Hf Hkeep taskId task task' Hl Hl'.
  destruct (Hkeep taskId task' Hl' (mk_is_Some _ _ Hl)) as [t Ht].
  assert (t = task) as ->.
  { cbn [sweep captionTasks] in Ht. apply cleanupCaptionTasks_lookup in Ht as [Ht _].
    congruence. }
  eapply Hf; eassumption.
Qed.

Lemma Forward_advance (now : Z) (taskId : string) (a : Adapter) (w : World)
    (task : CaptionTask) :
  DisciplinedBut taskId w ->
  captionTasks w !! taskId = Some task ->
  runnable task a ->
  Forward w (advance now taskId a w).
Proof.
  intros Hw Hl Hrun taskId' t t' Ht Ht'.
  destruct (advance_disciplined now taskId a w task Hw Hl Hrun)
    as (_ & (task' & Hl' & Hf) & Hother).
  destruct (decide (taskId' = taskId)) as [->|Hne].
  - assert (t = task) as -> by congruence. assert (t' = task') as -> by congruence.
    exact Hf.
  - rewrite (Hother _ Hne) in Ht'. assert (t' = t) as -> by congruence.
    apply forward_refl.
Qed.

Lemma resume_step (now : Z) (taskId : string) (o : Outcome) (w : World) :
  Disciplined w ->
  Disciplined (resume now taskId o w) /\ Forward w (resume now taskId o w).
Proof.
  intros Hw. unfold resume.
  destruct (jobs w !! taskId) as [[op k]|] eqn:Hj;
    [|split; [exact Hw|apply Forward_same; auto]].
  destruct (captionTasks w !! taskId) as [task|] eqn:Hl.
  - assert (Hrun : runnable task (k o)).
    { pose proof (Hw _ _ Hl) as Hok. rewrite Hj in Hok. unfold jobOk in Hok.
      unfold runnable. destruct (abort task).
      - destruct Hok as (Hs & _ & Hk). auto.
      - destruct Hok as [Hlive Ht]. split; [exact Hlive|].
        inversion Ht; subst.
        match goal with Hk : forall o, Tame (k o) |- _ => apply Hk end. }
    split.
    + apply (advance_disciplined now taskId (k o) w task); auto using Disciplined_but.
    + apply (Forward_advance now taskId (k o) w task); auto using Disciplined_but.
  - unfold advance. rewrite Hl. split; [|apply Forward_same; auto].
    intros taskId' task Hl'. cbn [captionTasks jobs] in *.
    assert (taskId' ≠ taskId) by congruence.
    rewrite lookup_delete_ne by congruence. apply Hw, Hl'.
Qed.

Lemma cancelAfterBody_step (req : CancelRequest) (now : Z) (w : World) :
  Disciplined w ->
  Disciplined (cancelAfterBody req now w).2 /\ Forward w (cancelAfterBody req now w).2
  /\ (forall taskId task', captionTasks (cancelAfterBody req now w).2 !! taskId = Some task' ->
                           is_Some (captionTasks w !! taskId)).
Proof.
  intros Hw.
  assert (Hsame : Disciplined w /\ Forward w w
                  /\ (forall taskId task', captionTasks w !! taskId = Some task' ->
                                           is_Some (captionTasks w !! taskId))).
  { split; [exact Hw|split; [apply Forward_same; auto|eauto]]. }
  unfold cancelAfterBody.
  destruct (Str.isEmpty (requestedTaskId req)); [exact Hsame|].
  destruct (captionTasks w !! requestedTaskId req) as [task|] eqn:Hl; [|exact Hsame].
  destruct (bool_decide (status task = RUNNING) || bool_decide (status task = WAITING))
    eqn:Hlive; [|exact Hsame].
  cbn [snd]. set (taskId := requestedTaskId req) in *.
  assert (Hlive' : status task = WAITING \/ status task = RUNNING).
  { apply orb_true_iff in Hlive as [Hs|Hs]; apply bool_decide_eq_true in Hs; auto. }
  set (w1 := mkWorld (<[taskId := cancelNow now task]> (captionTasks w)) (jobs w)).
  assert (Hl1 : captionTasks w1 !! taskId = Some (cancelNow now task))
    by apply lookup_insert_eq.
  assert (Hbut : DisciplinedBut taskId w1).
  { intros taskId' t Hne Ht. cbn [w1 captionTasks jobs] in *.
    rewrite lookup_insert_ne in Ht by congruence. apply Hw, Ht. }
  assert (Hfw : Forward w w1).
  { intros taskId' t t' Ht Ht'. cbn [w1 captionTasks] in Ht'.
    rewrite lookup_insert in Ht'. destruct (decide (taskId = taskId')) as [<-|Hne].
    - injection Ht' as <-. assert (t = task) as -> by congruence. split.
      + destruct Hlive' as [Hs|Hs]; rewrite Hs; cbn; lia.
      + intros Hterm. unfold terminal in Hterm.
        destruct Hlive' as [Hs|Hs]; rewrite Hs in Hterm; destruct Hterm as [|[|]];
          discriminate.
    - assert (t' = t) as -> by congruence. apply forward_refl. }
  assert (Hkeys1 : forall taskId' task', captionTasks w1 !! taskId' = Some task' ->
                                         is_Some (captionTasks w !! taskId')).
  { intros taskId' t' Ht'. cbn [w1 captionTasks] in Ht'. rewrite lookup_insert in Ht'.
    destruct (decide (taskId = taskId')) as [<-|Hne]; eauto. }
  pose proof (Hw _ _ Hl) as Hok. unfold jobOk in Hok.
  unfold wake. change (jobs w1) with (jobs w).
  destruct (jobs w !! taskId) as [[op k]|] eqn:Hj.
  2:{ exfalso. unfold terminal in Hok.
      destruct Hlive' as [Hs|Hs]; rewrite Hs in Hok; destruct Hok as [|[|]]; discriminate. }
  destruct (abort task) eqn:Hab.
  { exfalso. destruct Hok as [Hs _]. destruct Hlive' as [Hs'|Hs']; congruence. }
  destruct Hok as [_ Ht].
  assert (Hs : Settles false (Await op k)) by (inversion Ht; subst; assumption).
  assert (Hwait : wakesOnAbort op = false -> forall o, Settles false (k o)).
  { intros Hop. inversion Hs; subst; [congruence|assumption]. }
  assert (Hwoken : wakesOnAbort op = true -> Settles false (k (Rejects abortError))).
  { intros Hop. inversion Hs; subst; [assumption|congruence]. }
  destruct (wakesOnAbort op) eqn:Hwake.
  - assert (Hrun : runnable (cancelNow now task) (k (Rejects abortError))).
    { unfold runnable. cbn [abort cancelNow status]. split; [reflexivity|].
      apply Hwoken. reflexivity. }
    destruct (advance_disciplined now taskId _ w1 _ Hbut Hl1 Hrun) as (Hd & _ & Hother).
    split; [exact Hd|split].
    + intros taskId' t t' Hlt Hlt'.
      pose proof (Forward_advance now taskId _ w1 _ Hbut Hl1 Hrun) as Hf1.
      destruct (decide (taskId' = taskId)) as [->|Hne].
      * assert (t = task) as -> by congruence.
        destruct (Hf1 taskId _ _ Hl1 Hlt') as [_ Habs].
        rewrite (Habs (or_intror (or_intror eq_refl))).
        apply (Hfw taskId task (cancelNow now task) Hl Hl1).
      * rewrite (Hother _ Hne) in Hlt'. eapply Hfw; eassumption.
    + intros taskId' t' Hlt'. destruct (decide (taskId' = taskId)) as [->|Hne]; [eauto|].
      rewrite (Hother _ Hne) in Hlt'. eapply Hkeys1; eassumption.
  - split; [|split; [exact Hfw|exact Hkeys1]].
    intros taskId' t Hlt. destruct (decide (taskId' = taskId)) as [->|Hne].
    + assert (t = cancelNow now task) as -> by congruence.
      change (jobs w1) with (jobs w). rewrite Hj. cbn [jobOk abort cancelNow status].
      split; [reflexivity|split; [exact Hwake|]].
      apply Hwait. reflexivity.
    + apply Hbut; assumption.
Qed.

Lemma createFromMeta_step (provider : Provider) (a b c : string) (meta : VideoMeta)
    (taskId : string) (now : Z) (w : World) :
  Disciplined w ->
  captionTasks w !! taskId = None ->
  jobs w !! taskId = None ->
  Disciplined (world (createFromMeta provider a b c meta taskId now w))
  /\ (forall taskId', taskId' ≠ taskId ->
        captionTasks (world (createFromMeta provider a b c meta taskId now w)) !! taskId'
        = captionTasks w !! taskId').
Proof.
  intros Hw Hfresh Hnojob.
  assert (Hsame : Disciplined w
                  /\ (forall taskId', taskId' ≠ taskId ->
                        captionTasks w !! taskId' = captionTasks w !! taskId')).
  { split; [exact Hw|reflexivity]. }
  unfold createFromMeta.
  destruct (ownCaption meta) as [[text|]|msg]; cbn [refuse world]; [| |exact Hsame].
  - split.
    + intros taskId' t Ht. cbn [captionTasks jobs] in *. rewrite lookup_insert in Ht.
      destruct (decide (taskId = taskId')) as [<-|Hne].
      * injection Ht as <-. rewrite Hnojob. cbn. unfold terminal. auto.
      * apply Hw, Ht.
    + intros taskId' Hne. cbn [captionTasks]. apply lookup_insert_ne. congruence.
  - destruct (negb (Js.truthy (playUrl meta))); cbn [refuse world]; [exact Hsame|].
    set (task := mkTask taskId WAITING queued (Some "任务已创建") now now None None None false).
    set (w1 := mkWorld (<[taskId := task]> (captionTasks w)) (jobs w)).
    assert (Hl1 : captionTasks w1 !! taskId = Some task) by apply lookup_insert_eq.
    assert (Hbut : DisciplinedBut taskId w1).
    { intros taskId' t Hne Ht. cbn [w1 captionTasks jobs] in *.
      rewrite lookup_insert_ne in Ht by congruence. apply Hw, Ht. }
    assert (Hrun : runnable task (jobFor provider a b c (playUrl meta))).
    { unfold runnable. cbn [abort task]. split; [left; reflexivity|apply jobFor_tame]. }
    destruct (advance_disciplined now taskId _ w1 _ Hbut Hl1 Hrun) as (Hd & _ & Hother).
    split; [exact Hd|].
    intros taskId' Hne. rewrite (Hother _ Hne). cbn [w1 captionTasks].
    apply lookup_insert_ne. congruence.
Qed.

Lemma handleCaptionCreate_world (req : CreateRequest) (now0 now1 : Z) (w : World) :
  world (handleCaptionCreate req now0 now1 w) = sweep now0 w
  \/ exists provider a b c meta,
       world (handleCaptionCreate req now0 now1 w)
       = world (createFromMeta provider a b c meta (create_taskId req) now1 (sweep now0 w)).
Proof.
  unfold handleCaptionCreate.
  repeat match goal with
         | |- context [if ?b then _ else _] => destruct b
         | |- context [match ?x with _ => _ end] => destruct x
         end;
    first [left; reflexivity|right; do 5 eexists; reflexivity].
Qed.

Lemma Disciplined_start : Disciplined (mkWorld ∅ ∅).
Proof. intros taskId task Hl. cbn in Hl. rewrite lookup_empty in Hl. discriminate. Qed.

Lemma sweep_sub (now : Z) (w : World) (taskId : string) (task : CaptionTask) :
  captionTasks (sweep now w) !! taskId = Some task -> captionTasks w !! taskId = Some task.
Proof.
  intros Hl. cbn [sweep captionTasks] in Hl.
  apply cleanupCaptionTasks_lookup in Hl as [Hl _]. exact Hl.
Qed.

Lemma sweep_forward (now : Z) (w : World) : Forward w (sweep now w).
Proof. apply Forward_same. intros taskId task'. apply sweep_sub. Qed.

(** One turn of the event loop, seen from outside. In a world whose jobs
    keep the discipline of the adapters, the world after the turn keeps
    it too, and every task that is in the registry before and after the
    turn has moved forward along WAITING, RUNNING, terminal or stayed; a
    terminal status stays what it is. *)
Theorem turns_move_forward (w w' : World) :
  Disciplined w -> Step w w' -> Disciplined w' /\ Forward w w'.
Proof.
  intros Hw Hstep. destruct Hstep as [req now0 now1 w Hfresh Hnojob|now taskId w
                                     |req now0 now1 w|now taskId o w].
  - destruct (sweep_disciplined now0 w Hw) as [Hw0 Hsub].
    destruct (handleCaptionCreate_world req now0 now1 w)
      as [->|(provider & a & b & c & meta & ->)];
      [split; [exact Hw0|apply sweep_forward]|].
    assert (Hfresh0 : captionTasks (sweep now0 w) !! create_taskId req = None).
    { apply eq_None_not_Some. intros [t Ht]. apply Hsub in Ht. congruence. }
    destruct (createFromMeta_step provider a b c meta (create_taskId req) now1
                (sweep now0 w) Hw0 Hfresh0 Hnojob) as [Hd Hother].
    split; [exact Hd|].
    intros taskId task task' Hl Hl'.
    assert (Hne : taskId ≠ create_taskId req) by congruence.
    rewrite (Hother _ Hne) in Hl'. apply Hsub in Hl'.
    assert (task' = task) as -> by congruence. apply forward_refl.
  - cbn. unfold handleCaptionQuery.
    destruct (sweep_disciplined now w Hw) as [Hw0 _].
    destruct (Str.isEmpty taskId);
      [|destruct (captionTasks (sweep now w) !! taskId)];
      cbn [snd]; (split; [exact Hw0|apply sweep_forward]).
  - destruct (sweep_disciplined now0 w Hw) as [Hw0 Hsub].
    unfold handleCaptionCancel.
    destruct (negb (isPost (cancel_method req)));
      [cbn [snd]; split; [exact Hw0|apply sweep_forward]|].
    destruct (cancelAfterBody_step req now1 (sweep now0 w) Hw0) as (Hd & Hf & Hkeys).
    split; [exact Hd|].
    apply (Forward_after_sweep now0); [exact Hf|].
    intros taskId task' Hl' _. eapply Hkeys. exact Hl'.
  - apply resume_step. exact Hw.
Qed.

(** Under an aborted signal a job leaves its cancelled task as the
    cancel request wrote it: what a stage report writes, the [catch]
    writes back. *)
Lemma runJob_restores (now : Z) (dirty : bool) (a : Adapter) :
  Settles dirty a ->
  forall task writes orig,
    abort task = true ->
    (forall err, fail now err task = orig) ->
    (dirty = false -> task = orig) ->
    (runJob now a task writes).1.1 = orig.
Proof.
  induction 1 as [dirty err|dirty stage message k Hk IH|dirty k Hk IH|dirty k Hk IH
                 |dirty op k Hop Hk IH|op k Hop Hk IH];
    intros task writes orig Hab Hfail Hclean; cbn [runJob].
  - apply Hfail.
  - apply IH; [exact Hab|exact Hfail|discriminate].
  - rewrite Hab. apply IH; assumption.
  - apply IH; assumption.
  - rewrite Hop, Hab. cbn [andb]. apply IH; assumption.
  - rewrite Hop. cbn [andb fst]. apply Hclean. reflexivity.
Qed.

Lemma advance_restores (now : Z) (taskId : string) (a : Adapter) (w : World)
    (task : CaptionTask) :
  captionTasks w !! taskId = Some (cancelNow now task) ->
  Settles false a ->
  captionTasks (advance now taskId a w) !! taskId = Some (cancelNow now task).
Proof.
  intros Hl Hs. unfold advance. rewrite Hl.
  pose proof (runJob_restores now false a Hs (cancelNow now task) [] (cancelNow now task)
                eq_refl (fun err => fail_cancelNow now err task) (fun _ => eq_refl)) as Hr.
  destruct (runJob now a (cancelNow now task) []) as [[task' writes] j].
  cbn [fst] in Hr. subst task'. cbn [captionTasks]. apply lookup_insert_eq.
Qed.

End DisciplineFacts.

(** ** Cancelling *)

Section CancelFacts.
Context `{Platform}.
Import Tasks.

(** C9. A cancel request that names a task the registry holds once the
    opening sweep is done. If the task is WAITING or RUNNING, the reply
    shows it CANCELLED, at stage cancelled, with the fixed cancellation
    error, and the task's cancellation handle is signalled; with jobs
    that keep the discipline of the adapters, the registry holds the
    task exactly so when the turn ends. If the task is terminal, the
    reply is its snapshot as it stood and nothing is written; asking
    again within the hour of its last write gives the same reply and
    leaves the task as it is. *)
Theorem handleCaptionCancel_registered (req : CancelRequest) (now0 now1 : Z) (w : World)
    (task : CaptionTask) :
  isPost (cancel_method req) = true ->
  requestedTaskId req ≠ "" ->
  captionTasks (sweep now0 w) !! requestedTaskId req = Some task ->
  (status task = WAITING \/ status task = RUNNING ->
     (handleCaptionCancel req now0 now1 w).1
     = mkReply 200
         (SnapshotBody
            (mkSnapshot (id task) CANCELLED cancelled (Some "已取消") (transcript task)
               (Some "已取消请求。") (publicFileUrl task) (createdAt task) now1))
     /\ (exists task',
           captionTasks (handleCaptionCancel req now0 now1 w).2 !! requestedTaskId req
           = Some task'
           /\ abort task' = true)
     /\ (Disciplined w ->
         captionTasks (handleCaptionCancel req now0 now1 w).2 !! requestedTaskId req
         = Some (mkTask (id task) CANCELLED cancelled (Some "已取消") (createdAt task) now1
                   (transcript task) (Some "已取消请求。") (publicFileUrl task) true)))
  /\ (terminal (status task) ->
        handleCaptionCancel req now0 now1 w
        = (mkReply 200 (SnapshotBody (snapshotCaptionTask task)), sweep now0 w)
        /\ forall now2 now3,
             now2 - updatedAt task <= 3600000 ->
             handleCaptionCancel req now2 now3 (sweep now0 w)
             = (mkReply 200 (SnapshotBody (snapshotCaptionTask task)),
                sweep now2 (sweep now0 w))
             /\ captionTasks (sweep now2 (sweep now0 w)) !! requestedTaskId req = Some task).
Proof.
  intros Hpost Hid Hl.
  assert (Hcancel : forall now0' w',
            handleCaptionCancel req now0' now1 w' = cancelAfterBody req now1 (sweep now0' w')).
  { intros. unfold handleCaptionCancel. rewrite Hpost. reflexivity. }
  apply isEmpty_false in Hid. split.
  - intros Hlive. rewrite Hcancel. unfold cancelAfterBody. rewrite Hid, Hl.
    assert (Hb : bool_decide (status task = RUNNING) || bool_decide (status task = WAITING)
                 = true).
    { destruct Hlive as [Hs | Hs]; rewrite Hs; reflexivity. }
    rewrite Hb. cbn [fst snd]. split; [reflexivity|split].
    + apply (wake_keeps_handle _ _ _ (cancelNow now1 task)).
      cbn [captionTasks]. apply lookup_insert_eq.
    + intros Hw. change (mkTask _ _ _ _ _ _ _ _ _ _) with (cancelNow now1 task).
      destruct (sweep_disciplined now0 w Hw) as [Hw0 _].
      pose proof (Hw0 _ _ Hl) as Hok. unfold jobOk in Hok.
      unfold wake. cbn [jobs sweep] in *.
      destruct (jobs w !! requestedTaskId req) as [[op k]|];
        [|cbn [captionTasks]; apply lookup_insert_eq].
      destruct (wakesOnAbort op) eqn:Hwake; [|cbn [captionTasks]; apply lookup_insert_eq].
      destruct (abort task).
      { exfalso. destruct Hok as [Hs _]. destruct Hlive as [Hs'|Hs']; congruence. }
      destruct Hok as [_ Ht].
      apply advance_restores; [cbn [captionTasks]; apply lookup_insert_eq|].
      inversion Ht; subst.
      match goal with Hs : Settles false (Await op k) |- _ =>
        inversion Hs; subst; [assumption|congruence] end.
  - intros Hterm.
    assert (Hnoop : forall w', captionTasks w' !! requestedTaskId req = Some task ->
              cancelAfterBody req now1 w'
              = (mkReply 200 (SnapshotBody (snapshotCaptionTask task)), w')).
    { intros w' Hl'. unfold cancelAfterBody.
      rewrite Hid, Hl', (not_live_terminal _ Hterm). reflexivity. }
    split; [rewrite Hcancel; apply Hnoop; exact Hl|].
    intros now2 now3 Hfresh.
    assert (Hl2 : captionTasks (sweep now2 (sweep now0 w)) !! requestedTaskId req = Some task).
    { cbn [sweep captionTasks]. apply cleanupCaptionTasks_lookup.
      split; [exact Hl|]. intros [_ Hold]. lia. }
    split; [|exact Hl2].
    unfold handleCaptionCancel. rewrite Hpost. cbn [negb].
    unfold cancelAfterBody.
    rewrite Hid, Hl2, (not_live_terminal _ Hterm). reflexivity.
Qed.

End CancelFacts.

Lemma handleCaptionCancel_registered_witness :
  (Tasks.handleCaptionCancel (H := Ref.platform) Scenario.cancelRequest 1800 1800
     Scenario.removing).1
  = Tasks.mkReply 200
      (Tasks.SnapshotBody
         (Tasks.mkSnapshot "t1" Tasks.CANCELLED Tasks.cancelled (Some "已取消") None
            (Some "已取消请求。") None 1000 1800)).
Proof.
  assert (Hid : Tasks.requestedTaskId (H := Ref.platform) Scenario.cancelRequest ≠ "")
    by (vm_compute; discriminate).
  assert (Hl : Tasks.captionTasks (Tasks.sweep 1800 Scenario.removing)
               !! Tasks.requestedTaskId (H := Ref.platform) Scenario.cancelRequest
               = Some (Tasks.mkTask "t1" Tasks.RUNNING Tasks.uploading (Some "提取音频中...")
                         1000 1200 None None None false))
    by (vm_compute; reflexivity).
  destruct (handleCaptionCancel_registered Scenario.cancelRequest 1800 1800
              Scenario.removing _ eq_refl Hid Hl) as [Hlive _].
  destruct (Hlive (or_intror eq_refl)) as [Hreply _]. exact Hreply.
Defined.



Lemma turns_move_forward_witness :
  (Disciplined Scenario.afterCancel /\ Forward Scenario.removing Scenario.afterCancel)
  /\ Forward Scenario.afterCancel (Tasks.resume 1900 "t1" Tasks.Completes Scenario.afterCancel).
Proof.
  assert (Hcreated : Disciplined Scenario.created).
  { exact (proj1 (@turns_move_forward Ref.platform Scenario.nothing _ Disciplined_start
                    (@Step_create Ref.platform Scenario.createRequest 1000 1000
                       Scenario.nothing eq_refl eq_refl))). }
  assert (Hresume : forall now taskId o w,
            Disciplined w -> Disciplined (Tasks.resume now taskId o w)).
  { intros now taskId o w Hw.
    exact (proj1 (@turns_move_forward Ref.platform w _ Hw
                    (@Step_resume Ref.platform now taskId o w))). }
  assert (Hremoving : Disciplined Scenario.removing).
  { unfold Scenario.removing, Scenario.transcoded, Scenario.downloaded.
    repeat apply Hresume. exact Hcreated. }
  assert (Hcancel : Disciplined Scenario.afterCancel
                    /\ Forward Scenario.removing Scenario.afterCancel).
  { apply (@turns_move_forward Ref.platform Scenario.removing Scenario.afterCancel Hremoving).
    apply Step_cancel. }
  split; [exact Hcancel|].
  apply (@turns_move_forward Ref.platform Scenario.afterCancel _ (proj1 Hcancel)).
  apply Step_resume.
Defined.

Example resumed_after_cancel :
  Tasks.status
  <$> (Tasks.captionTasks (Tasks.resume 1900 "t1" Tasks.Completes Scenario.afterCancel)
       !! "t1")
  = Some Tasks.CANCELLED.
Proof. vm_compute. reflexivity. Qed.

(** ** Strings *)

Section StringFacts.

Lemma chars_ofChars (l : list ascii) : Str.chars (Str.ofChars l) = l.
Proof. apply list_ascii_of_string_of_list_ascii. Qed.

Lemma ofChars_chars (s : string) : Str.ofChars (Str.chars s) = s.
Proof. apply string_of_list_ascii_of_string. Qed.

Lemma chars_app (a b : string) : Str.chars (a +:+ b) = (Str.chars a ++ Str.chars b)%list.
Proof.
  unfold Str.chars. induction a as [|c a IH]; [reflexivity|].
  change (String c a +:+ b) with (String c (a +:+ b)).
  cbn [list_ascii_of_string app]. f_equal. exact IH.
Qed.

Lemma ofChars_app (a b : list ascii) :
  Str.ofChars (a ++ b)%list = Str.ofChars a +:+ Str.ofChars b.
Proof.
  unfold Str.ofChars. induction a as [|c a IH]; [reflexivity|].
  cbn [app string_of_list_ascii].
  change (String c (string_of_list_ascii a) +:+ string_of_list_ascii b)
    with (String c (string_of_list_ascii a +:+ string_of_list_ascii b)).
  f_equal. exact IH.
Qed.

Lemma chars_inj (a b : string) : Str.chars a = Str.chars b -> a = b.
Proof. intros Hab. rewrite <- (ofChars_chars a), <- (ofChars_chars b), Hab. reflexivity. Qed.

Lemma prefixChars_spec (p l : list ascii) :
  Str.prefixChars p l = true <-> exists rest, l = (p ++ rest)%list.
Proof.
  revert l. induction p as [|a p IH]; intros l; cbn.
  - split; [eauto|reflexivity].
  - destruct l as [|b l]; [split; [discriminate|intros [rest [=]]]|].
    rewrite andb_true_iff, IH. split.
    + intros [Hab [rest ->]]. apply Ascii.eqb_eq in Hab as ->. eauto.
    + intros [rest [= -> ->]]. split; [apply Ascii.eqb_refl|eauto].
Qed.

Lemma prefixChars_app (p rest : list ascii) : Str.prefixChars p (p ++ rest)%list = true.
Proof. apply prefixChars_spec. eauto. Qed.

Lemma endsWith_spec (s suffix : string) :
  Str.endsWith s suffix = true <-> exists front, s = front +:+ suffix.
Proof.
  unfold Str.endsWith. rewrite prefixChars_spec. split.
  - intros [rest Hrev]. exists (Str.ofChars (rev rest)).
    apply chars_inj. rewrite chars_app, chars_ofChars.
    apply (f_equal (@rev ascii)) in Hrev.
    rewrite rev_involutive, rev_app_distr, rev_involutive in Hrev. exact Hrev.
  - intros [front ->]. exists (rev (Str.chars front)).
    rewrite chars_app, rev_app_distr. reflexivity.
Qed.

(** *** What [new URL] strips *)

Lemma dropSpaces_app_kept (l rest : list ascii) (c : ascii) :
  Url.isC0OrSpace c = false ->
  Url.dropSpaces (l ++ c :: rest)%list = (Url.dropSpaces l ++ c :: rest)%list
  \/ Url.dropSpaces l = [].
Proof.
  intros Hc. induction l as [|a l IH]; cbn; [right; reflexivity|].
  destruct (Url.isC0OrSpace a); [exact IH|left; reflexivity].
Qed.

Lemma dropSpaces_head (l : list ascii) :
  match Url.dropSpaces l with
  | c :: _ => Url.isC0OrSpace c = false
  | [] => True
  end.
Proof.
  induction l as [|a l IH]; cbn; [exact I|].
  destruct (Url.isC0OrSpace a) eqn:Ha; [exact IH|exact Ha].
Qed.

Lemma dropSpaces_kept (c : ascii) (l : list ascii) :
  Url.isC0OrSpace c = false -> Url.dropSpaces (c :: l) = c :: l.
Proof. intros Hc. cbn. rewrite Hc. reflexivity. Qed.

Lemma dropSpaces_idem (l : list ascii) :
  Url.dropSpaces (Url.dropSpaces l) = Url.dropSpaces l.
Proof.
  pose proof (dropSpaces_head l) as Hh.
  destruct (Url.dropSpaces l) as [|c l']; [reflexivity|].
  apply dropSpaces_kept. exact Hh.
Qed.

Lemma dropSpaces_rev_keeps_head (c : ascii) (l' : list ascii) :
  Url.isC0OrSpace c = false ->
  exists l'', rev (Url.dropSpaces (rev (c :: l'))) = c :: l''.
Proof.
  intros Hc. cbn [rev].
  destruct (dropSpaces_app_kept (rev l') [] c Hc) as [Heq|Hnil].
  - rewrite Heq, rev_app_distr. cbn. eauto.
  - assert (Hd : Url.dropSpaces (rev l' ++ [c]) = [c]).
    { clear - Hc Hnil. induction (rev l') as [|a r IH]; cbn in *.
      - rewrite Hc. reflexivity.
      - destruct (Url.isC0OrSpace a); [apply IH, Hnil|discriminate]. }
    rewrite Hd. cbn. eauto.
Qed.

Lemma strip_idem (s : string) : Url.strip (Url.strip s) = Url.strip s.
Proof.
  unfold Url.strip. rewrite chars_ofChars. f_equal.
  set (m := Url.dropSpaces (Str.chars s)).
  pose proof (dropSpaces_head (Str.chars s)) as Hm. fold m in Hm.
  destruct m as [|c m']; [reflexivity|].
  destruct (dropSpaces_rev_keeps_head c m' Hm) as [l'' Hl''].
  rewrite Hl''. rewrite dropSpaces_kept by exact Hm.
  rewrite <- Hl'', rev_involutive, dropSpaces_idem. reflexivity.
Qed.

(** *** Dropping what a string begins with *)

Lemma seqAt_Some (pats : list (list ascii)) (l : list ascii) (n : nat) :
  Str.seqAt pats l = S n ->
  exists w rest, In w pats /\ l = (w ++ rest)%list /\ length w = S n.
Proof.
  unfold Str.seqAt. destruct (List.find _ pats) as [w|] eqn:Hfind; [|discriminate].
  intros Hn. apply List.find_some in Hfind as [Hin Hpre].
  apply prefixChars_spec in Hpre as [rest ->]. exists w, rest. auto.
Qed.

Lemma seqAt_None (pats : list (list ascii)) (l : list ascii) :
  Forall (fun w => w <> []) pats ->
  Str.seqAt pats l = 0%nat ->
  forall w rest, In w pats -> l <> (w ++ rest)%list.
Proof.
  unfold Str.seqAt. intros Hne. destruct (List.find _ pats) as [w|] eqn:Hfind.
  - apply List.find_some in Hfind as [Hin _]. intros Hlen.
    apply (proj1 (List.Forall_forall _ _) Hne) in Hin. destruct w; [contradiction|discriminate].
  - intros _ w rest Hin ->. apply (List.find_none _ _ Hfind) in Hin.
    rewrite prefixChars_app in Hin. discriminate.
Qed.

Lemma prefix_of_same (w1 w2 r1 r2 : list ascii) :
  (w1 ++ r1 = w2 ++ r2)%list ->
  Str.prefixChars w1 w2 = true \/ Str.prefixChars w2 w1 = true.
Proof.
  revert w2. induction w1 as [|a w1 IH]; intros [|b w2]; cbn; auto.
  intros [= -> Hrest]. rewrite Ascii.eqb_refl. cbn. apply IH, Hrest.
Qed.

Lemma seqAt_is (pats : list (list ascii)) (w rest : list ascii) :
  prefixFree pats -> In w pats -> Str.seqAt pats (w ++ rest) = length w.
Proof.
  intros [Hne Hfree] Hin. unfold Str.seqAt.
  destruct (List.find _ pats) as [w'|] eqn:Hfind.
  - apply List.find_some in Hfind as [Hin' Hpre].
    apply prefixChars_spec in Hpre as [rest' Heq].
    destruct (prefix_of_same _ _ _ _ Heq) as [Hp|Hp].
    + rewrite (Hfree _ _ Hin Hin' Hp). reflexivity.
    + rewrite (Hfree _ _ Hin' Hin Hp). reflexivity.
  - apply (List.find_none _ _ Hfind) in Hin. rewrite prefixChars_app in Hin. discriminate.
Qed.

Lemma dropSeqs_skip (pats : list (list ascii)) (l : list ascii) :
  forall skip, Str.dropSeqs pats skip l = Str.dropSeqs pats 0 (drop skip l).
Proof.
  induction l as [|c l IH]; intros [|skip]; cbn [Str.dropSeqs drop]; try reflexivity.
  apply IH.
Qed.

Lemma dropSeqs_fixed (pats : list (list ascii)) (l : list ascii) :
  Str.seqAt pats l = 0%nat -> Str.dropSeqs pats 0 l = l.
Proof. intros Hl. destruct l; cbn [Str.dropSeqs]; [reflexivity|]. rewrite Hl. reflexivity. Qed.

Lemma dropSeqs_step (pats : list (list ascii)) (w rest : list ascii) :
  prefixFree pats -> In w pats ->
  Str.dropSeqs pats 0 (w ++ rest) = Str.dropSeqs pats 0 rest.
Proof.
  intros Hfree Hin. pose proof (seqAt_is pats w rest Hfree Hin) as Hat.
  destruct Hfree as [Hne _]. apply (proj1 (List.Forall_forall _ _) Hne) in Hin.
  destruct w as [|c w]; [contradiction|]. cbn [app Str.dropSeqs] in *.
  rewrite Hat. cbn [length]. rewrite dropSeqs_skip, drop_app_length. reflexivity.
Qed.

(** How [dropSeqs] goes: [l] is members of [pats], and then what is
    left, which begins with no member. *)
Lemma dropSeqs_spec (pats : list (list ascii)) (l : list ascii) :
  Forall (fun w => w <> []) pats ->
  exists ws,
    Forall (fun w => In w pats) ws
    /\ l = (concat ws ++ Str.dropSeqs pats 0 l)%list
    /\ Str.seqAt pats (Str.dropSeqs pats 0 l) = 0%nat.
Proof.
  intros Hne. remember (length l) as n eqn:Hn. revert l Hn.
  induction n as [n IH] using lt_wf_ind. intros l Hn.
  destruct (Str.seqAt pats l) as [|k] eqn:Hat.
  - exists []. rewrite (dropSeqs_fixed _ _ Hat). repeat split; [constructor|exact Hat].
  - destruct (seqAt_Some _ _ _ Hat) as (w & rest & Hin & -> & Hlen).
    destruct w as [|c w]; [discriminate|].
    assert (Hstep : Str.dropSeqs pats 0 ((c :: w) ++ rest) = Str.dropSeqs pats 0 rest).
    { cbn [app Str.dropSeqs] in *. rewrite Hat. injection Hlen as <-.
      rewrite dropSeqs_skip, drop_app_length. reflexivity. }
    rewrite Hstep.
    destruct (IH (length rest)) with (l := rest) as (ws & Hws & Hrest & Hclean);
      [subst n; rewrite length_app; cbn; lia|reflexivity|].
    exists ((c :: w) :: ws). split; [constructor; assumption|split; [|exact Hclean]].
    cbn [concat]. rewrite <- app_assoc. f_equal. exact Hrest.
Qed.

Lemma dropSeqs_suffix (pats : list (list ascii)) (l : list ascii) :
  exists front, l = (front ++ Str.dropSeqs pats 0 l)%list.
Proof.
  remember (length l) as n eqn:Hn. revert l Hn.
  induction n as [n IH] using lt_wf_ind. intros l Hn.
  destruct l as [|c l]; [exists []; reflexivity|]. cbn [Str.dropSeqs].
  destruct (Str.seqAt pats (c :: l)) as [|k]; [exists []; reflexivity|].
  rewrite dropSeqs_skip.
  destruct (IH (length (drop k l))) with (l := drop k l) as [front Hfront];
    [subst n; rewrite length_drop; cbn; lia|reflexivity|].
  exists (c :: take k l ++ front)%list. cbn [app]. f_equal.
  rewrite <- app_assoc, <- Hfront, take_drop. reflexivity.
Qed.

Lemma dropSeqs_clean (pats : list (list ascii)) (l : list ascii) :
  Forall (fun w => w <> []) pats ->
  Str.seqAt pats (Str.dropSeqs pats 0 l) = 0%nat.
Proof. intros Hne. destruct (dropSeqs_spec pats l Hne) as (ws & _ & _ & Hclean). exact Hclean. Qed.

Lemma dropSeqs_idem (pats : list (list ascii)) (l : list ascii) :
  Forall (fun w => w <> []) pats ->
  Str.dropSeqs pats 0 (Str.dropSeqs pats 0 l) = Str.dropSeqs pats 0 l.
Proof. intros Hne. apply dropSeqs_fixed, dropSeqs_clean, Hne. Qed.

(** What begins with no member of [pats] has no beginning that does. *)
Lemma seqAt_prefix (pats : list (list ascii)) (a b : list ascii) :
  Forall (fun w => w <> []) pats ->
  Str.seqAt pats (a ++ b) = 0%nat -> Str.seqAt pats a = 0%nat.
Proof.
  intros Hne Hab. destruct (Str.seqAt pats a) as [|n] eqn:Ha; [reflexivity|].
  destruct (seqAt_Some _ _ _ Ha) as (w & rest & Hin & -> & _).
  exfalso. apply (seqAt_None pats _ Hne Hab w (rest ++ b) Hin).
  rewrite <- app_assoc. reflexivity.
Qed.

(** A member of [pats] that begins in a stretch ends in it, where what
    follows the stretch begins with a byte that no member has after its
    first. *)
Lemma seqAt_straddle (pats : list (list ascii)) (a : list ascii) (c : ascii)
    (x : list ascii) :
  Forall (fun w => w <> []) pats ->
  a <> [] ->
  ~ In c (tailBytes pats) ->
  Str.seqAt pats a = 0%nat ->
  Str.seqAt pats (a ++ c :: x) = 0%nat.
Proof.
  intros Hne Ha Hc Hat. destruct (Str.seqAt pats (a ++ c :: x)) as [|n] eqn:Hn; [reflexivity|].
  exfalso. destruct (seqAt_Some _ _ _ Hn) as (w & rest & Hin & Heq & _).
  apply app_eq_app in Heq as [l [[-> Hrest]|[-> Hrest]]].
  - apply (seqAt_None pats _ Hne Hat w l Hin). reflexivity.
  - destruct l as [|y l].
    + rewrite app_nil_r in *. apply (seqAt_None pats _ Hne Hat a [] Hin).
      rewrite app_nil_r. reflexivity.
    + injection Hrest as <- _. apply Hc. unfold tailBytes. apply in_concat.
      exists (drop 1 (a ++ c :: l)). split; [apply in_map, Hin|].
      destruct a as [|a0 a]; [contradiction|]. cbn. apply in_or_app. right. left. reflexivity.
Qed.

(** Dropping from a stretch with something left, and from the stretch
    with more after it. *)
Lemma dropSeqs_app (pats : list (list ascii)) (c : ascii) (x : list ascii) :
  prefixFree pats ->
  ~ In c (tailBytes pats) ->
  forall a,
    Str.dropSeqs pats 0 a <> [] ->
    Str.dropSeqs pats 0 (a ++ c :: x) = (Str.dropSeqs pats 0 a ++ c :: x)%list.
Proof.
  intros Hfree Hc a. pose proof Hfree as [Hne _].
  remember (length a) as n eqn:Hn. revert a Hn.
  induction n as [n IH] using lt_wf_ind. intros a Hn Hleft.
  destruct (Str.seqAt pats a) as [|k] eqn:Hat.
  - rewrite (dropSeqs_fixed _ _ Hat) in *.
    apply dropSeqs_fixed, seqAt_straddle; assumption.
  - destruct (seqAt_Some _ _ _ Hat) as (w & rest & Hin & -> & Hlen).
    rewrite (dropSeqs_step pats w rest Hfree Hin) in *.
    rewrite <- app_assoc, (dropSeqs_step pats w _ Hfree Hin).
    apply (IH (length rest)); [|reflexivity|exact Hleft].
    subst n. rewrite length_app. lia.
Qed.

(** *** White space *)

Lemma whites_free : prefixFree Str.whites.
Proof.
  split.
  - repeat constructor; discriminate.
  - assert (Hall : Forall (fun w1 => Forall (fun w2 =>
                      Str.prefixChars w1 w2 = true -> w1 = w2) Str.whites) Str.whites).
    { repeat constructor; vm_compute; first [discriminate|reflexivity]. }
    intros w1 w2 H1 H2.
    apply (proj1 (List.Forall_forall _ _) (proj1 (List.Forall_forall _ _) Hall w1 H1) w2 H2).
Qed.

Lemma revWhites_free : prefixFree revWhites.
Proof.
  split.
  - repeat constructor; discriminate.
  - assert (Hall : Forall (fun w1 => Forall (fun w2 =>
                      Str.prefixChars w1 w2 = true -> w1 = w2) revWhites) revWhites).
    { repeat constructor; vm_compute; first [discriminate|reflexivity]. }
    intros w1 w2 H1 H2.
    apply (proj1 (List.Forall_forall _ _) (proj1 (List.Forall_forall _ _) Hall w1 H1) w2 H2).
Qed.

Lemma whites_nonempty : Forall (fun w : list ascii => w <> []) Str.whites.
Proof. apply whites_free. Qed.

Lemma revWhites_nonempty : Forall (fun w : list ascii => w <> []) revWhites.
Proof. apply revWhites_free. Qed.

(** The bytes after the first of a white-space character, and those
    before its last, are none of ASCII. *)
Lemma whites_tails (c : ascii) :
  In c (tailBytes Str.whites) \/ In c (tailBytes revWhites) ->
  (128 <=? nat_of_ascii c)%nat = true.
Proof.
  assert (Hall : Forall (fun c => (128 <=? nat_of_ascii c)%nat = true)
                   (tailBytes Str.whites ++ tailBytes revWhites)).
  { repeat constructor. }
  intros Hin. apply (proj1 (List.Forall_forall _ _) Hall). apply in_or_app. exact Hin.
Qed.

(** No white-space character begins with a byte that another has after
    its first. *)
Lemma whites_heads (w : list ascii) (c : ascii) (rest : list ascii) :
  In w Str.whites -> w = c :: rest -> ~ In c (tailBytes Str.whites).
Proof.
  assert (Hall : Forall (fun w => match w with
                                  | c :: _ => forallb (fun t => negb (Ascii.eqb t c))
                                                (tailBytes Str.whites) = true
                                  | [] => True
                                  end) Str.whites).
  { repeat constructor. }
  intros Hin -> Htail. apply (proj1 (List.Forall_forall _ _) Hall) in Hin.
  apply (proj1 (forallb_forall _ _) Hin) in Htail. rewrite Ascii.eqb_refl in Htail.
  discriminate.
Qed.

Lemma isWhite_whites (c : ascii) : Str.isWhite c = true <-> In [c] Str.whites.
Proof.
  split.
  - destruct c as [[] [] [] [] [] [] [] []]; try discriminate; intros _; vm_compute; tauto.
  - intros Hin.
    assert (Hall : Forall (fun w => match w with
                                    | [c] => Str.isWhite c = true
                                    | _ => True
                                    end) Str.whites).
    { repeat constructor. }
    apply (proj1 (List.Forall_forall _ _) Hall) in Hin. exact Hin.
Qed.

Lemma whiteAt_Some (l : list ascii) (n : nat) :
  Str.whiteAt l = S n ->
  exists w rest, In w Str.whites /\ l = (w ++ rest)%list /\ length w = S n.
Proof. apply seqAt_Some. Qed.

Lemma whiteAt_is (w rest : list ascii) :
  In w Str.whites -> Str.whiteAt (w ++ rest) = length w.
Proof. apply seqAt_is, whites_free. Qed.

(** A white-space character begins with an ASCII white byte, which is
    the whole of it, or with a byte that is not of ASCII. *)
Lemma whiteAt_head (c : ascii) (x : list ascii) :
  Str.whiteAt (c :: x) <> 0%nat ->
  Str.isWhite c = true \/ (128 <=? nat_of_ascii c)%nat = true.
Proof.
  intros Hat. destruct (Str.whiteAt (c :: x)) as [|n] eqn:Hn; [contradiction|].
  destruct (whiteAt_Some _ _ Hn) as (w & rest & Hin & Heq & Hlen).
  assert (Hall : Forall (fun w => match w with
                                  | c :: _ => Str.isWhite c = true
                                              \/ (128 <=? nat_of_ascii c)%nat = true
                                  | [] => True
                                  end) Str.whites).
  { repeat (constructor; [first [left; reflexivity|right; reflexivity]|]). constructor. }
  apply (proj1 (List.Forall_forall _ _) Hall) in Hin.
  destruct w as [|c' w]; [discriminate|]. injection Heq as ->. exact Hin.
Qed.

(** *** [trim] *)

Lemma dropWhite_suffix (l : list ascii) : exists front, l = (front ++ Str.dropWhite l)%list.
Proof. apply dropSeqs_suffix. Qed.

Lemma dropWhiteEnd_prefix (l : list ascii) : exists back, l = (Str.dropWhiteEnd l ++ back)%list.
Proof.
  unfold Str.dropWhiteEnd. destruct (dropSeqs_suffix revWhites (rev l)) as [front Hfront].
  exists (rev front). rewrite <- rev_app_distr. fold revWhites. rewrite <- Hfront.
  symmetry. apply rev_involutive.
Qed.

Lemma dropWhite_clean (l : list ascii) : Str.whiteAt (Str.dropWhite l) = 0%nat.
Proof. apply dropSeqs_clean, whites_nonempty. Qed.

Lemma dropWhite_fixed (l : list ascii) : Str.whiteAt l = 0%nat -> Str.dropWhite l = l.
Proof. apply dropSeqs_fixed. Qed.

Lemma dropWhiteEnd_fixed (l : list ascii) :
  Str.seqAt revWhites (rev l) = 0%nat -> Str.dropWhiteEnd l = l.
Proof.
  intros Hl. unfold Str.dropWhiteEnd. fold revWhites. rewrite (dropSeqs_fixed _ _ Hl).
  apply rev_involutive.
Qed.

Lemma dropWhiteEnd_clean (l : list ascii) :
  Str.seqAt revWhites (rev (Str.dropWhiteEnd l)) = 0%nat.
Proof.
  unfold Str.dropWhiteEnd. fold revWhites. rewrite rev_involutive.
  apply dropSeqs_clean, revWhites_nonempty.
Qed.

Lemma dropWhite_idem (l : list ascii) : Str.dropWhite (Str.dropWhite l) = Str.dropWhite l.
Proof. apply dropSeqs_idem, whites_nonempty. Qed.

Lemma dropWhiteEnd_idem (l : list ascii) :
  Str.dropWhiteEnd (Str.dropWhiteEnd l) = Str.dropWhiteEnd l.
Proof. apply dropWhiteEnd_fixed, dropWhiteEnd_clean. Qed.

(** What [trim] leaves begins and ends with no white space: trimming it
    again changes nothing. *)
Lemma trim_chars_idem (l : list ascii) :
  let t := Str.dropWhiteEnd (Str.dropWhite l) in
  Str.dropWhiteEnd (Str.dropWhite t) = t.
Proof.
  cbn zeta. set (m := Str.dropWhite l).
  assert (Hfront : Str.dropWhite (Str.dropWhiteEnd m) = Str.dropWhiteEnd m).
  { apply dropWhite_fixed. destruct (dropWhiteEnd_prefix m) as [back Hback].
    apply (seqAt_prefix Str.whites _ back whites_nonempty). rewrite <- Hback.
    apply dropWhite_clean. }
  rewrite Hfront. apply dropWhiteEnd_idem.
Qed.

Lemma trim_idem (s : string) : Str.trim (Str.trim s) = Str.trim s.
Proof.
  unfold Str.trim. rewrite chars_ofChars. f_equal. apply trim_chars_idem.
Qed.

(** A string without white space at either end is its own trim. *)
Lemma trim_clean (l : list ascii) :
  Str.dropWhite l = l -> Str.dropWhiteEnd l = l ->
  Str.trim (Str.ofChars l) = Str.ofChars l.
Proof.
  intros Hl Hr. unfold Str.trim. rewrite chars_ofChars, Hl, Hr. reflexivity.
Qed.

(** What [trim] leaves stands in the string. *)
Lemma trim_infix (l : list ascii) :
  exists before after,
    l = (before ++ Str.dropWhiteEnd (Str.dropWhite l) ++ after)%list.
Proof.
  destruct (dropWhite_suffix l) as [before Hbefore].
  destruct (dropWhiteEnd_prefix (Str.dropWhite l)) as [after Hafter].
  exists before, after. rewrite <- Hafter. exact Hbefore.
Qed.

Lemma forallb_app_true (f : ascii -> bool) (a b : list ascii) :
  forallb f (a ++ b) = true <-> forallb f a = true /\ forallb f b = true.
Proof. rewrite forallb_app, andb_true_iff. reflexivity. Qed.

Lemma trim_forallb (f : ascii -> bool) (l : list ascii) :
  forallb f l = true -> forallb f (Str.chars (Str.trim (Str.ofChars l))) = true.
Proof.
  intros Hl. unfold Str.trim. rewrite !chars_ofChars.
  destruct (trim_infix l) as (before & after & Heq). rewrite Heq in Hl.
  apply forallb_app_true in Hl as [_ Hl]. apply forallb_app_true in Hl as [Hl _]. exact Hl.
Qed.

(** *** Stretches without white space *)

Lemma whiteFree_suffix (a b : list ascii) :
  Re.whiteFree (a ++ b) = true -> Re.whiteFree b = true.
Proof.
  induction a as [|c a IH]; [intros H; exact H|]. cbn [app Re.whiteFree].
  intros H. apply andb_true_iff in H as [_ H]. exact (IH H).
Qed.

Lemma whiteFree_prefix (a b : list ascii) :
  Re.whiteFree (a ++ b) = true -> Re.whiteFree a = true.
Proof.
  induction a as [|c a IH]; [reflexivity|]. cbn [app Re.whiteFree].
  intros H. apply andb_true_iff in H as [Hc H]. rewrite (IH H), andb_true_r.
  apply Nat.eqb_eq in Hc. apply Nat.eqb_eq.
  apply (seqAt_prefix Str.whites (c :: a) b whites_nonempty). exact Hc.
Qed.

(** No white-space character stands in a stretch that is free of them. *)
Lemma whiteFree_none (front w rest : list ascii) :
  In w Str.whites -> Re.whiteFree (front ++ w ++ rest) = false.
Proof.
  intros Hin. destruct (Re.whiteFree (front ++ w ++ rest)) eqn:Hfree; [|reflexivity].
  apply whiteFree_suffix in Hfree. pose proof (whiteAt_is w rest Hin) as Hat.
  pose proof (proj1 (List.Forall_forall _ _) whites_nonempty w Hin) as Hne.
  destruct w as [|c w]; [contradiction|]. cbn [app Re.whiteFree] in *.
  rewrite Hat in Hfree. discriminate.
Qed.

Lemma whiteFree_dropWhite (l : list ascii) : Re.whiteFree l = true -> Str.dropWhite l = l.
Proof.
  intros Hfree. apply dropWhite_fixed. destruct l as [|c l]; [reflexivity|].
  cbn [Re.whiteFree] in Hfree. apply andb_true_iff in Hfree as [Hc _].
  apply Nat.eqb_eq in Hc. exact Hc.
Qed.

Lemma whiteFree_dropWhiteEnd (l : list ascii) :
  Re.whiteFree l = true -> Str.dropWhiteEnd l = l.
Proof.
  intros Hfree. apply dropWhiteEnd_fixed.
  destruct (Str.seqAt revWhites (rev l)) as [|n] eqn:Hat; [reflexivity|].
  destruct (seqAt_Some _ _ _ Hat) as (w & rest & Hin & Heq & _).
  unfold revWhites in Hin. apply List.in_map_iff in Hin as (w' & <- & Hin).
  apply (f_equal (@rev ascii)) in Heq.
  rewrite rev_involutive, rev_app_distr, rev_involutive in Heq.
  assert (Heq' : l = (rev rest ++ w' ++ [])%list) by (rewrite app_nil_r; exact Heq).
  rewrite Heq', (whiteFree_none (rev rest) w' [] Hin) in Hfree. discriminate.
Qed.

Lemma whiteFree_trim (l : list ascii) :
  Re.whiteFree l = true -> Str.trim (Str.ofChars l) = Str.ofChars l.
Proof.
  intros Hfree. apply trim_clean; [apply whiteFree_dropWhite|apply whiteFree_dropWhiteEnd];
    exact Hfree.
Qed.

Lemma whiteFree_nonWhite (l : list ascii) :
  Re.whiteFree l = true -> forallb Re.nonWhite l = true.
Proof.
  induction l as [|c l IH]; [reflexivity|]. cbn [Re.whiteFree forallb].
  intros Hfree. apply andb_true_iff in Hfree as [Hc Hfree]. rewrite (IH Hfree), andb_true_r.
  unfold Re.nonWhite. destruct (Str.isWhite c) eqn:Hw; [|reflexivity].
  apply isWhite_whites in Hw. apply Nat.eqb_eq in Hc.
  change (c :: l) with ([c] ++ l)%list in Hc. rewrite (whiteAt_is [c] l Hw) in Hc.
  discriminate.
Qed.

(** Bytes of ASCII that are not white begin no white-space character. *)
Lemma whiteFree_ascii (a b : list ascii) :
  forallb (fun c => Re.nonWhite c && (nat_of_ascii c <? 128)%nat) a = true ->
  Re.whiteFree b = true -> Re.whiteFree (a ++ b) = true.
Proof.
  intros Ha Hb. induction a as [|c a IH]; [exact Hb|]. cbn [forallb] in Ha.
  apply andb_true_iff in Ha as [Hc Ha]. apply andb_true_iff in Hc as [Hw Hlow].
  cbn [app Re.whiteFree]. rewrite (IH Ha), andb_true_r. apply Nat.eqb_eq.
  destruct (Str.whiteAt (c :: a ++ b)) as [|n] eqn:Hat; [reflexivity|].
  destruct (whiteAt_head c (a ++ b)) as [Hwhite|Hhigh]; [rewrite Hat; discriminate| |].
  - unfold Re.nonWhite in Hw. rewrite Hwhite in Hw. discriminate.
  - apply Nat.ltb_lt in Hlow. apply Nat.leb_le in Hhigh. lia.
Qed.

Lemma ink_take (l : list ascii) : take (length (Re.ink l)) l = Re.ink l.
Proof.
  induction l as [|c l IH]; [reflexivity|]. cbn [Re.ink].
  destruct (Str.whiteAt (c :: l) =? 0)%nat; cbn; [f_equal; exact IH|reflexivity].
Qed.

Lemma ink_whiteFree (l : list ascii) : Re.whiteFree (Re.ink l) = true.
Proof.
  induction l as [|c l IH]; [reflexivity|]. cbn [Re.ink].
  destruct (Str.whiteAt (c :: l) =? 0)%nat eqn:Hc; [|reflexivity].
  cbn [Re.whiteFree]. rewrite IH, andb_true_r. apply Nat.eqb_eq in Hc. apply Nat.eqb_eq.
  rewrite <- (take_drop (length (Re.ink l)) l), ink_take in Hc.
  apply (seqAt_prefix Str.whites (c :: Re.ink l) (drop (length (Re.ink l)) l)
           whites_nonempty). exact Hc.
Qed.

Lemma ink_whole (l : list ascii) : length (Re.ink l) = length l -> Re.ink l = l.
Proof. intros Hlen. rewrite <- (ink_take l), Hlen. apply take_ge. lia. Qed.

(** A stretch free of white space is what [ink] takes where white
    space, or nothing, follows it. *)
Lemma ink_all (a b : list ascii) :
  Re.whiteFree a = true -> whiteStart b -> Re.ink (a ++ b) = a.
Proof.
  intros Ha Hb. induction a as [|c a IH]; cbn [app].
  - destruct b as [|c b]; [reflexivity|]. cbn [Re.ink].
    change ((0 <? Str.whiteAt (c :: b))%nat = true) in Hb. apply Nat.ltb_lt in Hb. destruct (Nat.eqb_spec (Str.whiteAt (c :: b)) 0); [lia|reflexivity].
  - cbn [Re.whiteFree] in Ha. apply andb_true_iff in Ha as [Hc Ha]. cbn [Re.ink].
    rewrite (IH Ha). apply Nat.eqb_eq in Hc.
    assert (Hat : Str.whiteAt (c :: a ++ b) = 0%nat).
    { destruct b as [|y b]; [rewrite app_nil_r; exact Hc|].
      change (c :: a ++ y :: b) with ((c :: a) ++ y :: b)%list.
      apply seqAt_straddle; [apply whites_nonempty|discriminate| |exact Hc].
      change ((0 <? Str.whiteAt (y :: b))%nat = true) in Hb. apply Nat.ltb_lt in Hb.
      destruct (Str.whiteAt (y :: b)) as [|n] eqn:Hy; [lia|].
      destruct (whiteAt_Some _ _ Hy) as (w & rest & Hin & Heq & _).
      pose proof (proj1 (List.Forall_forall _ _) whites_nonempty w Hin) as Hne.
      destruct w as [|y' w]; [contradiction|]. injection Heq as -> _.
      apply (whites_heads (y' :: w) y' w Hin eq_refl). }
    rewrite Hat. reflexivity.
Qed.

End StringFacts.

(** ** The Douyin guard *)

Section DouyinGuard.

Lemma checkDouyin_external (parsed : Url.URL) :
  Url.checkDouyin parsed = Return parsed ->
  Url.checkExternalHttp parsed = Return parsed.
Proof.
  unfold Url.checkDouyin, Url.checkExternalHttp.
  destruct (negb _ && negb _); [discriminate|].
  destruct (Url.safeUrlHost parsed) eqn:Hsafe; [intros _|discriminate].
  unfold Url.safeUrlHost in Hsafe.
  set (host := Str.toLowerCase (Url.hostname parsed)) in *.
  assert (Hlast : exists front, Str.chars host = (front ++ ["m"%char])%list).
  { rewrite !orb_true_iff in Hsafe.
    destruct Hsafe as [[[Heq|Hend]|Heq]|Hend].
    - apply String.eqb_eq in Heq as ->. exists (Str.chars "douyin.co"). reflexivity.
    - apply endsWith_spec in Hend as [front ->].
      exists (Str.chars (front +:+ ".douyin.co")). rewrite !chars_app, <- app_assoc.
      reflexivity.
    - apply String.eqb_eq in Heq as ->. exists (Str.chars "iesdouyin.co"). reflexivity.
    - apply endsWith_spec in Hend as [front ->].
      exists (Str.chars (front +:+ ".iesdouyin.co")). rewrite !chars_app, <- app_assoc.
      reflexivity. }
  destruct Hlast as [front Hlast].
  assert (Hne : forall name last,
            Str.chars name = (last ++ ["t"%char])%list
            \/ Str.chars name = (last ++ ["0"%char])%list
            \/ Str.chars name = (last ++ ["1"%char])%list
            \/ Str.chars name = (last ++ ["l"%char])%list ->
            host <> name).
  { intros name last Hname ->. rewrite Hlast in Hname.
    destruct Hname as [Hn|[Hn|[Hn|Hn]]]; apply app_inj_tail in Hn as [_ Hn]; discriminate. }
  assert (Hlocal : Str.endsWith host ".local" = false).
  { apply not_true_is_false. intros Hend. apply endsWith_spec in Hend as [front' Hend].
    apply (Hne (front' +:+ ".local") (Str.chars (front' +:+ ".loca"))); [|exact Hend].
    right. right. right. rewrite !chars_app, <- app_assoc. reflexivity. }
  rewrite Hlocal.
  rewrite (proj2 (String.eqb_neq host "localhost")) by
    (apply (Hne _ (Str.chars "localhos")); left; reflexivity).
  rewrite (proj2 (String.eqb_neq host "0.0.0.0")) by
    (apply (Hne _ (Str.chars "0.0.0.")); right; left; reflexivity).
  rewrite (proj2 (String.eqb_neq host "127.0.0.1")) by
    (apply (Hne _ (Str.chars "127.0.0.")); right; right; left; reflexivity).
  rewrite (proj2 (String.eqb_neq host "::1")) by
    (apply (Hne _ (Str.chars "::")); right; right; left; reflexivity).
  reflexivity.
Qed.

Lemma checkDouyin_returns (parsed p : Url.URL) :
  Url.checkDouyin parsed = Return p ->
  p = parsed
  /\ Url.safeUrlHost p = true
  /\ (Str.toLowerCase (Url.protocol p) = "http:"
      \/ Str.toLowerCase (Url.protocol p) = "https:").
Proof.
  unfold Url.checkDouyin.
  destruct (String.eqb_spec (Str.toLowerCase (Url.protocol parsed)) "http:") as [Hhttp|_];
    destruct (String.eqb_spec (Str.toLowerCase (Url.protocol parsed)) "https:") as [Hhttps|_];
    cbn [negb andb]; try discriminate;
    (destruct (Url.safeUrlHost parsed) eqn:Hsafe; cbn [negb]; [|discriminate]);
    intros [= <-]; auto.
Qed.

(** The hosts that [safeUrlHost] lets through are douyin.com,
    iesdouyin.com and the names under them, and nothing else. *)
Lemma safeUrlHost_spec (u : Url.URL) :
  Url.safeUrlHost u = true
  <-> let host := Str.toLowerCase (Url.hostname u) in
      host = "douyin.com" \/ host = "iesdouyin.com"
      \/ (exists sub, host = sub +:+ ".douyin.com")
      \/ (exists sub, host = sub +:+ ".iesdouyin.com").
Proof.
  unfold Url.safeUrlHost. cbn zeta.
  rewrite !orb_true_iff, !String.eqb_eq, !endsWith_spec. tauto.
Qed.

(** The Douyin guard returns a URL only if its scheme is http or https
    and its host is douyin.com, iesdouyin.com or a name under one of
    them; and whatever it returns, the guard for external links returns
    too. *)
Theorem assertSafeDouyinUrl_returns (url : string) (p : Url.URL) :
  Url.assertSafeDouyinUrl url = Return p ->
  (Str.toLowerCase (Url.protocol p) = "http:" \/ Str.toLowerCase (Url.protocol p) = "https:")
  /\ (let host := Str.toLowerCase (Url.hostname p) in
      host = "douyin.com" \/ host = "iesdouyin.com"
      \/ (exists sub, host = sub +:+ ".douyin.com")
      \/ (exists sub, host = sub +:+ ".iesdouyin.com"))
  /\ Url.assertSafeExternalHttpUrl url = Return p.
Proof.
  unfold Url.assertSafeDouyinUrl, Url.assertSafeExternalHttpUrl.
  destruct (Url.parse url) as [parsed|]; [|discriminate].
  intros Hcheck. destruct (checkDouyin_returns _ _ Hcheck) as (-> & Hsafe & Hscheme).
  split; [exact Hscheme|split].
  - apply safeUrlHost_spec. exact Hsafe.
  - apply checkDouyin_external. exact Hcheck.
Qed.

End DouyinGuard.

Lemma assertSafeDouyinUrl_returns_witness :
  Url.assertSafeExternalHttpUrl "https://v.douyin.com/iRNBho6u/"
  = Return (Url.mkURL "https:" "v.douyin.com" "https://v.douyin.com/iRNBho6u/").
Proof.
  apply (assertSafeDouyinUrl_returns "https://v.douyin.com/iRNBho6u/"
           (Url.mkURL "https:" "v.douyin.com" "https://v.douyin.com/iRNBho6u/")).
  vm_compute. reflexivity.
Defined.

(** ** Following redirects *)

Section RedirectFacts.
Import Resolve.

Variable resolveUrl : string -> Url.URL -> option string.
Variable net : nat -> Url.URL -> Exc Http.Response.

Lemma parse_href (url : string) (u : Url.URL) :
  Url.parse url = Some u -> Url.href u = Url.strip url.
Proof.
  unfold Url.parse. cbn zeta.
  destruct (Url.splitScheme [] (Str.chars (Url.strip url))) as [[scheme rest]|]; [|discriminate].
  destruct (Url.isSpecial _).
  - destruct (Url.dropPort _ _); [discriminate|]. intros [= <-]. reflexivity.
  - intros [= <-]. reflexivity.
Qed.

Lemma parse_trim (url : string) : Url.parse (Url.strip url) = Url.parse url.
Proof. unfold Url.parse. rewrite strip_idem. reflexivity. Qed.

Lemma assertSafeDouyinUrl_href (url : string) (u : Url.URL) :
  Url.assertSafeDouyinUrl url = Return u ->
  Url.assertSafeDouyinUrl (Url.href u) = Return u.
Proof.
  intros Hu. pose proof Hu as Hu'. unfold Url.assertSafeDouyinUrl in Hu' |- *.
  destruct (Url.parse url) as [parsed|] eqn:Hparse; [|discriminate].
  destruct (checkDouyin_returns _ _ Hu') as (-> & _).
  rewrite (parse_href _ _ Hparse), parse_trim, Hparse. exact Hu'.
Qed.

Lemma assertSafeDouyinUrl_onDouyin (url : string) (u : Url.URL) :
  Url.assertSafeDouyinUrl url = Return u -> onDouyin u.
Proof.
  unfold Url.assertSafeDouyinUrl.
  destruct (Url.parse url) as [parsed|]; [|discriminate].
  intros Hcheck. destruct (checkDouyin_returns _ _ Hcheck) as (_ & Hsafe & Hscheme).
  split; assumption.
Qed.

Lemma hops_spec (maxHops : nat) :
  forall i current requests,
    Forall onDouyin requests ->
    Forall onDouyin (hops resolveUrl net maxHops i current requests).2
    /\ (length (hops resolveUrl net maxHops i current requests).2
        <= length requests + maxHops)%nat
    /\ (forall final,
          (hops resolveUrl net maxHops i current requests).1 = Return final ->
          (length (hops resolveUrl net maxHops i current requests).2
           < length requests + maxHops)%nat ->
          exists u, Url.assertSafeDouyinUrl final = Return u).
Proof.
  induction maxHops as [|maxHops IH]; intros i current requests Hreq; cbn [hops].
  - cbn [fst snd]. split; [exact Hreq|split; [lia|]]. intros final _ Hlt. lia.
  - destruct (Url.assertSafeDouyinUrl current) as [currentUrl|msg] eqn:Hguard; cbn [fst snd].
    2: { split; [exact Hreq|split; [lia|]]. intros final [=]. }
    assert (Hreq' : Forall onDouyin (requests ++ [currentUrl])).
    { apply Forall_app. split; [exact Hreq|].
      constructor; [|constructor]. eapply assertSafeDouyinUrl_onDouyin, Hguard. }
    assert (Hlen : length (requests ++ [currentUrl]) = S (length requests)).
    { rewrite length_app. cbn. lia. }
    assert (Hstop : forall final,
              (final = current \/ final = Url.href currentUrl) ->
              Forall onDouyin (requests ++ [currentUrl])
              /\ (length (requests ++ [currentUrl]) <= length requests + S maxHops)%nat
              /\ (forall final',
                    Return final = Return final' ->
                    (length (requests ++ [currentUrl]) < length requests + S maxHops)%nat ->
                    exists u, Url.assertSafeDouyinUrl final' = Return u)).
    { intros final Hfinal. split; [exact Hreq'|split; [lia|]].
      intros final' [= <-] _. exists currentUrl.
      destruct Hfinal as [->| ->]; [exact Hguard|].
      apply assertSafeDouyinUrl_href with (url := current). exact Hguard. }
    destruct (net i currentUrl) as [res|msg]; cbn [fst snd].
    2: { split; [exact Hreq'|split; [lia|]]. intros final [=]. }
    destruct ((300 <=? Http.status res) && (Http.status res <? 400)); cbn [fst snd].
    2: { apply Hstop. right. reflexivity. }
    destruct (Http.get (Http.headers res) "location") as [location|]; cbn [fst snd].
    2: { apply Hstop. left. reflexivity. }
    destruct location as [|c location]; cbn [fst snd].
    { apply Hstop. left. reflexivity. }
    destruct (resolveUrl (String c location) currentUrl) as [next|]; cbn [fst snd].
    2: { split; [exact Hreq'|split; [lia|]]. intros final [=]. }
    destruct (IH (S i) next _ Hreq') as (Hall & Hle & Hret).
    split; [exact Hall|split; [lia|]].
    intros final Hfinal Hlt. apply Hret; [exact Hfinal|lia].
Qed.

(** [resolveRedirects] sends its requests, at most six of them, only to
    URLs that the Douyin guard let through: to Douyin hosts, over http or
    https. A start URL the guard refuses makes it throw before any
    request. What it returns is a URL that passes the guard, unless six
    requests were made: the target of the sixth redirect is returned
    unchecked. *)
Theorem resolveRedirects_requests (startUrl : string) :
  Forall onDouyin (resolveRedirects resolveUrl net startUrl).2
  /\ (length (resolveRedirects resolveUrl net startUrl).2 <= 6)%nat
  /\ (forall msg,
        Url.assertSafeDouyinUrl startUrl = Throw msg ->
        resolveRedirects resolveUrl net startUrl = (Throw msg, []))
  /\ (forall final,
        (resolveRedirects resolveUrl net startUrl).1 = Return final ->
        (length (resolveRedirects resolveUrl net startUrl).2 < 6)%nat ->
        exists u, Url.assertSafeDouyinUrl final = Return u).
Proof.
  unfold resolveRedirects.
  destruct (hops_spec 6 0 startUrl [] (Forall_nil_2 _)) as (Hall & Hle & Hret).
  split; [exact Hall|split; [exact Hle|split; [|exact Hret]]].
  intros msg Hguard. cbn [hops]. rewrite Hguard. reflexivity.
Qed.

Lemma follow_requests (link : string) :
  Forall onDouyin (follow resolveUrl net link).2
  /\ (length (follow resolveUrl net link).2 <= 6)%nat.
Proof.
  unfold follow.
  destruct (hops_spec 6 0 link [] (Forall_nil_2 _)) as (Hall & Hle & _).
  fold (resolveRedirects resolveUrl net link) in Hall, Hle.
  destruct (resolveRedirects resolveUrl net link) as [[resolved|msg] requests];
    cbn [fst snd] in *; split; assumption.
Qed.

Lemma follow_refused (link msg : string) :
  Url.assertSafeDouyinUrl link = Throw msg -> follow resolveUrl net link = (link, []).
Proof.
  intros Hguard. unfold follow, resolveRedirects. cbn [hops]. rewrite Hguard. reflexivity.
Qed.

End RedirectFacts.

(** ** Links in text *)

Section LinkFacts.
Import Links.

Lemma toLowerCase_app (a b : string) :
  Str.toLowerCase (a +:+ b) = Str.toLowerCase a +:+ Str.toLowerCase b.
Proof.
  unfold Str.toLowerCase. rewrite chars_app, map_app, ofChars_app. reflexivity.
Qed.

Lemma hasScheme_https (url : string) : hasScheme ("https://" +:+ url) = true.
Proof.
  unfold hasScheme, Str.startsWith. rewrite toLowerCase_app, chars_app.
  change (Str.chars (Str.toLowerCase "https://")) with (Str.chars "https://").
  rewrite prefixChars_app. apply orb_true_r.
Qed.

Lemma isWhite_lowerChar (c : ascii) : Str.isWhite (Str.lowerChar c) = Str.isWhite c.
Proof. destruct c as [[] [] [] [] [] [] [] []]; reflexivity. Qed.

Lemma run_forallb (class : ascii -> bool) (l : list ascii) :
  forallb class (Re.run class l) = true.
Proof.
  induction l as [|c l IH]; cbn; [reflexivity|].
  destruct (class c) eqn:Hc; cbn; [rewrite Hc; exact IH|reflexivity].
Qed.

Lemma run_take (class : ascii -> bool) (l : list ascii) :
  take (length (Re.run class l)) l = Re.run class l.
Proof.
  induction l as [|c l IH]; cbn; [reflexivity|].
  destruct (class c); cbn; [f_equal; exact IH|reflexivity].
Qed.

Lemma run_all (class : ascii -> bool) (a b : list ascii) :
  forallb class a = true ->
  match b with
  | c :: _ => class c = false
  | [] => True
  end ->
  Re.run class (a ++ b) = a.
Proof.
  intros Ha Hb. induction a as [|c a IH]; cbn.
  - destruct b as [|c b]; [reflexivity|]. cbn. rewrite Hb. reflexivity.
  - cbn in Ha. apply andb_true_iff in Ha as [Hc Ha]. rewrite Hc. f_equal. exact (IH Ha).
Qed.

(** *** Stripping the closers *)

Lemma dropClosers_step (r : list ascii) :
  dropClosers r = r
  \/ exists r', (length r' < length r)%nat /\ dropClosers r = dropClosers r'.
Proof.
  destruct r as [|c rest]; [left; reflexivity|]. cbn [dropClosers].
  destruct (isCloser c).
  { right. exists rest. split; [cbn; lia|reflexivity]. }
  destruct rest as [|c2 [|c1 rest']]; [left; reflexivity..|].
  destruct (isWideCloser c1 c2 c); [|left; reflexivity].
  right. exists rest'. split; [cbn; lia|reflexivity].
Qed.

Lemma dropClosers_idem (r : list ascii) : dropClosers (dropClosers r) = dropClosers r.
Proof.
  remember (length r) as n eqn:Hn. revert r Hn.
  induction n as [n IH] using lt_wf_ind. intros r ->.
  destruct (dropClosers_step r) as [Hfix|(r' & Hlt & Hstep)].
  - rewrite !Hfix. reflexivity.
  - rewrite Hstep. apply (IH (length r')); [exact Hlt|reflexivity].
Qed.

Lemma dropClosers_suffix (r : list ascii) : exists front, r = (front ++ dropClosers r)%list.
Proof.
  remember (length r) as n eqn:Hn. revert r Hn.
  induction n as [n IH] using lt_wf_ind. intros r ->.
  destruct r as [|c rest]; [exists []; reflexivity|]. cbn [dropClosers].
  destruct (isCloser c).
  { destruct (IH (length rest)) with (r := rest) as [front Hfront]; [cbn; lia|reflexivity|].
    exists (c :: front). cbn. f_equal. exact Hfront. }
  destruct rest as [|c2 [|c1 rest']]; [exists []; reflexivity..|].
  destruct (isWideCloser c1 c2 c); [|exists []; reflexivity].
  destruct (IH (length rest')) with (r := rest') as [front Hfront]; [cbn; lia|reflexivity|].
  exists (c :: c2 :: c1 :: front). cbn. do 3 f_equal. exact Hfront.
Qed.

(** A string that ends with none of the closers keeps its end when
    [https://] is put before it. *)
Lemma dropClosers_scheme (r : list ascii) :
  dropClosers r = r ->
  dropClosers (r ++ rev (Str.chars "https://")) = (r ++ rev (Str.chars "https://"))%list.
Proof.
  intros Hfix. destruct r as [|c rest]; [reflexivity|].
  cbn [dropClosers] in Hfix. cbn [app dropClosers].
  destruct (isCloser c).
  { exfalso. destruct (dropClosers_suffix rest) as [front Hfront].
    rewrite Hfix in Hfront. apply (f_equal (@length ascii)) in Hfront.
    rewrite length_app in Hfront. cbn in Hfront. lia. }
  destruct rest as [|c2 [|c1 rest']]; [reflexivity..|].
  cbn [app]. destruct (isWideCloser c1 c2 c); [|reflexivity].
  exfalso. destruct (dropClosers_suffix rest') as [front Hfront].
  rewrite Hfix in Hfront. apply (f_equal (@length ascii)) in Hfront.
  rewrite length_app in Hfront. cbn in Hfront. lia.
Qed.

Lemma forallb_rev_true (f : ascii -> bool) (l : list ascii) :
  forallb f (rev l) = true <-> forallb f l = true.
Proof.
  induction l as [|c l IH]; [reflexivity|]. cbn [rev forallb].
  rewrite forallb_app_true, IH. cbn. rewrite !andb_true_iff. tauto.
Qed.

(** *** [normalizeUrl] *)

Lemma andb3_flip (x y z : bool) : x && (y && (z && true)) = false <-> z && y && x = false.
Proof. destruct x, y, z; cbn; tauto. Qed.

Lemma closer_flip (x c : ascii) : Ascii.eqb x c && true = false <-> Ascii.eqb c x = false.
Proof. rewrite andb_true_r, (Ascii.eqb_sym x c). reflexivity. Qed.

Lemma dropClosers_fixed_head (c : ascii) (rest : list ascii) :
  dropClosers (c :: rest) = c :: rest ->
  isCloser c = false
  /\ match rest with
     | c2 :: c1 :: _ => isWideCloser c1 c2 c = false
     | _ => True
     end.
Proof.
  cbn [dropClosers]. intros Hfix.
  assert (Hshort : forall r', (length r' < length (c :: rest))%nat ->
                              dropClosers r' <> c :: rest).
  { intros r' Hlt Heq. destruct (dropClosers_suffix r') as [front Hfront].
    rewrite Heq in Hfront. apply (f_equal (@length ascii)) in Hfront.
    rewrite length_app in Hfront. lia. }
  destruct (isCloser c).
  { exfalso. apply (Hshort rest); [cbn; lia|exact Hfix]. }
  split; [reflexivity|].
  destruct rest as [|c2 [|c1 rest']]; [exact I..|].
  destruct (isWideCloser c1 c2 c); [|reflexivity].
  exfalso. apply (Hshort rest'); [cbn; lia|exact Hfix].
Qed.

(** [settled], read on the string from its end. *)
Lemma settled_spec (url : string) :
  settled url <-> dropClosers (rev (Str.chars url)) = rev (Str.chars url).
Proof.
  unfold settled, Str.endsWith. set (r := rev (Str.chars url)). clearbody r.
  let l := eval vm_compute in closerStrings in change closerStrings with l.
  rewrite !Forall_cons, Forall_nil.
  cbn [Str.chars list_ascii_of_string rev app].
  destruct r as [|c rest]; [cbn; intuition|].
  cbn [Str.prefixChars]. rewrite !closer_flip.
  assert (Hc : isCloser c = false <-> Forall (fun x => Ascii.eqb c x = false) closers).
  { unfold isCloser. induction closers as [|x xs IH]; cbn [existsb].
    - rewrite Forall_nil. tauto.
    - rewrite orb_false_iff, Forall_cons, IH. reflexivity. }
  revert Hc.
  let l := eval vm_compute in closers in change closers with l.
  rewrite !Forall_cons, Forall_nil. intros Hc.
  destruct rest as [|c2 [|c1 rest']].
  - cbn [dropClosers]. rewrite !andb_false_r. split.
    + intros H. assert (Hc' : isCloser c = false) by (apply Hc; tauto). rewrite Hc'. reflexivity.
    + intros Hfix. apply (dropClosers_fixed_head c []) in Hfix as [Hc' _].
      apply Hc in Hc'. tauto.
  - cbn [dropClosers Str.prefixChars]. rewrite !andb_false_r. split.
    + intros H. assert (Hc' : isCloser c = false) by (apply Hc; tauto). rewrite Hc'. reflexivity.
    + intros Hfix. apply (dropClosers_fixed_head c [c2]) in Hfix as [Hc' _].
      apply Hc in Hc'. tauto.
  - assert (Hw : isWideCloser c1 c2 c = false
                 <-> forall w, w ∈ wideClosers ->
                       match w with
                       | [a; b; c'] => Ascii.eqb a c1 && Ascii.eqb b c2 && Ascii.eqb c' c = false
                       | _ => True
                       end).
    { unfold isWideCloser. induction wideClosers as [|w ws IH]; cbn [existsb].
      - split; [intros _ w Hin; apply elem_of_nil in Hin; destruct Hin|reflexivity].
      - rewrite orb_false_iff, IH. split.
        + intros [Hw Hws] w' Hin. apply elem_of_cons in Hin as [->|Hin]; [|apply Hws; exact Hin].
          destruct w as [|a [|b [|c' [|]]]]; first [exact I|exact Hw].
        + intros Hall. split.
          * assert (Hhere : w ∈ w :: ws) by (left; reflexivity). specialize (Hall w Hhere).
            destruct w as [|a [|b [|c' [|]]]]; first [reflexivity|exact Hall].
          * intros w' Hin. apply Hall. right. exact Hin. }
    cbn [Str.prefixChars]. rewrite !andb3_flip. split.
    + intros H. assert (Hc' : isCloser c = false) by (apply Hc; tauto).
      assert (Hw' : isWideCloser c1 c2 c = false).
      { apply Hw.
        let l := eval vm_compute in wideClosers in change wideClosers with l.
        intros w Hin. repeat (apply elem_of_cons in Hin as [->|Hin]; [tauto|]).
        apply elem_of_nil in Hin. destruct Hin. }
      cbn [dropClosers]. rewrite Hc', Hw'. reflexivity.
    + intros Hfix. apply (dropClosers_fixed_head c (c2 :: c1 :: rest')) in Hfix as [Hc' Hw'].
      apply Hc in Hc'.
      assert (Hall := proj1 Hw Hw'). revert Hall.
      let l := eval vm_compute in wideClosers in change wideClosers with l.
      intros Hall.
      repeat match goal with
             | |- _ /\ _ => split
             | |- True => exact I
             end; try tauto;
        match goal with
        | |- Ascii.eqb ?a c1 && Ascii.eqb ?b c2 && Ascii.eqb ?c' c = false =>
            apply (Hall [a; b; c']);
              repeat (apply elem_of_cons; first [left; reflexivity|right])
        end.
Qed.

Lemma normalizeUrl_fixed (url : string) :
  Str.trim url = url -> settled url -> hasScheme url = true -> normalizeUrl url = url.
Proof.
  rewrite settled_spec.
  unfold normalizeUrl. intros -> ->. rewrite rev_involutive, ofChars_chars.
  intros ->. reflexivity.
Qed.

Lemma normalizeUrl_shape (value : string) :
  hasScheme (normalizeUrl value) = true /\ settled (normalizeUrl value).
Proof.
  rewrite settled_spec.
  unfold normalizeUrl.
  set (r := dropClosers (rev (Str.chars (Str.trim value)))).
  assert (Hr : dropClosers r = r) by apply dropClosers_idem.
  destruct (hasScheme (Str.ofChars (rev r))) eqn:Hscheme.
  - split; [exact Hscheme|]. rewrite chars_ofChars, rev_involutive. exact Hr.
  - split; [apply hasScheme_https|].
    rewrite chars_app, chars_ofChars, rev_app_distr, rev_involutive.
    apply dropClosers_scheme. exact Hr.
Qed.

(** A link without white space stays without when it is normalised. *)
Lemma normalizeUrl_whiteFree (l : list ascii) :
  Re.whiteFree l = true ->
  Re.whiteFree (Str.chars (normalizeUrl (Str.ofChars l))) = true.
Proof.
  intros Hl. unfold normalizeUrl. rewrite (whiteFree_trim _ Hl), chars_ofChars.
  destruct (dropClosers_suffix (rev l)) as [front Hfront].
  assert (Hkept : Re.whiteFree (rev (dropClosers (rev l))) = true).
  { apply (whiteFree_prefix _ (rev front)). rewrite <- rev_app_distr, <- Hfront, rev_involutive.
    exact Hl. }
  destruct (hasScheme _).
  - rewrite chars_ofChars. exact Hkept.
  - rewrite chars_app, chars_ofChars. apply whiteFree_ascii; [reflexivity|exact Hkept].
Qed.

End LinkFacts.

(** *** The matches of [extractUrlFromText] *)

Section MatchFacts.
Import Links.

Lemma lowerChar_ascii (c : ascii) :
  Re.nonWhite (Str.lowerChar c) && (nat_of_ascii (Str.lowerChar c) <? 128)%nat
  = Re.nonWhite c && (nat_of_ascii c <? 128)%nat.
Proof. destruct c as [[] [] [] [] [] [] [] []]; reflexivity. Qed.

Lemma lower_ascii (l : list ascii) :
  forallb (fun c => Re.nonWhite c && (nat_of_ascii c <? 128)%nat) (map Str.lowerChar l)
  = forallb (fun c => Re.nonWhite c && (nat_of_ascii c <? 128)%nat) l.
Proof.
  induction l as [|c l IH]; [reflexivity|]. cbn [map forallb].
  rewrite lowerChar_ascii, IH. reflexivity.
Qed.

(** A match of [head] followed by [[^\s]+], the letters of [head] in
    either case: its characters, and what it has before it. *)
Lemma headed_match (head : list ascii) (l : list ascii) (n : nat) :
  Str.prefixChars head (map Str.lowerChar l) = true ->
  match Re.ink (drop (length head) l) with
  | [] => None
  | m => Some (length head + length m)%nat
  end = Some n ->
  take n l = (take (length head) l ++ Re.ink (drop (length head) l))%list
  /\ map Str.lowerChar (take (length head) l) = head
  /\ (length head < n)%nat.
Proof.
  intros Hhead. pose proof (ink_take (drop (length head) l)) as Htake.
  revert Htake.
  destruct (Re.ink (drop (length head) l)) as [|c m]; [discriminate|].
  intros Htake [= <-]. split; [|split].
  - rewrite <- take_take_drop. f_equal. exact Htake.
  - apply prefixChars_spec in Hhead as [rest Hrest].
    rewrite <- firstn_map, Hrest. apply take_app_length.
  - cbn [length]. lia.
Qed.

Lemma headed_match_whiteFree (head : list ascii) (l : list ascii) (n : nat) :
  forallb (fun c => Re.nonWhite c && (nat_of_ascii c <? 128)%nat) head = true ->
  Str.prefixChars head (map Str.lowerChar l) = true ->
  match Re.ink (drop (length head) l) with
  | [] => None
  | m => Some (length head + length m)%nat
  end = Some n ->
  Re.whiteFree (take n l) = true.
Proof.
  intros Hascii Hhead Hn. destruct (headed_match head l n Hhead Hn) as (-> & Hlow & _).
  apply whiteFree_ascii; [|apply ink_whiteFree].
  rewrite <- lower_ascii, Hlow. exact Hascii.
Qed.

Lemma httpHere_whiteFree (l : list ascii) (n : nat) :
  httpHere l = Some n -> Re.whiteFree (take n l) = true.
Proof.
  unfold httpHere.
  destruct (Str.prefixChars (Str.chars "https://") (map Str.lowerChar l)) eqn:Hs.
  { apply (headed_match_whiteFree (Str.chars "https://")); [reflexivity|exact Hs]. }
  destruct (Str.prefixChars (Str.chars "http://") (map Str.lowerChar l)) eqn:Hp; [|discriminate].
  apply (headed_match_whiteFree (Str.chars "http://")); [reflexivity|exact Hp].
Qed.

Lemma shortLinkHere_whiteFree (l : list ascii) (n : nat) :
  shortLinkHere l = Some n -> Re.whiteFree (take n l) = true.
Proof.
  unfold shortLinkHere.
  destruct (Str.prefixChars (Str.chars "v.douyin.com/") (map Str.lowerChar l)) eqn:Hs;
    [|discriminate].
  apply (headed_match_whiteFree (Str.chars "v.douyin.com/")); [reflexivity|exact Hs].
Qed.

Lemma trim_after_white (w m : list ascii) :
  In w Str.whites -> Re.whiteFree m = true ->
  Str.trim (Str.ofChars (w ++ m)) = Str.ofChars m.
Proof.
  intros Hw Hm. unfold Str.trim, Str.dropWhite. rewrite chars_ofChars.
  rewrite (dropSeqs_step Str.whites w m whites_free Hw).
  fold (Str.dropWhite m). rewrite (whiteFree_dropWhite m Hm), (whiteFree_dropWhiteEnd m Hm).
  reflexivity.
Qed.

(** A loose match, trimmed, has no white space. *)
Lemma looseHere_whiteFree (start : bool) (l : list ascii) (n : nat) :
  looseHere start l = Some n ->
  Re.whiteFree (Str.chars (Str.trim (Str.ofChars (take n l)))) = true.
Proof.
  unfold looseHere.
  assert (Hshort : forall n, shortLinkHere l = Some n ->
            Re.whiteFree (Str.chars (Str.trim (Str.ofChars (take n l)))) = true).
  { intros n' Hn'. apply shortLinkHere_whiteFree in Hn'.
    rewrite (whiteFree_trim _ Hn'), chars_ofChars. exact Hn'. }
  assert (Hwhite : match Str.whiteAt l with
                   | O => None
                   | S w => (fun n => (S w + n)%nat) <$> shortLinkHere (drop (S w) l)
                   end = Some n ->
                   Re.whiteFree (Str.chars (Str.trim (Str.ofChars (take n l)))) = true).
  { destruct (Str.whiteAt l) as [|k] eqn:Hat; [discriminate|].
    destruct (whiteAt_Some _ _ Hat) as (w & rest & Hin & -> & Hlen).
    rewrite <- Hlen, drop_app_length.
    destruct (shortLinkHere rest) as [n'|] eqn:Hhere; [|discriminate].
    intros [= <-]. apply shortLinkHere_whiteFree in Hhere.
    rewrite take_app_add', (trim_after_white _ _ Hin Hhere), chars_ofChars by reflexivity.
    exact Hhere. }
  destruct start; [|exact Hwhite].
  destruct (shortLinkHere l) as [n'|] eqn:Hhere; [intros [= <-]; apply Hshort; reflexivity|].
  exact Hwhite.
Qed.

Lemma scan_Forall (P : list ascii -> Prop) (here : bool -> list ascii -> option nat)
    (l : list ascii) :
  (forall start l n, here start l = Some n -> P (take n l)) ->
  forall start skip, Forall P (Re.scan here start skip l).
Proof.
  intros Hhere. induction l as [|c l IH]; intros start skip; cbn [Re.scan]; [constructor|].
  destruct skip as [|skip]; [|apply IH].
  destruct (here start (c :: l)) as [[|n]|] eqn:Hn; [apply IH| |apply IH].
  constructor; [|apply IH]. apply (Hhere start (c :: l) (S n)). exact Hn.
Qed.

(** Every candidate that [extractUrlFromText] collects is a string
    without white space. *)
Lemma candidates_whiteFree (text : list ascii) :
  Forall (fun m => Re.whiteFree m = true)
    (Re.scan (fun _ => httpHere) true 0 text
     ++ map (fun m => Str.chars (Str.trim (Str.ofChars m))) (Re.scan looseHere true 0 text)).
Proof.
  apply Forall_app. split.
  - apply scan_Forall. intros _ l n. apply httpHere_whiteFree.
  - apply List.Forall_map. apply scan_Forall. intros start l n. apply looseHere_whiteFree.
Qed.

End MatchFacts.

(** *** What [extractUrlFromText] returns *)

Section ExtractFacts.
Import Links.

(** [normalizeUrl]: the result begins with [http://] or [https://] in
    some case of the letters and ends with none of the closers; and a
    link that is trimmed, begins so and ends so comes back as it is. *)
Theorem normalizeUrl_normal (value : string) :
  hasScheme (normalizeUrl value) = true
  /\ settled (normalizeUrl value)
  /\ (Str.trim value = value -> settled value -> hasScheme value = true ->
      normalizeUrl value = value).
Proof.
  destruct (normalizeUrl_shape value) as [Hscheme Hsettled].
  split; [exact Hscheme|split; [exact Hsettled|apply normalizeUrl_fixed]].
Qed.

Lemma normalizeUrl_again (m : list ascii) :
  Re.whiteFree m = true ->
  normalizeUrl (normalizeUrl (Str.ofChars m)) = normalizeUrl (Str.ofChars m).
Proof.
  intros Hm. destruct (normalizeUrl_shape (Str.ofChars m)) as [Hscheme Hsettled].
  apply normalizeUrl_fixed; [|exact Hsettled|exact Hscheme].
  rewrite <- (ofChars_chars (normalizeUrl (Str.ofChars m))).
  apply whiteFree_trim, normalizeUrl_whiteFree, Hm.
Qed.

Lemma extractUrlFromText_candidate (input link : string) :
  extractUrlFromText input = Some link ->
  exists m, Re.whiteFree m = true /\ link = normalizeUrl (Str.ofChars m).
Proof.
  unfold extractUrlFromText.
  destruct (Str.isEmpty (Str.trim input)); [discriminate|].
  pose proof (candidates_whiteFree (Str.chars (Str.trim input))) as Hall.
  destruct (_ ++ _)%list as [|first rest] eqn:Hmatches; [discriminate|].
  cbv beta iota zeta.
  set (preferred := default first (List.find mentionsDouyin (first :: rest))).
  assert (Hpreferred : Re.whiteFree preferred = true).
  { subst preferred.
    destruct (List.find mentionsDouyin (first :: rest)) as [found|] eqn:Hfind; cbn [default].
    - apply List.find_some in Hfind as [Hin _].
      apply (proj1 (List.Forall_forall _ _) Hall). exact Hin.
    - apply Forall_cons in Hall as [Hfirst _]. exact Hfirst. }
  intros [= <-]. exists preferred. split; [exact Hpreferred|reflexivity].
Qed.

(** What [extractUrlFromText] returns begins with [http://] or
    [https://], ends with none of the closers, has no white-space
    character, of ASCII or beyond it, and is left as it is by
    [normalizeUrl]: the second normalisation that the handlers apply to an
    extracted link changes nothing. A text that is blank yields no
    link. *)
Theorem extractUrlFromText_normal (input : string) :
  (Str.trim input = "" -> extractUrlFromText input = None)
  /\ (forall link,
        extractUrlFromText input = Some link ->
        hasScheme link = true
        /\ settled link
        /\ forallb Re.nonWhite (Str.chars link) = true
        /\ Re.whiteFree (Str.chars link) = true
        /\ normalizeUrl link = link).
Proof.
  split.
  - intros Hblank. unfold extractUrlFromText. rewrite Hblank. reflexivity.
  - intros link Hlink. apply extractUrlFromText_candidate in Hlink as (m & Hm & ->).
    destruct (normalizeUrl_shape (Str.ofChars m)) as [Hscheme Hsettled].
    split; [exact Hscheme|split; [exact Hsettled|split; [|split]]].
    + apply whiteFree_nonWhite, normalizeUrl_whiteFree, Hm.
    + apply normalizeUrl_whiteFree, Hm.
    + apply normalizeUrl_again, Hm.
Qed.

(** *** The first link of a text *)

(** The last byte of a white-space character is no letter and no byte
    of [https://]. *)
Lemma lastWhite_plain (c : ascii) :
  lastWhite c = true ->
  Str.lowerChar c = c
  /\ forallb (fun x => negb (Ascii.eqb x c)) (Str.chars "https://") = true
  /\ forallb (fun x => negb (Ascii.eqb x c)) (Str.chars "http://") = true.
Proof.
  destruct c as [[] [] [] [] [] [] [] []]; vm_compute; intros Hc;
    first [discriminate Hc|repeat split; reflexivity].
Qed.

(** What ends with a white-space character ends with the last byte of
    one. *)
Lemma whiteEnd_last (l : list ascii) :
  whiteEnd l ->
  match rev l with
  | c :: _ => lastWhite c = true
  | [] => True
  end.
Proof.
  destruct l as [|x l]; [intros _; exact I|].
  change (whiteEnd (x :: l)) with ((0 <? Str.seqAt revWhites (rev (x :: l)))%nat = true).
  intros Hend. apply Nat.ltb_lt in Hend.
  destruct (Str.seqAt revWhites (rev (x :: l))) as [|n] eqn:Hat; [lia|].
  destruct (seqAt_Some _ _ _ Hat) as (w & rest & Hin & Heq & _). rewrite Heq.
  pose proof (proj1 (List.Forall_forall _ _) revWhites_nonempty w Hin) as Hne.
  destruct w as [|c w]; [contradiction|]. cbn [app]. unfold lastWhite.
  apply existsb_exists. exists (c :: w). split; [exact Hin|apply Ascii.eqb_refl].
Qed.

(** A pattern does not begin in a stretch and run on beyond it, where
    the stretch ends with a byte that the pattern does not have. *)
Lemma prefixChars_beyond (p : list ascii) :
  forall a b,
    match rev a with
    | c :: _ => forallb (fun x => negb (Ascii.eqb x c)) p = true
    | [] => False
    end ->
    Str.prefixChars p a = false -> Str.prefixChars p (a ++ b) = false.
Proof.
  induction p as [|x p IH]; intros a b Hend Hpre; [discriminate|].
  destruct a as [|y a]; [destruct Hend|]. cbn [app Str.prefixChars] in *.
  destruct (Ascii.eqb x y) eqn:Hxy; [|reflexivity]. cbn [andb] in *.
  apply Ascii.eqb_eq in Hxy as <-.
  cbn [rev] in Hend. destruct (rev a) as [|c r] eqn:Hrev.
  - cbn [app forallb] in Hend. rewrite Ascii.eqb_refl in Hend. discriminate.
  - cbn [app forallb] in Hend. apply andb_true_iff in Hend as [_ Hend].
    apply IH; [rewrite Hrev; exact Hend|exact Hpre].
Qed.

Lemma scan_same_start (h : list ascii -> option nat) (l : list ascii) (skip : nat)
    (start start' : bool) :
  Re.scan (fun _ => h) start skip l = Re.scan (fun _ => h) start' skip l.
Proof. destruct l as [|c l]; reflexivity. Qed.

Lemma scan_skip (here : bool -> list ascii -> option nat) (a b : list ascii) :
  Re.scan here false (length a) (a ++ b) = Re.scan here false 0 b.
Proof.
  induction a as [|c a IH]; [reflexivity|]. cbn [length app Re.scan]. exact IH.
Qed.

Lemma contains_cons (p : list ascii) (c : ascii) (l : list ascii) :
  Re.contains p (c :: l) = false ->
  Str.prefixChars p (c :: l) = false /\ Re.contains p l = false.
Proof. cbn [Re.contains]. intros H. apply orb_false_iff in H. exact H. Qed.

(** No match of the pattern begins in a stretch that has neither
    [http://] nor [https://] in it and ends with the last byte of a
    white-space character. *)
Lemma scan_before (before rest : list ascii) :
  match rev before with
  | c :: _ => lastWhite c = true
  | [] => True
  end ->
  Re.contains (Str.chars "http://") (map Str.lowerChar before) = false ->
  Re.contains (Str.chars "https://") (map Str.lowerChar before) = false ->
  Re.scan (fun _ => httpHere) true 0 (before ++ rest)
  = Re.scan (fun _ => httpHere) true 0 rest.
Proof.
  induction before as [|c before IH]; intros Hend Hhttp Hhttps; [reflexivity|].
  cbn [map] in Hhttp, Hhttps.
  apply contains_cons in Hhttp as [Hp Hhttp], Hhttps as [Hs Hhttps].
  assert (Hlast : forall p, p = "https://" \/ p = "http://" ->
            match rev (map Str.lowerChar (c :: before)) with
            | x :: _ => forallb (fun y => negb (Ascii.eqb y x)) (Str.chars p) = true
            | [] => False
            end).
  { intros p Hp'. rewrite <- map_rev. cbn [rev] in *.
    destruct (rev before ++ [c])%list as [|x r] eqn:Hrev;
      [destruct (rev before); discriminate|].
    cbn [map]. destruct (lastWhite_plain x Hend) as (-> & Hplain & Hplain').
    destruct Hp' as [-> | ->]; assumption. }
  assert (Hnone : httpHere ((c :: before) ++ rest) = None).
  { unfold httpHere. rewrite map_app.
    rewrite (prefixChars_beyond (Str.chars "https://")
               (map Str.lowerChar (c :: before)) (map Str.lowerChar rest)
               (Hlast _ (or_introl eq_refl)) Hs).
    rewrite (prefixChars_beyond (Str.chars "http://")
               (map Str.lowerChar (c :: before)) (map Str.lowerChar rest)
               (Hlast _ (or_intror eq_refl)) Hp).
    reflexivity. }
  change (Re.scan (fun _ => httpHere) true 0 ((c :: before) ++ rest))
    with (match httpHere ((c :: before) ++ rest) with
          | Some (S n) =>
              take (S n) ((c :: before) ++ rest)
              :: Re.scan (fun _ => httpHere) false n (before ++ rest)
          | _ => Re.scan (fun _ => httpHere) false 0 (before ++ rest)
          end).
  rewrite Hnone, (scan_same_start _ _ _ false true).
  apply IH; [|exact Hhttp|exact Hhttps].
  cbn [rev] in Hend. destruct (rev before) as [|x r]; [exact I|exact Hend].
Qed.

(** A link that the pattern matches as a whole is matched so where
    white space, or nothing, follows it. *)
Lemma httpHere_app (link after : list ascii) :
  isHttpLink link -> whiteStart after ->
  httpHere (link ++ after) = Some (length link).
Proof.
  unfold isHttpLink, httpHere. intros Hlink Hafter. rewrite map_app.
  assert (Hrun : forall k, (k <= length link)%nat ->
            match Re.ink (drop k link) with
            | [] => None
            | m => Some (k + length m)%nat
            end = Some (length link) ->
            match Re.ink (drop k (link ++ after)) with
            | [] => None
            | m => Some (k + length m)%nat
            end = Some (length link)).
  { intros k Hk Hm. rewrite drop_app_le by exact Hk.
    assert (Hall : Re.ink (drop k link) = drop k link).
    { apply ink_whole. rewrite length_drop.
      destruct (Re.ink (drop k link)); [discriminate|].
      injection Hm as Hm. cbn [length] in *. lia. }
    rewrite (ink_all (drop k link) after); [rewrite Hall in Hm; exact Hm| |exact Hafter].
    rewrite <- Hall. apply ink_whiteFree. }
  assert (Hlen : forall k,
            match Re.ink (drop k link) with
            | [] => None
            | m => Some (k + length m)%nat
            end = Some (length link) -> (k <= length link)%nat).
  { intros k Hm. destruct (Re.ink (drop k link)); [discriminate|].
    injection Hm as Hm. cbn [length] in *. lia. }
  destruct (Str.prefixChars (Str.chars "https://") (map Str.lowerChar link)) eqn:Hs.
  { apply prefixChars_spec in Hs as [rest ->]. rewrite <- app_assoc, prefixChars_app.
    apply Hrun; [apply Hlen|]; exact Hlink. }
  destruct (Str.prefixChars (Str.chars "http://") (map Str.lowerChar link)) eqn:Hp;
    [|discriminate].
  apply prefixChars_spec in Hp as [rest Hrest].
  rewrite Hrest in Hs |- *. rewrite <- app_assoc, prefixChars_app.
  assert (Hs' : Str.prefixChars (Str.chars "https://")
                  (Str.chars "http://" ++ rest ++ map Str.lowerChar after) = false)
    by reflexivity.
  rewrite Hs'. apply Hrun; [apply Hlen|]; exact Hlink.
Qed.

Lemma isHttpLink_nonempty (link : list ascii) : isHttpLink link -> link <> [].
Proof. intros Hlink ->. discriminate. Qed.

(** Where the text, trimmed, is [before ++ link ++ after], with [link] a
    whole match of the link pattern that mentions douyin.com, set off by
    white space, and neither [http://] nor [https://] in what comes
    before it: [extractUrlFromText] returns that link, normalised. *)
Theorem extractUrlFromText_first_link (input : string) (before link after : list ascii) :
  Str.chars (Str.trim input) = (before ++ link ++ after)%list ->
  isHttpLink link ->
  mentionsDouyin link = true ->
  whiteEnd before ->
  whiteStart after ->
  Re.contains (Str.chars "http://") (map Str.lowerChar before) = false ->
  Re.contains (Str.chars "https://") (map Str.lowerChar before) = false ->
  extractUrlFromText input = Some (normalizeUrl (Str.ofChars link)).
Proof.
  intros Htext Hlink Hdouyin Hbefore Hafter Hhttp Hhttps.
  unfold extractUrlFromText.
  assert (Hne : Str.isEmpty (Str.trim input) = false).
  { apply isEmpty_false. intros Hempty. rewrite Hempty in Htext.
    destruct before; [|discriminate]. destruct link; [|discriminate].
    exact (isHttpLink_nonempty [] Hlink eq_refl). }
  rewrite Hne, Htext, (scan_before _ _ (whiteEnd_last _ Hbefore) Hhttp Hhttps).
  pose proof (httpHere_app link after Hlink Hafter) as Hhere.
  destruct link as [|c link]; [exfalso; exact (isHttpLink_nonempty [] Hlink eq_refl)|].
  change (Re.scan (fun _ => httpHere) true 0 ((c :: link) ++ after))
    with (match httpHere ((c :: link) ++ after) with
          | Some (S n) =>
              take (S n) ((c :: link) ++ after)
              :: Re.scan (fun _ => httpHere) false n (link ++ after)
          | _ => Re.scan (fun _ => httpHere) false 0 (link ++ after)
          end).
  rewrite Hhere. cbn [length].
  change (S (length link)) with (length (c :: link)). rewrite take_app_length.
  cbn [app List.find]. rewrite Hdouyin. reflexivity.
Qed.

End ExtractFacts.

Lemma extractUrlFromText_first_link_witness :
  Links.extractUrlFromText "7.94 look https://v.douyin.com/iRNBho6u/,　Mjp:/ 05/11"
  = Some "https://v.douyin.com/iRNBho6u/".
Proof.
  apply (extractUrlFromText_first_link
           "7.94 look https://v.douyin.com/iRNBho6u/,　Mjp:/ 05/11"
           (Str.chars "7.94 look ") (Str.chars "https://v.douyin.com/iRNBho6u/,")
           (Str.chars "　Mjp:/ 05/11")); reflexivity.
Defined.

(** ** Captures *)

Section CaptureFacts.

Lemma run_split (class : ascii -> bool) (l : list ascii) :
  exists rest,
    l = (Re.run class l ++ rest)%list
    /\ match rest with
       | c :: _ => class c = false
       | [] => True
       end.
Proof.
  induction l as [|c l IH]; cbn [Re.run]; [exists []; split; [reflexivity|exact I]|].
  destruct (class c) eqn:Hc.
  - destruct IH as (rest & Hl & Hrest). exists rest. split; [|exact Hrest].
    cbn [app]. f_equal. exact Hl.
  - exists (c :: l). split; [reflexivity|exact Hc].
Qed.

(** What a capture is: the longest stretch of [class] after an
    occurrence of [pat], and not an empty one. *)
Lemma captureHere_Some (pat : list ascii) (class : ascii -> bool) (l m : list ascii) :
  Re.captureHere pat class l = Some m ->
  exists rest,
    l = (pat ++ m ++ rest)%list
    /\ m <> []
    /\ forallb class m = true
    /\ match rest with
       | c :: _ => class c = false
       | [] => True
       end.
Proof.
  unfold Re.captureHere.
  destruct (Str.prefixChars pat l) eqn:Hpat; [|discriminate].
  apply prefixChars_spec in Hpat as [tail ->]. rewrite drop_app_length.
  destruct (run_split class tail) as (rest & Htail & Hrest).
  pose proof (run_forallb class tail) as Hall.
  destruct (Re.run class tail) as [|c m'] eqn:Hrun; [discriminate|].
  intros [= <-]. exists rest. split; [|split; [discriminate|split; assumption]].
  f_equal. exact Htail.
Qed.

Lemma capture_Some (pat : list ascii) (class : ascii -> bool) (l m : list ascii) :
  Re.capture pat class l = Some m ->
  exists front rest,
    l = (front ++ pat ++ m ++ rest)%list
    /\ m <> []
    /\ forallb class m = true
    /\ match rest with
       | c :: _ => class c = false
       | [] => True
       end.
Proof.
  induction l as [|c l IH]; cbn [Re.capture].
  - destruct (Re.captureHere pat class []) as [m'|] eqn:Hhere; [|discriminate].
    intros [= ->]. apply captureHere_Some in Hhere as (rest & Hl & Hrest).
    exists [], rest. split; [exact Hl|exact Hrest].
  - destruct (Re.captureHere pat class (c :: l)) as [m'|] eqn:Hhere.
    + intros [= ->]. apply captureHere_Some in Hhere as (rest & Hl & Hrest).
      exists [], rest. split; [exact Hl|exact Hrest].
    + intros Hm. destruct (IH Hm) as (front & rest & -> & Hrest).
      exists (c :: front), rest. split; [reflexivity|exact Hrest].
Qed.

Lemma captureHere_None (pat : list ascii) (class : ascii -> bool) (c : ascii)
    (rest : list ascii) :
  Re.captureHere pat class (pat ++ c :: rest) = None -> class c = false.
Proof.
  unfold Re.captureHere. rewrite prefixChars_app, drop_app_length. cbn [Re.run].
  destruct (class c); [discriminate|reflexivity].
Qed.

(** Where there is no capture, every occurrence of [pat] is followed by
    a character outside [class], or by nothing. *)
Lemma capture_None (pat : list ascii) (class : ascii -> bool) (l : list ascii) :
  Re.capture pat class l = None ->
  forall front c rest, l = (front ++ pat ++ c :: rest)%list -> class c = false.
Proof.
  induction l as [|x l IH]; cbn [Re.capture]; intros Hnone front c rest Hl.
  - destruct front, pat; discriminate.
  - destruct (Re.captureHere pat class (x :: l)) eqn:Hhere; [discriminate|].
    destruct front as [|y front].
    + cbn [app] in Hl. rewrite Hl in Hhere. apply (captureHere_None _ _ _ _ Hhere).
    + injection Hl as <- Hl. apply (IH Hnone front c rest Hl).
Qed.

Lemma contains_app (p front rest : list ascii) :
  Re.contains p (front ++ p ++ rest) = true.
Proof.
  induction front as [|c front IH]; cbn [app].
  - destruct (p ++ rest)%list eqn:Hl; cbn [Re.contains]; rewrite <- Hl, prefixChars_app;
      reflexivity.
  - cbn [Re.contains]. rewrite IH. apply orb_true_r.
Qed.

End CaptureFacts.

(** ** What a link points to *)

Section LocationFacts.
Import Links.

Lemma includes_app (front p rest : string) :
  includes (front +:+ p +:+ rest) p = true.
Proof. unfold includes. rewrite !chars_app. apply contains_app. Qed.

Lemma ofChars_nonempty (m : list ascii) : m <> [] -> Str.ofChars m <> "".
Proof. destruct m; [contradiction|discriminate]. Qed.

Lemma parseVideoId_found (u : Location) (id : string) :
  parseVideoId (Some u) = Some id ->
  id <> ""
  /\ ((exists front rest,
         pathname u = front +:+ "/video/" +:+ id +:+ rest
         /\ forallb Re.isDigit (Str.chars id) = true
         /\ match Str.chars rest with
            | c :: _ => Re.isDigit c = false
            | [] => True
            end
         /\ guessType (Some u) = video)
      \/ searchGet (searchParams u) "aweme_id" = Some id
      \/ searchGet (searchParams u) "item_id" = Some id).
Proof.
  assert (Hpath : forall pat m,
            Re.capture (Str.chars pat) Re.isDigit (Str.chars (pathname u)) = Some m ->
            (exists front, pat = front +:+ "/video/") ->
            Str.ofChars m <> ""
            /\ exists front rest,
                 pathname u = front +:+ "/video/" +:+ Str.ofChars m +:+ rest
                 /\ forallb Re.isDigit (Str.chars (Str.ofChars m)) = true
                 /\ match Str.chars rest with
                    | c :: _ => Re.isDigit c = false
                    | [] => True
                    end
                 /\ guessType (Some u) = video).
  { intros pat m Hm [lead ->].
    apply capture_Some in Hm as (front & rest & Hp & Hne & Hdigits & Hrest).
    split; [apply ofChars_nonempty, Hne|].
    exists (Str.ofChars front +:+ lead), (Str.ofChars rest).
    assert (Hname : pathname u
                    = (Str.ofChars front +:+ lead) +:+ "/video/" +:+ Str.ofChars m
                      +:+ Str.ofChars rest).
    { apply chars_inj. rewrite Hp, !chars_app, !chars_ofChars, <- !app_assoc. reflexivity. }
    split; [exact Hname|]. rewrite !chars_ofChars.
    split; [exact Hdigits|split; [exact Hrest|]].
    unfold guessType. rewrite Hname at 2. rewrite includes_app, orb_true_r. reflexivity. }
  unfold parseVideoId.
  destruct (Re.capture (Str.chars "/share/video/") Re.isDigit (Str.chars (pathname u)))
    as [m1|] eqn:H1.
  { intros [= <-]. destruct (Hpath "/share/video/" m1 H1) as [Hne Hrest];
      [exists "/share"; reflexivity|]. split; [exact Hne|left; exact Hrest]. }
  destruct (Re.capture (Str.chars "/video/") Re.isDigit (Str.chars (pathname u)))
    as [m2|] eqn:H2.
  { intros [= <-]. destruct (Hpath "/video/" m2 H2) as [Hne Hrest];
      [exists ""; reflexivity|]. split; [exact Hne|left; exact Hrest]. }
  cbn zeta. unfold Str.orElse.
  destruct (searchGet (searchParams u) "aweme_id") as [a|]; cbn [default from_option Datatypes.id].
  - destruct (Str.isEmpty a) eqn:Ha.
    + destruct (searchGet (searchParams u) "item_id") as [b|]; cbn [default from_option Datatypes.id];
        [|discriminate].
      destruct (Str.isEmpty b) eqn:Hb; [discriminate|]. intros [= <-].
      split; [apply isEmpty_false, Hb|right; right; reflexivity].
    + rewrite Ha. intros [= <-]. split; [apply isEmpty_false, Ha|right; left; reflexivity].
  - cbn [Str.isEmpty].
    destruct (searchGet (searchParams u) "item_id") as [b|]; cbn [default from_option Datatypes.id];
      [|discriminate].
    destruct (Str.isEmpty b) eqn:Hb; [discriminate|]. intros [= <-].
    split; [apply isEmpty_false, Hb|right; right; reflexivity].
Qed.

(** An id that [parseVideoId] returns is not empty. It is read off the
    path, and then it is the longest run of digits after an occurrence of
    [/video/] and [guessType] says video; or it is the query parameter
    [aweme_id] or [item_id] as it was sent. *)
Theorem parseVideoId_spec (u : Location) (id : string) :
  parseVideoId (Some u) = Some id ->
  id <> ""
  /\ ((exists front rest,
         pathname u = front +:+ "/video/" +:+ id +:+ rest
         /\ forallb Re.isDigit (Str.chars id) = true
         /\ match Str.chars rest with
            | c :: _ => Re.isDigit c = false
            | [] => True
            end
         /\ guessType (Some u) = video)
      \/ searchGet (searchParams u) "aweme_id" = Some id
      \/ searchGet (searchParams u) "item_id" = Some id).
Proof. apply parseVideoId_found. Qed.

End LocationFacts.

Lemma parseVideoId_spec_witness :
  "7123456" <> ""
  /\ ((exists front rest,
         "/share/video/7123456/" = front +:+ "/video/" +:+ "7123456" +:+ rest
         /\ forallb Re.isDigit (Str.chars "7123456") = true
         /\ match Str.chars rest with
            | c :: _ => Re.isDigit c = false
            | [] => True
            end
         /\ Links.guessType (Some (Links.mkLocation "/share/video/7123456/" [])) = Links.video)
      \/ Links.searchGet [] "aweme_id" = Some "7123456"
      \/ Links.searchGet [] "item_id" = Some "7123456").
Proof.
  apply (parseVideoId_spec (Links.mkLocation "/share/video/7123456/" []) "7123456").
  reflexivity.
Defined.

(** ** The cookies of the handshake *)

Section CookieFacts.
Import Cookies.

Lemma isNot_false (x c : ascii) : Re.isNot x c = false -> c = x.
Proof. unfold Re.isNot. intros H. apply negb_false_iff, Ascii.eqb_eq in H. exact H. Qed.

Lemma capture_lacks (name sc : string) :
  Re.capture (Str.chars (name +:+ "=")) (Re.isNot ";") (Str.chars sc) = None ->
  lacksCookie name sc.
Proof.
  intros Hnone front c rest Hsc. apply isNot_false.
  apply (capture_None _ _ _ Hnone (Str.chars front) c (Str.chars rest)).
  rewrite Hsc, !chars_app, <- !app_assoc. reflexivity.
Qed.

(** [pickCookieValue] for a name of letters, digits and underscores.
    The value it returns is not empty and has no [;] in it; it stands in
    one of the headers right after [name=] and runs up to the next [;] or
    to the end; and no header before that one has a [name=] with a value
    after it. Where it returns nothing, no header has. *)
Theorem pickCookieValue_spec (setCookies : list string) (name : string) :
  Re.plain name = true ->
  (forall value,
     pickCookieValue setCookies name = Some value ->
     value <> ""
     /\ forallb (Re.isNot ";") (Str.chars value) = true
     /\ exists before sc after front rest,
          setCookies = (before ++ sc :: after)%list
          /\ sc = front +:+ name +:+ "=" +:+ value +:+ rest
          /\ (rest = "" \/ exists rest', rest = String ";" rest')
          /\ Forall (lacksCookie name) before)
  /\ (pickCookieValue setCookies name = None -> Forall (lacksCookie name) setCookies).
Proof.
  intros _. induction setCookies as [|sc setCookies [IHsome IHnone]]; cbn [pickCookieValue].
  - split; [discriminate|constructor].
  - destruct (Re.capture (Str.chars (name +:+ "=")) (Re.isNot ";") (Str.chars sc))
      as [m|] eqn:Hm.
    + split; [|discriminate]. intros value [= <-].
      apply capture_Some in Hm as (front & rest & Hsc & Hne & Hall & Hrest).
      split; [apply ofChars_nonempty, Hne|]. rewrite chars_ofChars.
      split; [exact Hall|].
      exists [], sc, setCookies, (Str.ofChars front), (Str.ofChars rest).
      split; [reflexivity|split; [|split; [|constructor]]].
      * apply chars_inj. rewrite Hsc, !chars_app, !chars_ofChars, <- !app_assoc.
        reflexivity.
      * destruct rest as [|c rest]; [left; reflexivity|right].
        apply isNot_false in Hrest as ->. exists (Str.ofChars rest). reflexivity.
    + apply capture_lacks in Hm. split.
      * intros value Hvalue.
        destruct (IHsome value Hvalue)
          as (Hne & Hall & before & sc' & after & front & rest & -> & Hsc & Hrest & Hbefore).
        split; [exact Hne|split; [exact Hall|]].
        exists (sc :: before), sc', after, front, rest.
        split; [reflexivity|split; [exact Hsc|split; [exact Hrest|]]].
        constructor; assumption.
      * intros Hnone. constructor; [exact Hm|apply IHnone, Hnone].
Qed.

(** *** The jar *)

Lemma jarGet_jarSet (k k' v : string) (jar : list (string * string)) :
  jarGet k (jarSet k' v jar) = if String.eqb k' k then Some v else jarGet k jar.
Proof.
  induction jar as [|[k0 v0] jar IH]; cbn [jarSet jarGet].
  - destruct (String.eqb k' k); reflexivity.
  - destruct (String.eqb_spec k0 k') as [->|Hne]; cbn [jarGet].
    + destruct (String.eqb k' k); reflexivity.
    + rewrite IH. destruct (String.eqb_spec k0 k) as [->|Hne'].
      * apply String.eqb_neq in Hne. rewrite String.eqb_sym, Hne. reflexivity.
      * reflexivity.
Qed.

Lemma jarGet_None (k : string) (jar : list (string * string)) :
  jarGet k jar = None <-> k ∉ map fst jar.
Proof.
  induction jar as [|[k0 v0] jar IH]; cbn [jarGet map fst].
  - split; [intros _ Hin; apply elem_of_nil in Hin; destruct Hin|reflexivity].
  - rewrite not_elem_of_cons. destruct (String.eqb_spec k0 k) as [->|Hne].
    + split; [discriminate|]. intros [Hk _]. contradiction.
    + rewrite IH. split; [intros Hk; split; [congruence|exact Hk]|tauto].
Qed.

Lemma jarSet_keys (k v : string) (jar : list (string * string)) :
  map fst (jarSet k v jar)
  = if jarGet k jar is Some _ then map fst jar else (map fst jar ++ [k])%list.
Proof.
  induction jar as [|[k0 v0] jar IH]; cbn [jarSet jarGet map fst app]; [reflexivity|].
  destruct (String.eqb k0 k); cbn [map fst]; [reflexivity|].
  rewrite IH. destruct (jarGet k jar); reflexivity.
Qed.

Lemma jarSet_NoDup (k v : string) (jar : list (string * string)) :
  NoDup (map fst jar) -> NoDup (map fst (jarSet k v jar)).
Proof.
  intros Hjar. rewrite jarSet_keys. destruct (jarGet k jar) eqn:Hk; [exact Hjar|].
  apply NoDup_app. split; [exact Hjar|split].
  - intros x Hx Hin. apply list_elem_of_singleton in Hin as ->.
    apply jarGet_None in Hk. contradiction.
  - apply NoDup_singleton.
Qed.

Lemma parseSetCookiePairs_snoc (setCookies : list string) (sc : string) :
  parseSetCookiePairs (setCookies ++ [sc]) = putCookie (parseSetCookiePairs setCookies) sc.
Proof. unfold parseSetCookiePairs. rewrite fold_left_app. reflexivity. Qed.

Lemma jarGet_putCookie (k : string) (jar : list (string * string)) (sc : string) :
  jarGet k (putCookie jar sc)
  = match pairOf sc with
    | Some (k', v) => if String.eqb k' k then Some v else jarGet k jar
    | None => jarGet k jar
    end.
Proof. unfold putCookie. destruct (pairOf sc) as [[k' v]|]; [apply jarGet_jarSet|reflexivity]. Qed.

Lemma forallb_take (f : ascii -> bool) (n : nat) (l : list ascii) :
  forallb f l = true -> forallb f (take n l) = true.
Proof.
  intros Hl. rewrite <- (take_drop n l) in Hl. apply forallb_app_true in Hl as [Hl _].
  exact Hl.
Qed.

Lemma forallb_drop (f : ascii -> bool) (n : nat) (l : list ascii) :
  forallb f l = true -> forallb f (drop n l) = true.
Proof.
  intros Hl. rewrite <- (take_drop n l) in Hl. apply forallb_app_true in Hl as [_ Hl].
  exact Hl.
Qed.

Lemma pairOf_clean (sc k v : string) :
  pairOf sc = Some (k, v) ->
  forallb (Re.isNot ";") (Str.chars k) = true /\ forallb (Re.isNot ";") (Str.chars v) = true.
Proof.
  unfold pairOf. cbn zeta.
  pose proof (run_forallb (Re.isNot ";") (Str.chars sc)) as Hkv.
  destruct (indexOf "=" (Re.run (Re.isNot ";") (Str.chars sc))) as [[|eq]|]; try discriminate.
  intros [= <- <-]. split; apply trim_forallb; [apply forallb_take|apply forallb_drop];
    exact Hkv.
Qed.

(** The jar of [parseSetCookiePairs] holds every name once. Under a name
    it holds the value of the last header that sets a cookie of that
    name. No name and no value in it has a [;]. *)
Theorem parseSetCookiePairs_jar (setCookies : list string) :
  NoDup (map fst (parseSetCookiePairs setCookies))
  /\ (forall k v,
        jarGet k (parseSetCookiePairs setCookies) = Some v
        <-> exists before sc after,
              setCookies = (before ++ sc :: after)%list
              /\ pairOf sc = Some (k, v)
              /\ Forall (setsNot k) after)
  /\ Forall
       (fun kv =>
          forallb (Re.isNot ";") (Str.chars kv.1) = true
          /\ forallb (Re.isNot ";") (Str.chars kv.2) = true)
       (parseSetCookiePairs setCookies).
Proof.
  assert (Hall : NoDup (map fst (parseSetCookiePairs setCookies))).
  { induction setCookies as [|sc setCookies IH] using rev_ind; [constructor|].
    rewrite parseSetCookiePairs_snoc. unfold putCookie.
    destruct (pairOf sc) as [[k v]|]; [apply jarSet_NoDup, IH|apply IH]. }
  assert (Hget : forall k v,
            jarGet k (parseSetCookiePairs setCookies) = Some v
            <-> exists before sc after,
                  setCookies = (before ++ sc :: after)%list
                  /\ pairOf sc = Some (k, v)
                  /\ Forall (setsNot k) after).
  { clear Hall. induction setCookies as [|sc setCookies IH] using rev_ind; intros k v.
    - cbn. split; [discriminate|]. intros (before & sc & after & Hnil & _).
      destruct before; discriminate.
    - rewrite parseSetCookiePairs_snoc, jarGet_putCookie. split.
      + destruct (pairOf sc) as [[k' v']|] eqn:Hsc.
        * destruct (String.eqb_spec k' k) as [->|Hne].
          -- intros [= ->]. exists setCookies, sc, []. repeat split; [exact Hsc|constructor].
          -- intros Hv. apply IH in Hv as (before & sc0 & after & -> & Hsc0 & Hafter).
             exists before, sc0, (after ++ [sc])%list. rewrite <- app_assoc.
             split; [reflexivity|split; [exact Hsc0|]].
             apply Forall_app. split; [exact Hafter|]. constructor; [|constructor].
             intros v0 Hv0. congruence.
        * intros Hv. apply IH in Hv as (before & sc0 & after & -> & Hsc0 & Hafter).
          exists before, sc0, (after ++ [sc])%list. rewrite <- app_assoc.
          split; [reflexivity|split; [exact Hsc0|]].
          apply Forall_app. split; [exact Hafter|]. constructor; [|constructor].
          intros v0 Hv0. congruence.
      + intros (before & sc0 & after & Heq & Hsc0 & Hafter).
        destruct after as [|sc1 after _] using rev_ind.
        * apply app_inj_tail in Heq as [-> ->]. rewrite Hsc0, String.eqb_refl. reflexivity.
        * change (before ++ sc0 :: after ++ [sc1])%list
            with (before ++ (sc0 :: after) ++ [sc1])%list in Heq.
          rewrite app_assoc in Heq. apply app_inj_tail in Heq as [-> ->].
          apply Forall_app in Hafter as [Hafter Hsc1].
          apply Forall_cons in Hsc1 as [Hsc1 _].
          assert (Hold : jarGet k (parseSetCookiePairs (before ++ sc0 :: after)) = Some v).
          { apply IH. exists before, sc0, after. auto. }
          destruct (pairOf sc1) as [[k' v']|] eqn:Hp; [|exact Hold].
          destruct (String.eqb_spec k' k) as [->|Hne]; [|exact Hold].
          exfalso. exact (Hsc1 v' Hp). }
  split; [exact Hall|split; [exact Hget|]].
  apply List.Forall_forall. intros [k v] Hin. cbn [fst snd].
  assert (Hkv : jarGet k (parseSetCookiePairs setCookies) = Some v).
  { clear Hget. induction (parseSetCookiePairs setCookies) as [|[k0 v0] jar IH];
      [destruct Hin|].
    cbn [map fst] in Hall. apply NoDup_cons in Hall as [Hk0 Hall]. cbn [jarGet].
    destruct Hin as [[= -> ->]|Hin]; [rewrite String.eqb_refl; reflexivity|].
    destruct (String.eqb_spec k0 k) as [->|_]; [|apply IH; assumption].
    exfalso. apply Hk0. apply list_elem_of_In. apply (in_map fst _ _ Hin). }
  apply Hget in Hkv as (before & sc & after & _ & Hsc & _).
  apply (pairOf_clean _ _ _ Hsc).
Qed.

End CookieFacts.

Lemma pickCookieValue_spec_witness :
  Forall (lacksCookie "__ac_nonce") ["ttwid=1; Path=/"; "__ac_nonce=; Max-Age=0"].
Proof.
  apply (pickCookieValue_spec ["ttwid=1; Path=/"; "__ac_nonce=; Max-Age=0"] "__ac_nonce");
    reflexivity.
Defined.

(** ** The life of a session *)

Section SessionLife.
Import Session.

Lemma cold_invalidate (now : Z) (c : Cache) : cold now (invalidate c) = true.
Proof. reflexivity. Qed.

(** One caller alone finds the cache cold and the lock free, and waits
    for the handshake it began. Whatever the handshake brings, the lock is
    free again afterwards and one more handshake has been counted. If it
    brings a session, the cache holds that session, and every call
    earlier than 28 minutes after the handshake returns it without a
    handshake. If it fails, the cache holds what it held, and the next
    call that finds it cold begins a handshake of its own. After
    [douyinWebSession = null] no call returns a cached session. *)
Theorem awaitSession_life (now : Z) (h : Handshake) (c : Cache) :
  cold now c = true ->
  douyinWebSessionLock c = None ->
  douyinWebSessionLock (awaitSession now h c).2 = None
  /\ handshakes (awaitSession now h c).2 = S (handshakes c)
  /\ (forall s,
        (awaitSession now h c).1 = Return s ->
        douyinWebSession (awaitSession now h c).2 = Some s
        /\ forall later,
             later < hs_now h + 28 * 60 * 1000 ->
             getDouyinWebSession later (awaitSession now h c).2
             = (Cached s, (awaitSession now h c).2))
  /\ (forall msg,
        (awaitSession now h c).1 = Throw msg ->
        douyinWebSession (awaitSession now h c).2 = douyinWebSession c
        /\ forall later,
             cold later c = true ->
             (getDouyinWebSession later (awaitSession now h c).2).1
             = Started (S (handshakes c)))
  /\ (forall later c', exists p,
        (getDouyinWebSession later (invalidate c')).1 = Joined p
        \/ (getDouyinWebSession later (invalidate c')).1 = Started p).
Proof.
  intros Hcold Hfree. unfold awaitSession.
  rewrite (getDouyinWebSession_cold_free _ _ Hcold Hfree). cbn [fst snd].
  unfold settle. cbn [douyinWebSessionLock douyinWebSession handshakes].
  rewrite bool_decide_eq_true_2 by reflexivity.
  cbn [douyinWebSessionLock douyinWebSession handshakes].
  split; [reflexivity|split; [reflexivity|split; [|split]]].
  - intros s Hs. rewrite Hs. split; [reflexivity|].
    intros later Hlater. apply getDouyinWebSession_usable; [reflexivity|].
    apply refresh_expiry in Hs. unfold usable. apply Z.ltb_lt. lia.
  - intros msg Hmsg. rewrite Hmsg. split; [reflexivity|].
    intros later Hlater.
    rewrite (getDouyinWebSession_cold_free later); [reflexivity|exact Hlater|reflexivity].
  - intros later c'. unfold getDouyinWebSession, invalidate.
    cbn [douyinWebSession douyinWebSessionLock handshakes].
    destruct (douyinWebSessionLock c') as [p|]; cbn [fst]; eauto.
Qed.

End SessionLife.

Lemma awaitSession_life_witness :
  Session.handshakes
    (Session.awaitSession 1000 (ListingRun.handshake "n1" 1000) (Session.mkCache None None 0)).2
  = 1%nat.
Proof.
  apply (awaitSession_life 1000 (ListingRun.handshake "n1" 1000) (Session.mkCache None None 0));
    reflexivity.
Defined.

(** ** Sweeping again *)

Section SweepAgain.
Import Tasks.

(** A sweep after a sweep removes what the later one alone removes:
    sweeping twice at one time is sweeping once, and an earlier sweep
    takes nothing that the later one would have left. *)
Theorem cleanupCaptionTasks_again (earlier later : Z)
    (captionTasks : gmap string CaptionTask) :
  earlier <= later ->
  cleanupCaptionTasks later (cleanupCaptionTasks earlier captionTasks)
  = cleanupCaptionTasks later captionTasks.
Proof.
  intros Hle. apply map_eq. intros taskId. apply option_eq. intros task.
  rewrite !cleanupCaptionTasks_lookup. unfold expired. split.
  - intros [[Hl _] Hne]. split; assumption.
  - intros [Hl Hne]. split; [split; [exact Hl|]|exact Hne].
    intros [Hterm Hold]. apply Hne. split; [exact Hterm|lia].
Qed.

End SweepAgain.

Lemma cleanupCaptionTasks_again_witness :
  Tasks.cleanupCaptionTasks 4000000
    (Tasks.cleanupCaptionTasks 4000000
       (<["a" := oldTask "a" Tasks.SUCCESS]> (<["b" := oldTask "b" Tasks.RUNNING]> ∅)))
  = Tasks.cleanupCaptionTasks 4000000
      (<["a" := oldTask "a" Tasks.SUCCESS]> (<["b" := oldTask "b" Tasks.RUNNING]> ∅)).
Proof. apply (cleanupCaptionTasks_again 4000000 4000000). lia. Defined.

(** ** The transcoder's path and the tail of its complaints *)

Section FfmpegFacts.
Import Ffmpeg.

(** [getFfmpegPath] imports at most once. After a call the cache is set,
    and a further call returns what that call returned and leaves the
    cache alone, however the import would end then: a failure is
    remembered as a path is. A path it returns is not empty, and one that
    comes from the import is trimmed. *)
Theorem getFfmpegPath_memo (cachedFfmpegPath : Cache) (imported again : Exc JsValue) :
  (getFfmpegPath cachedFfmpegPath imported).2 <> None
  /\ getFfmpegPath (getFfmpegPath cachedFfmpegPath imported).2 again
     = getFfmpegPath cachedFfmpegPath imported
  /\ (forall path,
        (getFfmpegPath cachedFfmpegPath imported).1 = Return path ->
        path <> "" /\ (cachedFfmpegPath = None -> Str.trim path = path)).
Proof.
  unfold getFfmpegPath.
  destruct cachedFfmpegPath as [[[|c path]|]|]; cbn [fst snd].
  - split; [discriminate|split; [reflexivity|]]. intros path [=].
  - split; [discriminate|split; [reflexivity|]]. intros path' [= <-].
    split; [discriminate|discriminate].
  - split; [discriminate|split; [reflexivity|]]. intros path [=].
  - destruct (pathOf imported) as [[|c path]|] eqn:Hfound; cbn [fst snd].
    + split; [discriminate|split; [reflexivity|]]. intros path [=].
    + split; [discriminate|split; [reflexivity|]]. intros path' [= <-].
      split; [discriminate|]. intros _. unfold pathOf in Hfound.
      destruct imported as [loaded|]; [|discriminate].
      destruct (Js.coalesce (Js.optProp loaded "default") loaded); try discriminate.
      destruct (Str.isEmpty (Str.trim s)); [discriminate|].
      injection Hfound as <-. apply trim_idem.
    + split; [discriminate|split; [reflexivity|]]. intros path [=].
Qed.

Lemma chars_length (s : string) : length (Str.chars s) = String.length s.
Proof. induction s as [|c s IH]; cbn; [reflexivity|]. f_equal. exact IH. Qed.

(** [tailText] returns the end of the text: the whole of it where it has
    no more than [maxChars] characters, its last [maxChars] characters
    otherwise. *)
Theorem tailText_suffix (text : string) (maxChars : nat) :
  (exists front, text = front +:+ tailText text maxChars)
  /\ String.length (tailText text maxChars) = Nat.min (String.length text) maxChars.
Proof.
  unfold tailText. cbn zeta. destruct (Nat.leb_spec (length (Str.chars text)) maxChars) as [Hle|Hgt].
  - rewrite chars_length in Hle. split; [exists ""; reflexivity|lia].
  - split.
    + exists (Str.ofChars (take (length (Str.chars text) - maxChars) (Str.chars text))).
      rewrite <- ofChars_app, take_drop, ofChars_chars. reflexivity.
    + rewrite <- chars_length, chars_ofChars, length_drop, <- chars_length. lia.
Qed.

End FfmpegFacts.

(** ** Whole runs of the adapters *)

Section RunFacts.
Context `{Platform}.
Import Tasks Runs Monitors.

(** What a monitor keeps, it finds at the end of every run. *)
Lemma Kept_play (m : Monitor) (s : mstate m) (a : Adapter) :
  Kept m s a ->
  forall aborted clock n answers,
    accepts m (fold_left (observe m) (play a aborted clock n answers).1 s)
      (play a aborted clock n answers).2.
Proof.
  induction 1 as [s transcript publicUrl Hok|s err Hok|s stage message k _ IH
                 |s k _ IH|s k _ IH|s op k Hok _ IH];
    intros aborted clock n answers; cbn [play].
  - exact Hok.
  - exact Hok.
  - specialize (IH aborted clock (S n) answers).
    destruct (play k aborted clock (S n) answers) as [events ending]. exact IH.
  - apply IH.
  - apply IH.
  - destruct answers as [|answer rest]; [exact Hok|].
    specialize (IH answer aborted clock (S n) rest).
    destruct (play (k answer) aborted clock (S n) rest) as [events ending]. exact IH.
Qed.

Lemma dirs_counts (events : list Event) (s : nat * nat) :
  fold_left (observe dirs) events s = ((s.1 + made events)%nat, (s.2 + removed events)%nat).
Proof.
  revert s. induction events as [|e events IH]; intros [ma re]; cbn [fold_left fst snd].
  - unfold made, removed. cbn. f_equal; lia.
  - rewrite IH. unfold made, removed. cbn [List.filter].
    destruct e as [stage message|op answer]; cbn [observe dirs fst snd].
    + f_equal; lia.
    + destruct op; try destruct answer; cbn [fst snd length]; f_equal; lia.
Qed.

Lemma requests_list (urls : list string) (events : list Event) (s : list string) :
  fold_left (observe (requestsTo urls)) events s = (s ++ requested events)%list.
Proof.
  revert s. induction events as [|e events IH]; intros s; cbn [fold_left].
  - unfold requested. cbn. rewrite app_nil_r. reflexivity.
  - rewrite IH. unfold requested. cbn [omap list_omap].
    destruct e as [stage message|op answer]; cbn [observe requestsTo]; [reflexivity|].
    destruct op; try reflexivity. rewrite <- app_assoc. reflexivity.
Qed.

Lemma rising_list (events : list Event) (s : list CaptionTaskStage) :
  fold_left (observe rising) events s = (s ++ stages events)%list.
Proof.
  revert s. induction events as [|e events IH]; intros s; cbn [fold_left].
  - unfold stages. cbn. rewrite app_nil_r. reflexivity.
  - rewrite IH. unfold stages. cbn [omap list_omap].
    destruct e as [stage message|op answer]; cbn [observe rising]; [|reflexivity].
    rewrite <- app_assoc. reflexivity.
Qed.

Lemma course_list (videoHref : string) (events : list Event)
    (s : list CaptionTaskStage * list string) :
  fold_left (observe (course videoHref)) events s
  = ((s.1 ++ stages events)%list, (s.2 ++ requested events)%list).
Proof.
  revert s. induction events as [|e events IH]; intros [st rq]; cbn [fold_left fst snd].
  - unfold stages, requested. cbn. rewrite !app_nil_r. reflexivity.
  - rewrite IH. unfold stages, requested. cbn [omap list_omap].
    destruct e as [stage message|op answer]; cbn [observe course fst snd].
    + rewrite <- app_assoc. reflexivity.
    + destruct op; cbn [fst snd]; try reflexivity. rewrite <- app_assoc. reflexivity.
Qed.

Lemma queries_nil (taskId : string) : queries taskId [].
Proof. exists 0%nat. reflexivity. Qed.

Lemma queries_snoc (taskId : string) (urls : list string) :
  queries taskId urls -> queries taskId (urls ++ [taskEndpoint taskId]).
Proof.
  intros [polls ->]. exists (S polls). induction polls as [|polls IH]; [reflexivity|].
  cbn [replicate app] in *. f_equal. exact IH.
Qed.

End RunFacts.

Section AdapterRuns.
Context `{Platform}.
Import Tasks Runs Monitors.

Lemma readReply_returns (apiRes : Http.Response) (apiText transcript : string) :
  Flash.readReply apiRes apiText = Return transcript ->
  transcript <> "" /\ Str.trim transcript = transcript.
Proof.
  unfold Flash.readReply. cbn zeta.
  destruct (negb (Http.ok apiRes)); [discriminate|].
  destruct (_ && _); [discriminate|].
  destruct (Str.isEmpty (Flash.resultText apiText)) eqn:Hempty; [discriminate|].
  intros [= <-]. split; [apply isEmpty_false, Hempty|].
  unfold Flash.resultText. apply trim_idem.
Qed.

Ltac open_adapter :=
  cbv beta iota zeta
      delta [cleanupThen errorOf withJson withProp sleep readTranscripts
             getDashscopeUploadPolicy uploadToDashscopeTemporaryOss].

Ltac step_kept accept :=
  first
    [ match goal with
      | Hpoll : context [pollLoop] |- Kept _ _ (pollLoop _ _ _ _) => apply Hpoll; accept
      end
    | apply Kept_resolve; accept
    | apply Kept_reject; accept
    | apply Kept_stage; cbn [observe dirs requestsTo rising course fst snd app]
    | apply Kept_aborted; intros ?
    | apply Kept_clock; intros ?
    | apply Kept_await;
      [accept|intros []; cbn [observe dirs requestsTo rising course fst snd app]]
    | match goal with
      | |- Kept _ _ (if ?b then _ else _) => destruct b eqn:?
      | |- Kept _ _ (match ?x with _ => _ end) => destruct x eqn:?
      end ].

Ltac kept accept := repeat (open_adapter; step_kept accept).

(** *** The temporary directory *)

Ltac accept_dirs :=
  cbn [accepts dirs fst snd isPending];
  first [ split; [lia|first [intros _; reflexivity|intros Hp; discriminate Hp]]
        | assumption
        | reflexivity ].

Lemma flash_dirs (videoUrl cfgAppKey cfgAccessKey : string) :
  Kept dirs (0, 0)%nat (transcribeWithDoubaoBigasrFlash videoUrl cfgAppKey cfgAccessKey).
Proof.
  unfold transcribeWithDoubaoBigasrFlash, extractMp3FromVideoBuffer. kept accept_dirs.
Qed.

Lemma pollLoop_dirs (rounds : nat) (taskId : string) (startTime : Z) (publicUrl : string) :
  Kept dirs (0, 0)%nat (pollLoop rounds taskId startTime publicUrl).
Proof.
  induction rounds as [|rounds IH]; cbn [pollLoop]; kept accept_dirs.
Qed.

Lemma paraformer_dirs (videoUrl apiKey : string) :
  Kept dirs (0, 0)%nat (transcribeWithParaformer videoUrl apiKey).
Proof.
  unfold transcribeWithParaformer. pose proof pollLoop_dirs as Hpoll. kept accept_dirs.
Qed.

(** Whatever the provider and however the run goes, the job asks for at
    most one temporary directory, asks for the removal of no directory
    that was not made, and has asked for the removal of the one it made
    when it resolves or rejects. *)
Theorem jobFor_removes_directory (provider : Provider)
    (doubaoAppId doubaoToken dashscopeApiKey : string) (playUrl : JsValue) (s : Setting) :
  let r := run (jobFor provider doubaoAppId doubaoToken dashscopeApiKey playUrl) s in
  (removed r.1 <= made r.1 <= 1)%nat
  /\ (r.2 <> Pending -> made r.1 = removed r.1).
Proof.
  cbn zeta. unfold run.
  set (job := jobFor provider doubaoAppId doubaoToken dashscopeApiKey playUrl).
  assert (Hkept : Kept dirs (0, 0)%nat job).
  { subst job. destruct provider; cbn [jobFor];
      [apply flash_dirs|apply Kept_stage, paraformer_dirs]. }
  pose proof (Kept_play dirs _ _ Hkept (aborted s) (clock s) 0%nat (answers s)) as Hacc.
  rewrite dirs_counts in Hacc. cbn [accepts dirs fst snd] in Hacc.
  destruct Hacc as [Hle Hend]. split; [lia|].
  intros Hne. apply Hend. destruct (play job _ _ _ _).2; [reflexivity..|contradiction].
Qed.

(** *** The requests of the flash recognizer *)

Ltac accept_requests :=
  cbn [accepts requestsTo];
  first [ split; [eexists; reflexivity|exact I]
        | split; [eexists; reflexivity|];
          split; [reflexivity|];
          match goal with
          | Hreply : Flash.readReply _ _ = Return _ |- _ =>
              destruct (readReply_returns _ _ _ Hreply) as [? ?];
              split; [assumption|split; [assumption|reflexivity]]
          end ].

Lemma flash_requests (videoUrl cfgAppKey cfgAccessKey : string) (safeUrl : Url.URL) :
  Url.assertSafeExternalHttpUrl videoUrl = Return safeUrl ->
  Kept (requestsTo [Url.href safeUrl; flashEndpoint]) []
    (transcribeWithDoubaoBigasrFlash videoUrl cfgAppKey cfgAccessKey).
Proof.
  intros Hguard. unfold transcribeWithDoubaoBigasrFlash, extractMp3FromVideoBuffer.
  rewrite Hguard. kept accept_requests.
Qed.

(** The flash recognizer asks for nothing and rejects with the guard's
    message where the guard refuses the video URL. Where the guard lets it
    through, its requests are, in this order, the video and the
    recognizer's endpoint, and nothing else; it resolves only after both,
    with a transcript that is trimmed and not empty and without a public
    URL. *)
Theorem transcribeWithDoubaoBigasrFlash_run (videoUrl cfgAppKey cfgAccessKey : string)
    (s : Setting) :
  let r := run (transcribeWithDoubaoBigasrFlash videoUrl cfgAppKey cfgAccessKey) s in
  match Url.assertSafeExternalHttpUrl videoUrl with
  | Throw msg => r = ([], Rejected (plainError msg))
  | Return safeUrl =>
      requested r.1 `prefix_of` [Url.href safeUrl; flashEndpoint]
      /\ forall transcript publicUrl,
           r.2 = Resolved transcript publicUrl ->
           requested r.1 = [Url.href safeUrl; flashEndpoint]
           /\ transcript <> "" /\ Str.trim transcript = transcript /\ publicUrl = None
  end.
Proof.
  cbn zeta. unfold run.
  destruct (Url.assertSafeExternalHttpUrl videoUrl) as [safeUrl|msg] eqn:Hguard.
  - pose proof (Kept_play _ _ _ (flash_requests videoUrl cfgAppKey cfgAccessKey safeUrl Hguard)
                  (aborted s) (clock s) 0%nat (answers s)) as Hacc.
    rewrite requests_list in Hacc. cbn [accepts requestsTo app] in Hacc.
    destruct Hacc as [Hprefix Hend]. split; [exact Hprefix|].
    intros transcript publicUrl Hr. rewrite Hr in Hend. exact Hend.
  - unfold transcribeWithDoubaoBigasrFlash. rewrite Hguard. reflexivity.
Qed.

(** *** The course of the Paraformer recognizer *)

Lemma course_resolved (videoHref host dir taskId resultUrl : string)
    (earlier : list string) :
  queries taskId earlier ->
  resolvedCourse videoHref
    ([downloading; uploading; submitting; polling; fetching_result],
     videoHref :: policyEndpoint :: host :: submitEndpoint
       :: ((earlier ++ [taskEndpoint taskId]) ++ [resultUrl])%list)
    (Some ("oss://" +:+ (dir +:+ "/" +:+ "video.mp4"))).
Proof.
  intros Hearlier. split; [reflexivity|].
  exists host, dir, taskId, earlier, resultUrl. split; [reflexivity|].
  split; [exact Hearlier|reflexivity].
Qed.

Ltac accept_course :=
  first
    [ assumption
    | apply queries_nil
    | apply queries_snoc; assumption
    | cbn [accepts course fst snd head app];
      split; [first [left; reflexivity|right; reflexivity]|];
      first [exact I|apply course_resolved; assumption] ].

Lemma pollLoop_course (videoHref host dir taskId : string) (startTime : Z) (rounds : nat) :
  forall earlier,
    queries taskId earlier ->
    Kept (course videoHref)
      ([downloading; uploading; submitting; polling],
       videoHref :: policyEndpoint :: host :: submitEndpoint :: earlier)
      (pollLoop rounds taskId startTime ("oss://" +:+ (dir +:+ "/" +:+ "video.mp4"))).
Proof.
  induction rounds as [|rounds IH]; intros earlier Hearlier; cbn [pollLoop];
    kept accept_course.
Qed.

Lemma paraformer_course (videoUrl apiKey : string) (safeUrl : Url.URL) :
  Url.assertSafeExternalHttpUrl videoUrl = Return safeUrl ->
  Kept (course (Url.href safeUrl)) ([], []) (transcribeWithParaformer videoUrl apiKey).
Proof.
  intros Hguard. unfold transcribeWithParaformer. rewrite Hguard.
  pose proof pollLoop_course as Hpoll. kept accept_course.
Qed.

(** The Paraformer recognizer asks for nothing and rejects with the
    guard's message where the guard refuses the video URL. Where the
    guard lets it through, the first request is for the video; and a run
    that resolves has reported the five stages of work once each, in
    order, has asked in turn for the video, the upload policy, the upload
    host that the policy named, the submission and the state of the task,
    that at least once, and for the result last, and gives the [oss://]
    address of the upload as its public URL. *)
Theorem transcribeWithParaformer_run (videoUrl apiKey : string) (s : Setting) :
  let r := run (transcribeWithParaformer videoUrl apiKey) s in
  match Url.assertSafeExternalHttpUrl videoUrl with
  | Throw msg => r = ([], Rejected (plainError msg))
  | Return safeUrl =>
      (head (requested r.1) = None \/ head (requested r.1) = Some (Url.href safeUrl))
      /\ forall transcript publicUrl,
           r.2 = Resolved transcript publicUrl ->
           resolvedCourse (Url.href safeUrl) (stages r.1, requested r.1) publicUrl
  end.
Proof.
  cbn zeta. unfold run.
  destruct (Url.assertSafeExternalHttpUrl videoUrl) as [safeUrl|msg] eqn:Hguard.
  - pose proof (Kept_play _ _ _ (paraformer_course videoUrl apiKey safeUrl Hguard)
                  (aborted s) (clock s) 0%nat (answers s)) as Hacc.
    rewrite course_list in Hacc. cbn [accepts course fst snd app] in Hacc.
    destruct Hacc as [Hfirst Hend]. split; [exact Hfirst|].
    intros transcript publicUrl Hr. rewrite Hr in Hend. exact Hend.
  - unfold transcribeWithParaformer. rewrite Hguard. reflexivity.
Qed.

(** *** The stages *)

Lemma rising_snoc (s : list CaptionTaskStage) (stage : CaptionTaskStage) :
  stageRank stage = 5%nat ->
  accepts rising s Pending -> accepts rising (s ++ [stage])%list Pending.
Proof.
  cbn [accepts rising]. intros Hrank [Hsorted Hwork]. split.
  - clear - Hrank Hsorted Hwork. induction s as [|a s IH]; cbn [app].
    + repeat constructor.
    + apply StronglySorted_inv in Hsorted as [Hsorted Ha].
      apply Forall_cons in Hwork as [Hwa Hwork].
      constructor; [apply IH; assumption|].
      apply Forall_app. split; [exact Ha|]. constructor; [lia|constructor].
  - apply Forall_app. split; [exact Hwork|]. constructor; [lia|constructor].
Qed.

Ltac accept_rising :=
  first [ assumption
        | apply rising_snoc; [reflexivity|assumption]
        | cbn [accepts rising]; split; repeat constructor; cbn [stageRank]; lia ].

Lemma flash_rising (videoUrl cfgAppKey cfgAccessKey : string) :
  Kept rising [] (transcribeWithDoubaoBigasrFlash videoUrl cfgAppKey cfgAccessKey).
Proof.
  unfold transcribeWithDoubaoBigasrFlash, extractMp3FromVideoBuffer. kept accept_rising.
Qed.

Lemma pollLoop_rising (rounds : nat) (taskId : string) (startTime : Z) (publicUrl : string)
    (s : list CaptionTaskStage) :
  accepts rising s Pending -> Kept rising s (pollLoop rounds taskId startTime publicUrl).
Proof.
  intros Hs. induction rounds as [|rounds IH]; cbn [pollLoop]; kept accept_rising.
Qed.

Lemma paraformer_rising (videoUrl apiKey : string) :
  Kept rising [downloading] (transcribeWithParaformer videoUrl apiKey).
Proof.
  unfold transcribeWithParaformer. pose proof pollLoop_rising as Hpoll. kept accept_rising.
Qed.

(** The stages that a job reports are stages of work, from downloading
    to fetching_result, and each is at least as far on as the one
    reported before it: what a client is shown never goes back. *)
Theorem jobFor_stages_rise (provider : Provider)
    (doubaoAppId doubaoToken dashscopeApiKey : string) (playUrl : JsValue) (s : Setting) :
  let r := run (jobFor provider doubaoAppId doubaoToken dashscopeApiKey playUrl) s in
  StronglySorted (fun a b => (stageRank a <= stageRank b)%nat) (stages r.1)
  /\ Forall (fun stage => (1 <= stageRank stage <= 5)%nat) (stages r.1).
Proof.
  cbn zeta. unfold run.
  set (job := jobFor provider doubaoAppId doubaoToken dashscopeApiKey playUrl).
  assert (Hkept : Kept rising [] job).
  { subst job. destruct provider; cbn [jobFor];
      [apply flash_rising|apply Kept_stage, paraformer_rising]. }
  pose proof (Kept_play rising _ _ Hkept (aborted s) (clock s) 0%nat (answers s)) as Hacc.
  rewrite rising_list in Hacc. exact Hacc.
Qed.

End AdapterRuns.

(** ** Creating and querying *)

Section CreateFacts.
Context `{Platform}.
Import Tasks.

Lemma atFirstPause_keeps (now : Z) (a : Adapter) :
  forall task,
    id (atFirstPause now a task) = id task
    /\ createdAt (atFirstPause now a task) = createdAt task.
Proof.
  induction a as [transcript publicUrl|err|stage message k IH|k IH|k IH|op k IH];
    intros task; cbn [atFirstPause]; try (split; reflexivity).
  - destruct (IH (update now stage message task)) as [-> ->]. split; reflexivity.
  - apply IH.
  - apply IH.
Qed.

(** A job writes [now] into [updatedAt] and leaves [id] and [createdAt]
    alone. *)
Lemma runJob_stamps (now : Z) (a : Adapter) :
  forall task writes,
    updatedAt task = now ->
    updatedAt (runJob now a task writes).1.1 = now
    /\ id (runJob now a task writes).1.1 = id task
    /\ createdAt (runJob now a task writes).1.1 = createdAt task.
Proof.
  induction a as [transcript publicUrl|err|stage message k IH|k IH|k IH|op k IH];
    intros task writes Hnow; cbn [runJob].
  - repeat split; reflexivity.
  - repeat split; reflexivity.
  - destruct (IH (update now stage message task) (update now stage message task :: writes)
                eq_refl) as (-> & -> & ->). repeat split; reflexivity.
  - apply IH, Hnow.
  - apply IH, Hnow.
  - destruct (wakesOnAbort op && abort task); [apply IH, Hnow|].
    cbn [fst]. repeat split; [exact Hnow|reflexivity..].
Qed.

(** What [createFromMeta] does when it answers 200, and when it does
    not. *)
Lemma createFromMeta_outcome (provider : Provider) (a b c : string) (meta : VideoMeta)
    (taskId : string) (now : Z) (w : World) :
  let created := createFromMeta provider a b c meta taskId now w in
  (exists error,
     reply created = mkReply 500 (ErrorBody error)
     /\ world created = w /\ launched created = None)
  \/ (exists task snapshot,
        reply created = mkReply 200 (SnapshotBody snapshot)
        /\ captionTasks (world created) !! taskId = Some task
        /\ s_taskId snapshot = taskId /\ s_createdAt snapshot = now
        /\ id task = taskId /\ createdAt task = now /\ updatedAt task = now
        /\ (launched created = None -> snapshot = snapshotCaptionTask task)).
Proof.
  cbn zeta. unfold createFromMeta.
  destruct (ownCaption meta) as [[text|]|msg].
  - right. eexists _, _. cbn [reply world launched captionTasks].
    rewrite lookup_insert_eq. repeat split; reflexivity.
  - destruct (negb (Js.truthy (playUrl meta))).
    + left. eexists. repeat split; reflexivity.
    + right. cbn [reply world launched].
      set (task := mkTask taskId WAITING queued (Some "任务已创建") now now None None None false).
      set (job := jobFor provider a b c (playUrl meta)).
      destruct (atFirstPause_keeps now job task) as [Hid Hcreated].
      destruct (runJob_stamps now job task [] eq_refl) as (Hupdated & Hid' & Hcreated').
      unfold advance. cbn [captionTasks jobs]. rewrite lookup_insert_eq.
      destruct (runJob now job task []) as [[task' writes] j]. cbn [fst] in *.
      exists task', (snapshotCaptionTask (atFirstPause now job task)).
      cbn [captionTasks]. rewrite lookup_insert_eq.
      repeat split; try assumption; try reflexivity. discriminate.
  - left. eexists. repeat split; reflexivity.
Qed.

(** A call of [handleCaptionCreate] that answers anything but 200
    answers 400, 405 or 500 with an error, leaves the registry as the
    sweep left it and launches no job. A call that answers 200 has put
    the task into the registry under the id it drew, and answers with a
    snapshot of that id. *)
Theorem handleCaptionCreate_outcome (req : CreateRequest) (now0 now1 : Z) (w : World) :
  let created := handleCaptionCreate req now0 now1 w in
  (exists code error,
     reply created = mkReply code (ErrorBody error)
     /\ (code = 400 \/ code = 405 \/ code = 500)
     /\ world created = sweep now0 w /\ launched created = None)
  \/ (exists task snapshot,
        reply created = mkReply 200 (SnapshotBody snapshot)
        /\ captionTasks (world created) !! create_taskId req = Some task
        /\ s_taskId snapshot = create_taskId req /\ s_createdAt snapshot = now1
        /\ id task = create_taskId req /\ createdAt task = now1 /\ updatedAt task = now1
        /\ (launched created = None -> snapshot = snapshotCaptionTask task)).
Proof.
  cbn zeta. unfold handleCaptionCreate.
  assert (Hrefuse : forall code error,
            code = 400 \/ code = 405 \/ code = 500 ->
            exists code' error',
              reply (refuse code error (sweep now0 w)) = mkReply code' (ErrorBody error')
              /\ (code' = 400 \/ code' = 405 \/ code' = 500)
              /\ world (refuse code error (sweep now0 w)) = sweep now0 w
              /\ launched (refuse code error (sweep now0 w)) = None).
  { intros code error Hcode. exists code, error. repeat split; [exact Hcode|..]; reflexivity. }
  destruct (negb (isPost (create_method req))); [left; apply Hrefuse; tauto|].
  destruct (create_body req) as [body|msg]; [|left; apply Hrefuse; tauto].
  cbn zeta.
  destruct (Str.isEmpty (bodyField (Js.or body (JObject [])) ["workUrl"; "url"]));
    [left; apply Hrefuse; tauto|].
  match goal with
  | |- context [match ?missing with Some _ => _ | None => _ end] =>
      destruct missing as [error|]
  end; [left; apply Hrefuse; tauto|].
  destruct (create_videoId req) as [[videoId|]|msg]; [|left; apply Hrefuse; tauto..].
  destruct (create_meta req) as [meta|msg]; [|left; apply Hrefuse; tauto].
  match goal with
  | |- context [createFromMeta ?p ?a ?b ?c meta (create_taskId req) now1 (sweep now0 w)] =>
      destruct (createFromMeta_outcome p a b c meta (create_taskId req) now1 (sweep now0 w))
        as [(error & Hreply & Hworld & Hlaunched)|Hcreated]
  end.
  - left. exists 500, error. repeat split; [exact Hreply|tauto|exact Hworld|exact Hlaunched].
  - right. exact Hcreated.
Qed.

(** A task that a call of [handleCaptionCreate] has put into the
    registry is found by a query for its id for at least an hour from
    then, with its id and its time of creation; and where the call
    launched no job, the query answers as the call did. *)
Theorem handleCaptionCreate_then_query (req : CreateRequest) (now0 now1 later : Z) (w : World)
    (snapshot : Snapshot) :
  reply (handleCaptionCreate req now0 now1 w) = mkReply 200 (SnapshotBody snapshot) ->
  create_taskId req <> "" ->
  later - now1 <= 3600000 ->
  exists found,
    (handleCaptionQuery later (create_taskId req)
       (world (handleCaptionCreate req now0 now1 w))).1
    = mkReply 200 (SnapshotBody found)
    /\ s_taskId found = create_taskId req
    /\ s_createdAt found = now1
    /\ (launched (handleCaptionCreate req now0 now1 w) = None -> found = snapshot).
Proof.
  intros Hreply Hid Hlater.
  destruct (handleCaptionCreate_outcome req now0 now1 w)
    as [(code & error & Hreply' & _)|(task & snapshot' & Hreply' & Hl & _ & _ & Hid' & Hc & Hu & Hs)].
  { rewrite Hreply in Hreply'. discriminate. }
  rewrite Hreply in Hreply'. injection Hreply' as <-.
  unfold handleCaptionQuery. cbn zeta.
  apply isEmpty_false in Hid. rewrite Hid.
  assert (Hkept : captionTasks (sweep later (world (handleCaptionCreate req now0 now1 w)))
                  !! create_taskId req = Some task).
  { cbn [sweep captionTasks]. apply cleanupCaptionTasks_lookup. split; [exact Hl|].
    intros [_ Hold]. lia. }
  rewrite Hkept. cbn [fst]. exists (snapshotCaptionTask task).
  split; [reflexivity|split; [exact Hid'|split; [exact Hc|]]].
  intros Hnone. symmetry. apply Hs, Hnone.
Qed.

End CreateFacts.

Lemma handleCaptionCreate_then_query_witness :
  exists found,
    (Tasks.handleCaptionQuery 6000 "t2"
       (Tasks.world (Tasks.handleCaptionCreate (H := Ref.platform) CreateRun.request 4000 5000 Scenario.nothing))).1
    = Tasks.mkReply 200 (Tasks.SnapshotBody found)
    /\ Tasks.s_taskId found = "t2"
    /\ Tasks.s_createdAt found = 5000
    /\ (Tasks.launched (Tasks.handleCaptionCreate (H := Ref.platform) CreateRun.request 4000 5000 Scenario.nothing)
        = None -> found = CreateRun.snapshot).
Proof.
  apply (handleCaptionCreate_then_query (H := Ref.platform) CreateRun.request 4000 5000 6000
           Scenario.nothing CreateRun.snapshot).
  - vm_compute. reflexivity.
  - discriminate.
  - lia.
Defined.

(** ** Request bodies *)

Section BodyFacts.
Context `{Platform}.
Import Tasks.

Lemma bodyField_empty (names : list string) :
  bodyField (Js.or JNull (JObject [])) names = "".
Proof.
  unfold bodyField. cbn [Js.or Js.truthy].
  assert (Hfold : foldr (fun name rest => Js.or (Js.prop (JObject []) name) rest)
                    (JString "") names = JString "").
  { induction names as [|name names IH]; [reflexivity|]. cbn [foldr]. rewrite IH. reflexivity. }
  rewrite Hfold, ToString_string. reflexivity.
Qed.

(** [readJsonBody] gives [null] for a blank body and throws for one that
    is no JSON. To a POST with a blank body [handleCaptionCreate] answers
    400 for the missing link; to one whose body is no JSON it answers 500
    with the message of [readJsonBody]; either way the registry is only
    swept. [handleCaptionCancel] overlooks such a body: it answers 400
    for the missing id where the query names no task, and where the query
    names one it does what it does with an empty body. *)
Theorem readJsonBody_in_handlers (raw : string) (create : CreateRequest)
    (cancel : CancelRequest) (now0 now1 : Z) (w : World) :
  create_body create = readJsonBody raw ->
  isPost (create_method create) = true ->
  cancel_body cancel = readJsonBody raw ->
  isPost (cancel_method cancel) = true ->
  (Str.trim raw = "" ->
   readJsonBody raw = Return JNull
   /\ reply (handleCaptionCreate create now0 now1 w) = mkReply 400 (ErrorBody "缺少 workUrl")
   /\ world (handleCaptionCreate create now0 now1 w) = sweep now0 w)
  /\ (Str.trim raw <> "" -> JSON_parse (Str.trim raw) = None ->
      readJsonBody raw = Throw "请求体不是有效的 JSON"
      /\ reply (handleCaptionCreate create now0 now1 w)
         = mkReply 500 (ErrorBody "请求体不是有效的 JSON")
      /\ world (handleCaptionCreate create now0 now1 w) = sweep now0 w)
  /\ (Str.trim raw = "" \/ JSON_parse (Str.trim raw) = None ->
      (cancel_query cancel = "" ->
       handleCaptionCancel cancel now0 now1 w
       = (mkReply 400 (ErrorBody "缺少 taskId"), sweep now0 w))
      /\ (cancel_query cancel <> "" ->
          handleCaptionCancel cancel now0 now1 w
          = handleCaptionCancel
              (mkCancelRequest (cancel_method cancel) (cancel_query cancel) (Return JNull))
              now0 now1 w)).
Proof.
  intros Hcreate Hpost Hcancel Hpost'.
  assert (Hblank : Str.trim raw = "" -> readJsonBody raw = Return JNull).
  { intros Hraw. unfold readJsonBody. rewrite Hraw. reflexivity. }
  assert (Hbad : Str.trim raw <> "" -> JSON_parse (Str.trim raw) = None ->
                 readJsonBody raw = Throw "请求体不是有效的 JSON").
  { intros Hraw Hparse. unfold readJsonBody. apply isEmpty_false in Hraw.
    rewrite Hraw, Hparse. reflexivity. }
  split; [|split].
  - intros Hraw. split; [apply Hblank, Hraw|].
    unfold handleCaptionCreate. rewrite Hpost, Hcreate, (Hblank Hraw). cbn [negb].
    rewrite bodyField_empty. split; reflexivity.
  - intros Hraw Hparse. split; [apply Hbad; assumption|].
    unfold handleCaptionCreate. rewrite Hpost, Hcreate, (Hbad Hraw Hparse). cbn [negb].
    split; reflexivity.
  - intros Hraw.
    assert (Hid : cancel_query cancel = "" -> requestedTaskId cancel = "").
    { intros Hquery. unfold requestedTaskId. rewrite Hquery, Hcancel. cbn [Str.isEmpty].
      destruct (Str.isEmpty (Str.trim raw)) eqn:Hempty.
      - apply isEmpty_true in Hempty. rewrite (Hblank Hempty). apply bodyField_empty.
      - apply isEmpty_false in Hempty. destruct Hraw as [Hraw|Hraw]; [contradiction|].
        rewrite (Hbad Hempty Hraw). reflexivity. }
    split.
    + intros Hquery. unfold handleCaptionCancel, cancelAfterBody.
      rewrite Hpost', (Hid Hquery). reflexivity.
    + intros Hquery. unfold handleCaptionCancel, cancelAfterBody, requestedTaskId.
      cbn [cancel_method cancel_query cancel_body].
      apply isEmpty_false in Hquery. rewrite Hquery. reflexivity.
Qed.

End BodyFacts.

Lemma readJsonBody_in_handlers_witness :
  Tasks.reply
    (Tasks.handleCaptionCreate (H := Ref.platform)
       (Tasks.mkCreateRequest (Some "POST") (readJsonBody (H := Ref.platform) "　 ")
          (Return None) (Throw "") "t3")
       4000 5000 Scenario.nothing)
  = Tasks.mkReply 400 (Tasks.ErrorBody "缺少 workUrl").
Proof.
  destruct (readJsonBody_in_handlers (H := Ref.platform) "　 "
              (Tasks.mkCreateRequest (Some "POST") (readJsonBody (H := Ref.platform) "　 ")
                 (Return None) (Throw "") "t3")
              (Tasks.mkCancelRequest (Some "POST") "" (readJsonBody (H := Ref.platform) "　 "))
              4000 5000 Scenario.nothing eq_refl eq_refl eq_refl eq_refl)
    as (Hblank & _).
  apply Hblank. reflexivity.
Defined.

(** ** The handlers that resolve a link *)

Section ListingLength.
Context `{Platform}.
Import Listing.

Lemma slice0_length {A : Type} (count : Z) (l : list A) :
  0 <= count -> Z.of_nat (length (slice0 count l)) <= count.
Proof.
  intros Hcount. rewrite slice0_take by exact Hcount. rewrite length_take. lia.
Qed.

Lemma pickVideos_length (count : Z) (items : list JsValue) (videos : list Video) :
  0 <= count -> pickVideos count items = Return videos ->
  Z.of_nat (length videos) <= count.
Proof.
  intros Hcount. unfold pickVideos. destruct (mapExc toVideo items); [|discriminate].
  cbn. intros [= <-]. apply slice0_length, Hcount.
Qed.

Lemma attempts_length (env : nat -> Attempt) (count : Z) (rounds : nat) :
  0 <= count ->
  forall attempt c log videos,
    outcome (attempts rounds attempt env count c log) = Return videos ->
    Z.of_nat (length videos) <= count.
Proof.
  intros Hcount. induction rounds as [|rounds IH]; intros attempt c log videos; cbn [attempts].
  - intros [= <-]. cbn. lia.
  - assert (Hretry : forall c' log',
              outcome (retryOrGiveUp attempt c' log'
                         (attempts rounds (S attempt) env count)) = Return videos ->
              Z.of_nat (length videos) <= count).
    { intros c' log'. unfold retryOrGiveUp. destruct (attempt =? 0)%nat; [apply IH|].
      intros [= <-]. cbn. lia. }
    destruct (Session.awaitSession _ _ c) as [[session|msg] c']; [|discriminate].
    destruct (at_reply (env attempt)) as [msg|ok status json]; [discriminate|].
    destruct (negb ok); [apply Hretry|].
    destruct json as [data|]; [|apply Hretry].
    destruct (payloadList data) as [[|item items]|]; [apply Hretry| |apply Hretry].
    cbn [outcome]. apply pickVideos_length, Hcount.
Qed.

Lemma fetchUserVideos_length (abogus : Exc string) (env : nat -> Attempt) (count : Z)
    (c : Session.Cache) (videos : list Video) :
  0 <= count ->
  outcome (fetchUserVideos abogus env count c) = Return videos ->
  Z.of_nat (length videos) <= count.
Proof.
  intros Hcount. unfold fetchUserVideos.
  destruct abogus as [sig|msg]; cbn [outcome].
  - destruct (outcome (attempts 2 0 env count c [])) as [videos'|msg] eqn:Hout.
    + rewrite Hout. intros [= <-]. apply (attempts_length env count 2 Hcount _ _ _ _ Hout).
    + cbn [outcome]. intros [= <-]. cbn. lia.
  - intros [= <-]. cbn. lia.
Qed.

Lemma clampCount_range (parsed : option Z) : 1 <= clampCount parsed <= 50.
Proof. unfold clampCount. lia. Qed.

End ListingLength.

Section HandlerFacts.
Context `{Platform}.
Import Links Resolve.

Variable resolveUrl : string -> Url.URL -> option string.
Variable net : nat -> Url.URL -> Exc Http.Response.
Variable locate : string -> option Location.
Variable decodeURIComponent : string -> option string.

(** [handleUserVideos] answers 200 whatever happens, with at most as
    many videos as the clamped count allows, which is at most 50; what it
    requests while it resolves the link goes to Douyin hosts, in at most
    six requests; and it calls the listing only for a link that the
    Douyin guard let through and that gave an account id, which is then
    in the answer. Without an account id in the answer there are no
    videos in it. *)
Theorem handleUserVideos_bounds (params : list (string * string)) (parsedCount : option Z)
    (abogus : Exc string) (env : nat -> Listing.Attempt) (c : Session.Cache) :
  let r := handleUserVideos resolveUrl net locate decodeURIComponent params parsedCount
             abogus env c in
  uv_status (uv_reply r) = 200
  /\ Z.of_nat (length (uv_videos (uv_reply r))) <= Listing.clampCount parsedCount <= 50
  /\ Forall onDouyin (uv_requests r)
  /\ (length (uv_requests r) <= 6)%nat
  /\ (uv_secUid (uv_reply r) = None -> uv_videos (uv_reply r) = [])
  /\ (uv_listing r <> None ->
      exists secUid u,
        uv_secUid (uv_reply r) = Some secUid /\ secUid <> ""
        /\ Url.assertSafeDouyinUrl
             (normalizeUrl
                (default (default "" (searchGet params "url"))
                   (extractUrlFromText (default "" (searchGet params "url")))))
           = Return u).
Proof.
  cbn zeta. unfold handleUserVideos.
  pose proof (clampCount_range parsedCount) as Hclamp.
  assert (Hnone : forall requests (P : Prop),
            Forall onDouyin requests -> (length requests <= 6)%nat ->
            let r := noVideos requests in
            uv_status (uv_reply r) = 200
            /\ Z.of_nat (length (uv_videos (uv_reply r))) <= Listing.clampCount parsedCount <= 50
            /\ Forall onDouyin (uv_requests r)
            /\ (length (uv_requests r) <= 6)%nat
            /\ (uv_secUid (uv_reply r) = None -> uv_videos (uv_reply r) = [])
            /\ (uv_listing r <> None -> P)).
  { intros requests P Hall Hlen. cbn. repeat split; try assumption; try lia.
    intros Hl. contradiction. }
  set (link := normalizeUrl
                 (default (default "" (searchGet params "url"))
                    (extractUrlFromText (default "" (searchGet params "url"))))).
  destruct (Str.isEmpty _); [apply Hnone; [constructor|cbn; lia]|].
  destruct (Url.assertSafeDouyinUrl link) as [u|msg] eqn:Hguard;
    [|apply Hnone; [constructor|cbn; lia]].
  destruct (follow_requests resolveUrl net link) as [Hall Hlen].
  destruct (follow resolveUrl net link) as [resolved requests]. cbn [fst snd] in Hall, Hlen.
  destruct (parseSecUid decodeURIComponent (locate resolved)) as [[|ch secUid]|];
    [apply Hnone; assumption| |apply Hnone; assumption].
  destruct (fetchUserVideos_returns abogus env (Listing.clampCount parsedCount) c)
    as [videos Hvideos].
  rewrite Hvideos. cbn [uv_reply uv_status uv_videos uv_secUid uv_requests uv_listing].
  assert (Hpos : 0 <= Listing.clampCount parsedCount) by lia.
  pose proof (fetchUserVideos_length abogus env _ c videos Hpos Hvideos) as Hlength.
  repeat split; try assumption; try lia; try discriminate.
  intros _. exists (String ch secUid), u. repeat split; discriminate.
Qed.

Lemma parseVideoId_nonempty (u : option Location) : parseVideoId u <> Some "".
Proof.
  destruct u as [u|]; [|discriminate]. intros Hid.
  destruct (parseVideoId_found u "" Hid) as [Hne _]. contradiction.
Qed.

(** [handleResolve] makes its requests, at most six, to Douyin hosts
    only. It answers 400, without any request, unless the text holds a
    link that the Douyin guard lets through; otherwise it answers with
    that link as [extractedUrl], with a video id only where it says the
    type is video, and that id not empty, and with an account id only
    where it says the type is account. *)
Theorem handleResolve_contract (params : list (string * string)) :
  let r := handleResolve resolveUrl net locate decodeURIComponent params in
  Forall onDouyin r.2
  /\ (length r.2 <= 6)%nat
  /\ match r.1 with
     | Refused status error => status = 400 /\ r.2 = []
     | Resolved res =>
         extractUrlFromText (inputOf params) = Some (extractedUrl res)
         /\ (exists u, Url.assertSafeDouyinUrl (extractedUrl res) = Return u)
         /\ (videoId res <> None -> type res = video)
         /\ videoId res <> Some ""
         /\ (secUid res <> None -> type res = account)
     end.
Proof.
  cbn zeta. unfold handleResolve.
  destruct (extractUrlFromText (inputOf params)) as [extracted|];
    [|cbn; repeat split; [constructor|lia]].
  destruct (Url.assertSafeDouyinUrl extracted) as [u|msg] eqn:Hguard;
    [|cbn; repeat split; [constructor|lia]].
  destruct (follow_requests resolveUrl net extracted) as [Hall Hlen].
  destruct (follow resolveUrl net extracted) as [resolved requests].
  cbn [fst snd] in *. split; [exact Hall|split; [exact Hlen|]].
  cbn [extractedUrl type videoId secUid].
  split; [reflexivity|split; [eauto|]].
  destruct (guessType (locate resolved)); repeat split; try congruence;
    apply parseVideoId_nonempty.
Qed.

Import Tasks.

Lemma handleCaptionCreate_200 (req : CreateRequest) (now0 now1 : Z) (w : World)
    (snapshot : Snapshot) :
  reply (handleCaptionCreate req now0 now1 w) = mkReply 200 (SnapshotBody snapshot) ->
  exists id, create_videoId req = Return (Some id).
Proof.
  unfold handleCaptionCreate.
  destruct (negb (isPost (create_method req))); [discriminate|].
  destruct (create_body req) as [body|msg]; [|discriminate].
  cbn zeta.
  destruct (Str.isEmpty (bodyField (Js.or body (JObject [])) ["workUrl"; "url"]));
    [discriminate|].
  match goal with
  | |- context [match ?missing with Some _ => _ | None => _ end] =>
      destruct missing as [error|]
  end; [discriminate|].
  destruct (create_videoId req) as [[id|]|msg]; [eauto|discriminate..].
Qed.

Lemma handleCaptionCreate_thrown (req : CreateRequest) (now0 now1 : Z) (w : World)
    (msg : string) :
  create_videoId req = Throw msg ->
  exists code error,
    reply (handleCaptionCreate req now0 now1 w) = mkReply code (ErrorBody error)
    /\ world (handleCaptionCreate req now0 now1 w) = sweep now0 w
    /\ launched (handleCaptionCreate req now0 now1 w) = None.
Proof.
  intros Hid. unfold handleCaptionCreate.
  destruct (negb (isPost (create_method req))); [eexists _, _; repeat split; reflexivity|].
  destruct (create_body req) as [body|msg']; [|eexists _, _; repeat split; reflexivity].
  cbn zeta.
  destruct (Str.isEmpty (bodyField (Js.or body (JObject [])) ["workUrl"; "url"]));
    [eexists _, _; repeat split; reflexivity|].
  match goal with
  | |- context [match ?missing with Some _ => _ | None => _ end] =>
      destruct missing as [error|]
  end; [eexists _, _; repeat split; reflexivity|].
  rewrite Hid. eexists _, _; repeat split; reflexivity.
Qed.

(** [handleCaptionCreate] with the link of its body resolved as the
    handler resolves it. The requests made on the way, at most six, go to
    Douyin hosts only. A link that the Douyin guard refuses is answered
    with an error before any request, nothing is put into the registry
    and no job is launched. An answer of 200 is given only for a link the
    guard let through and in which a video id, not an empty one, was
    found. *)
Theorem handleCaptionCreate_link (req : CreateRequest) (body : JsValue) (now0 now1 : Z)
    (w : World) :
  create_body req = Return body ->
  let workUrlRaw := bodyField (Js.or body (JObject [])) ["workUrl"; "url"] in
  let link := normalizeUrl (default workUrlRaw (extractUrlFromText workUrlRaw)) in
  create_videoId req = (videoIdOf resolveUrl net locate workUrlRaw).1 ->
  Forall onDouyin (videoIdOf resolveUrl net locate workUrlRaw).2
  /\ (length (videoIdOf resolveUrl net locate workUrlRaw).2 <= 6)%nat
  /\ (forall msg,
        Url.assertSafeDouyinUrl link = Throw msg ->
        (videoIdOf resolveUrl net locate workUrlRaw).2 = []
        /\ exists code error,
             reply (handleCaptionCreate req now0 now1 w) = mkReply code (ErrorBody error)
             /\ world (handleCaptionCreate req now0 now1 w) = sweep now0 w
             /\ launched (handleCaptionCreate req now0 now1 w) = None)
  /\ (forall snapshot,
        reply (handleCaptionCreate req now0 now1 w) = mkReply 200 (SnapshotBody snapshot) ->
        exists u id,
          Url.assertSafeDouyinUrl link = Return u
          /\ create_videoId req = Return (Some id) /\ id <> "").
Proof.
  intros Hbody workUrlRaw link Hid. unfold videoIdOf in *. fold link in Hid |- *.
  destruct (Url.assertSafeDouyinUrl link) as [u|msg] eqn:Hguard.
  - destruct (follow_requests resolveUrl net link) as [Hall Hlen].
    destruct (follow resolveUrl net link) as [resolved requests]. cbn [fst snd] in *.
    split; [exact Hall|split; [exact Hlen|split; [discriminate|]]].
    intros snapshot Hreply.
    destruct (handleCaptionCreate_200 _ _ _ _ _ Hreply) as [id Hfound].
    exists u, id. split; [reflexivity|split; [exact Hfound|]].
    intros ->. rewrite Hfound in Hid. injection Hid as Hid.
    symmetry in Hid. exact (parseVideoId_nonempty _ Hid).
  - cbn [fst snd] in *. split; [constructor|split; [cbn; lia|split]].
    + intros msg' [= <-]. split; [reflexivity|].
      apply handleCaptionCreate_thrown with (msg := msg). exact Hid.
    + intros snapshot Hreply.
      destruct (handleCaptionCreate_200 _ _ _ _ _ Hreply) as [id Hfound].
      rewrite Hfound in Hid. discriminate.
Qed.

End HandlerFacts.

Lemma handleCaptionCreate_link_witness :
  (length
     (Resolve.videoIdOf CreateRun.resolveUrl CreateRun.net CreateRun.locate
        (Tasks.bodyField (H := Ref.platform) (Js.or CreateRun.body (JObject []))
           ["workUrl"; "url"])).2
   <= 6)%nat.
Proof.
  destruct (handleCaptionCreate_link (H := Ref.platform) CreateRun.resolveUrl CreateRun.net
              CreateRun.locate CreateRun.request CreateRun.body 4000 5000 Scenario.nothing
              eq_refl eq_refl)
    as (_ & Hlen & _).
  exact Hlen.
Defined.

(** ** The pages of a video and of an account *)

Section PageFacts.
Import Links Resolve.

Variable resolveUrl : string -> Url.URL -> option string.
Variable net : nat -> Url.URL -> Exc Http.Response.
Variable locate : string -> option Location.
Variable decodeURIComponent : string -> option string.
Variable M : Type.

(** [handleVideo] asks for the page of a video only after the Douyin
    guard let the link through and an id, not an empty one, was read off
    the resolved URL; the requests made before that, at most six, go to
    Douyin hosts. It answers 400 where it asked for no page, 500 where
    the page was asked for and could not be had, and the page it got
    otherwise. A link the guard refuses is answered before any request. *)
Theorem handleVideo_contract (fetchVideoMeta : string -> Exc M)
    (params : list (string * string)) :
  let r := handleVideo resolveUrl net locate fetchVideoMeta params in
  let link :=
    normalizeUrl
      (default (default "" (searchGet params "url"))
         (extractUrlFromText (default "" (searchGet params "url")))) in
  Forall onDouyin (page_requests r)
  /\ (length (page_requests r) <= 6)%nat
  /\ (forall msg, Url.assertSafeDouyinUrl link = Throw msg ->
        page_requests r = [] /\ page_asked r = None)
  /\ (forall id, page_asked r = Some id ->
        id <> "" /\ exists u, Url.assertSafeDouyinUrl link = Return u)
  /\ match page_reply r with
     | PageError status error =>
         (status = 400 /\ page_asked r = None)
         \/ (status = 500 /\ exists id, page_asked r = Some id /\ fetchVideoMeta id = Throw error)
     | PageFound resolved meta =>
         exists id,
           page_asked r = Some id
           /\ parseVideoId (locate resolved) = Some id
           /\ fetchVideoMeta id = Return meta
     end.
Proof.
  cbn zeta. unfold handleVideo.
  set (link := normalizeUrl
                 (default (default "" (searchGet params "url"))
                    (extractUrlFromText (default "" (searchGet params "url"))))).
  destruct (Str.isEmpty _).
  { cbn. split; [constructor|split; [lia|split; [intros; split; reflexivity|]]].
    split; [intros id [=]|left; split; reflexivity]. }
  destruct (Url.assertSafeDouyinUrl link) as [u|msg] eqn:Hguard.
  2: { cbn. split; [constructor|split; [lia|split; [intros; split; reflexivity|]]].
       split; [intros id [=]|left; split; reflexivity]. }
  destruct (follow_requests resolveUrl net link) as [Hall Hlen].
  destruct (follow resolveUrl net link) as [resolved requests]. cbn [fst snd] in Hall, Hlen.
  destruct (parseVideoId (locate resolved)) as [[|ch id]|] eqn:Hid.
  1, 3: cbn; split; [assumption|split; [assumption|split; [discriminate|]]];
    (split; [intros id' [=]|left; split; reflexivity]).
  destruct (fetchVideoMeta (String ch id)) as [meta|msg] eqn:Hmeta;
    cbn [page_reply page_requests page_asked].
  - split; [assumption|split; [assumption|split; [discriminate|split]]].
    + intros id' [= <-]. split; [discriminate|exists u; reflexivity].
    + exists (String ch id). split; [reflexivity|split; [exact Hid|exact Hmeta]].
  - split; [assumption|split; [assumption|split; [discriminate|split]]].
    + intros id' [= <-]. split; [discriminate|exists u; reflexivity].
    + right. split; [reflexivity|]. exists (String ch id). split; [reflexivity|exact Hmeta].
Qed.

(** [handleUser] asks for the page of an account only after the Douyin
    guard let the link through and an account id, not an empty one, was
    read off the resolved URL; the requests made before that, at most six,
    go to Douyin hosts. It answers 400 where it asked for no page, 500
    where the page was asked for and could not be had, and the page it
    got otherwise. A link the guard refuses is answered before any
    request. *)
Theorem handleUser_contract (fetchUserMeta : string -> Exc M)
    (params : list (string * string)) :
  let r := handleUser resolveUrl net locate decodeURIComponent fetchUserMeta params in
  let link :=
    normalizeUrl
      (default (default "" (searchGet params "url"))
         (extractUrlFromText (default "" (searchGet params "url")))) in
  Forall onDouyin (page_requests r)
  /\ (length (page_requests r) <= 6)%nat
  /\ (forall msg, Url.assertSafeDouyinUrl link = Throw msg ->
        page_requests r = [] /\ page_asked r = None)
  /\ (forall secUid, page_asked r = Some secUid ->
        secUid <> "" /\ exists u, Url.assertSafeDouyinUrl link = Return u)
  /\ match page_reply r with
     | PageError status error =>
         (status = 400 /\ page_asked r = None)
         \/ (status = 500
             /\ exists secUid, page_asked r = Some secUid /\ fetchUserMeta secUid = Throw error)
     | PageFound resolved meta =>
         exists secUid,
           page_asked r = Some secUid
           /\ parseSecUid decodeURIComponent (locate resolved) = Some secUid
           /\ fetchUserMeta secUid = Return meta
     end.
Proof.
  cbn zeta. unfold handleUser.
  set (link := normalizeUrl
                 (default (default "" (searchGet params "url"))
                    (extractUrlFromText (default "" (searchGet params "url"))))).
  destruct (Str.isEmpty _).
  { cbn. split; [constructor|split; [lia|split; [intros; split; reflexivity|]]].
    split; [intros id [=]|left; split; reflexivity]. }
  destruct (Url.assertSafeDouyinUrl link) as [u|msg] eqn:Hguard.
  2: { cbn. split; [constructor|split; [lia|split; [intros; split; reflexivity|]]].
       split; [intros id [=]|left; split; reflexivity]. }
  destruct (follow_requests resolveUrl net link) as [Hall Hlen].
  destruct (follow resolveUrl net link) as [resolved requests]. cbn [fst snd] in Hall, Hlen.
  destruct (parseSecUid decodeURIComponent (locate resolved)) as [[|ch secUid]|] eqn:Hid.
  1, 3: cbn; split; [assumption|split; [assumption|split; [discriminate|]]];
    (split; [intros id' [=]|left; split; reflexivity]).
  destruct (fetchUserMeta (String ch secUid)) as [meta|msg] eqn:Hmeta;
    cbn [page_reply page_requests page_asked].
  - split; [assumption|split; [assumption|split; [discriminate|split]]].
    + intros id' [= <-]. split; [discriminate|exists u; reflexivity].
    + exists (String ch secUid). split; [reflexivity|split; [exact Hid|exact Hmeta]].
  - split; [assumption|split; [assumption|split; [discriminate|split]]].
    + intros id' [= <-]. split; [discriminate|exists u; reflexivity].
    + right. split; [reflexivity|]. exists (String ch secUid).
      split; [reflexivity|exact Hmeta].
Qed.

End PageFacts.
(** ** The captions of a subtitle file *)

Section SrtFacts.
Import Srt.

Lemma split_line (a : list ascii) :
  forallb (Re.isNot newline) a = true -> split a = [a].
Proof.
  induction a as [|c a IH]; [reflexivity|]. cbn [forallb split]. unfold Re.isNot at 1.
  intros Ha. apply andb_true_iff in Ha as [Hc Ha]. apply negb_true_iff in Hc.
  rewrite Hc, (IH Ha). reflexivity.
Qed.

Lemma split_app (a b : list ascii) :
  forallb (Re.isNot newline) a = true -> split (a ++ newline :: b) = a :: split b.
Proof.
  induction a as [|c a IH]; cbn [app forallb split].
  - intros _. rewrite Ascii.eqb_refl. reflexivity.
  - unfold Re.isNot at 1. intros Ha. apply andb_true_iff in Ha as [Hc Ha].
    apply negb_true_iff in Hc. rewrite Hc, (IH Ha). reflexivity.
Qed.

Lemma split_clean (l : list ascii) :
  Forall (fun line => forallb (Re.isNot newline) line = true) (split l).
Proof.
  induction l as [|c l IH]; cbn [split]; [repeat constructor|].
  destruct (Ascii.eqb c newline) eqn:Hc; [constructor; [reflexivity|exact IH]|].
  destruct (split l) as [|line lines].
  - repeat constructor. cbn. unfold Re.isNot. rewrite Hc. reflexivity.
  - apply Forall_cons in IH as [Hline Hlines]. constructor; [|exact Hlines].
    cbn [forallb]. unfold Re.isNot at 1. rewrite Hc, Hline. reflexivity.
Qed.

Lemma join_cons (sep x y : string) (l : list string) :
  Str.chars (Str.join sep (x :: y :: l))
  = (Str.chars x ++ Str.chars sep ++ Str.chars (Str.join sep (y :: l)))%list.
Proof. cbn [Str.join]. rewrite !chars_app. reflexivity. Qed.

(** Splitting at the line ends undoes joining with them. *)
Lemma split_join (lines : list string) :
  Forall (fun line => forallb (Re.isNot newline) (Str.chars line) = true) lines ->
  lines <> [] ->
  map Str.ofChars (split (Str.chars (Str.join (String newline "") lines))) = lines.
Proof.
  induction lines as [|x lines IH]; [contradiction|]. intros Hall _.
  apply Forall_cons in Hall as [Hx Hall]. destruct lines as [|y lines].
  - cbn [Str.join]. rewrite (split_line _ Hx). cbn [map]. rewrite ofChars_chars. reflexivity.
  - rewrite join_cons. change (Str.chars (String newline "")) with [newline]. cbn [app].
    rewrite (split_app _ _ Hx). cbn [map]. rewrite ofChars_chars. f_equal.
    apply IH; [exact Hall|discriminate].
Qed.

Lemma join_forallb (f : ascii -> bool) (sep : string) (lines : list string) :
  forallb f (Str.chars sep) = true ->
  Forall (fun line => forallb f (Str.chars line) = true) lines ->
  forallb f (Str.chars (Str.join sep lines)) = true.
Proof.
  intros Hsep. induction lines as [|x lines IH]; [reflexivity|]. intros Hall.
  apply Forall_cons in Hall as [Hx Hall]. destruct lines as [|y lines]; [exact Hx|].
  rewrite join_cons. apply forallb_app_true. split; [exact Hx|].
  apply forallb_app_true. split; [exact Hsep|apply IH, Hall].
Qed.

Lemma contains_inv (p l : list ascii) :
  Re.contains p l = true -> exists front rest, l = (front ++ p ++ rest)%list.
Proof.
  induction l as [|c l IH]; cbn [Re.contains]; intros Hl; apply orb_true_iff in Hl.
  - destruct Hl as [Hl|Hl]; [|discriminate].
    apply prefixChars_spec in Hl as [rest Hrest]. exists [], rest. exact Hrest.
  - destruct Hl as [Hl|Hl].
    + apply prefixChars_spec in Hl as [rest Hrest]. exists [], rest. exact Hrest.
    + destruct (IH Hl) as (front & rest & ->). exists (c :: front), rest. reflexivity.
Qed.

Lemma contains_infix (p before l after : list ascii) :
  Re.contains p (before ++ l ++ after) = false -> Re.contains p l = false.
Proof.
  intros Hnone. destruct (Re.contains p l) eqn:Hl; [|reflexivity].
  apply contains_inv in Hl as (front & rest & ->).
  rewrite <- Hnone. symmetry.
  replace (before ++ (front ++ p ++ rest) ++ after)%list
    with ((before ++ front) ++ p ++ (rest ++ after))%list
    by (rewrite <- !app_assoc; reflexivity).
  apply contains_app.
Qed.

Lemma prefixChars_sep (sp : ascii) (p : list ascii) :
  forallb (Re.isNot sp) p = true ->
  forall a b, Str.prefixChars p a = false -> Str.prefixChars p (a ++ sp :: b) = false.
Proof.
  intros Hp. induction p as [|x p IH]; intros a b; cbn [Str.prefixChars]; [discriminate|].
  cbn [forallb] in Hp. apply andb_true_iff in Hp as [Hx Hp].
  destruct a as [|c a]; cbn [app].
  - intros _. unfold Re.isNot in Hx. apply negb_true_iff in Hx. rewrite Hx. reflexivity.
  - destruct (Ascii.eqb x c); [|reflexivity]. cbn [andb]. apply IH, Hp.
Qed.

(** A pattern that has no [sp] in it is found on neither side of an [sp]
    or not at all. *)
Lemma contains_sep (sp : ascii) (p : list ascii) (a b : list ascii) :
  forallb (Re.isNot sp) p = true ->
  Re.contains p a = false -> Re.contains p b = false ->
  Re.contains p (a ++ sp :: b) = false.
Proof.
  intros Hp Ha Hb. induction a as [|c a IH]; cbn [app Re.contains].
  - rewrite Hb, orb_false_r. apply (prefixChars_sep sp p Hp [] b).
    cbn [Re.contains] in Ha. apply orb_false_iff in Ha as [Ha _]. exact Ha.
  - apply contains_cons in Ha as [Hhere Ha]. rewrite (IH Ha), orb_false_r.
    apply (prefixChars_sep sp p Hp (c :: a) b Hhere).
Qed.

Lemma join_contains (sp : ascii) (p : list ascii) (lines : list string) :
  forallb (Re.isNot sp) p = true ->
  p <> [] ->
  Forall (fun line => Re.contains p (Str.chars line) = false) lines ->
  Re.contains p (Str.chars (Str.join (String sp "") lines)) = false.
Proof.
  intros Hp Hne. induction lines as [|x lines IH]; intros Hall.
  - destruct p; [contradiction|reflexivity].
  - apply Forall_cons in Hall as [Hx Hall]. destruct lines as [|y lines]; [exact Hx|].
    rewrite join_cons. change (Str.chars (String sp "")) with [sp]. cbn [app].
    apply contains_sep; [exact Hp|exact Hx|apply IH, Hall].
Qed.

Lemma trim_contains (p : list ascii) (s : string) :
  Re.contains p (Str.chars s) = false -> Re.contains p (Str.chars (Str.trim s)) = false.
Proof.
  intros Hs. unfold Str.trim. rewrite chars_ofChars.
  destruct (trim_infix (Str.chars s)) as (before & after & Hl). rewrite Hl in Hs.
  apply (contains_infix _ _ _ _ Hs).
Qed.

Lemma dropSeqs_concat (pats ws : list (list ascii)) (t : list ascii) :
  prefixFree pats -> Forall (fun w => In w pats) ws ->
  Str.dropSeqs pats 0 (concat ws ++ t) = Str.dropSeqs pats 0 t.
Proof.
  intros Hfree Hall. induction Hall as [|w ws Hw Hws IH]; [reflexivity|].
  cbn [concat]. rewrite <- app_assoc, (dropSeqs_step pats w _ Hfree Hw). exact IH.
Qed.

Lemma dropSeqs_nil (pats : list (list ascii)) (l : list ascii) :
  Forall (fun w => w <> []) pats ->
  Str.dropSeqs pats 0 l = [] ->
  exists ws, Forall (fun w => In w pats) ws /\ l = concat ws.
Proof.
  intros Hne Hnil. destruct (dropSeqs_spec pats l Hne) as (ws & Hws & Heq & _).
  exists ws. split; [exact Hws|]. rewrite Hnil, app_nil_r in Heq. exact Heq.
Qed.

Lemma rev_concat (ws : list (list ascii)) :
  rev (concat ws) = concat (rev (map (@rev ascii) ws)).
Proof.
  induction ws as [|w ws IH]; [reflexivity|].
  cbn [concat map rev]. rewrite rev_app_distr, IH, concat_app. cbn [concat].
  rewrite app_nil_r. reflexivity.
Qed.

(** A string that is white space from its end is white space from its
    start. *)
Lemma dropWhiteEnd_nil (l : list ascii) : Str.dropWhiteEnd l = [] -> Str.dropWhite l = [].
Proof.
  unfold Str.dropWhiteEnd, Str.dropWhite. intros Hnil.
  apply (f_equal (@rev ascii)) in Hnil. rewrite rev_involutive in Hnil. cbn [rev] in Hnil.
  destruct (dropSeqs_nil _ _ revWhites_nonempty Hnil) as (ws & Hws & Heq).
  assert (Hl : l = concat (rev (map (@rev ascii) ws))).
  { rewrite <- rev_concat, <- Heq, rev_involutive. reflexivity. }
  rewrite Hl, <- (app_nil_r (concat _)).
  rewrite dropSeqs_concat; [reflexivity|exact whites_free|].
  apply List.Forall_forall. intros w Hin. apply in_rev in Hin.
  apply List.in_map_iff in Hin as (w' & <- & Hin).
  apply (proj1 (List.Forall_forall _ _) Hws) in Hin.
  apply List.in_map_iff in Hin as (w0 & <- & Hw0). rewrite rev_involutive. exact Hw0.
Qed.

Lemma blank_not_tail : ~ In " "%char (tailBytes Str.whites) /\ ~ In " "%char (tailBytes revWhites).
Proof.
  split; intros Hin; [apply (or_introl (B := In " "%char (tailBytes revWhites))) in Hin
                     |apply (or_intror (A := In " "%char (tailBytes Str.whites))) in Hin];
    apply whites_tails in Hin; discriminate.
Qed.

(** Trimmed, a string with something on either side of a blank still
    has the blank. *)
Lemma trim_keeps_middle (a b : list ascii) :
  Str.dropWhite a <> [] -> Str.dropWhiteEnd b <> [] ->
  In " "%char (Str.chars (Str.trim (Str.ofChars (a ++ " "%char :: b)))).
Proof.
  intros Ha Hb. unfold Str.trim. rewrite !chars_ofChars.
  unfold Str.dropWhite at 1.
  rewrite (dropSeqs_app Str.whites " " b whites_free (proj1 blank_not_tail) a Ha).
  unfold Str.dropWhiteEnd. rewrite rev_app_distr. cbn [rev]. rewrite <- app_assoc. cbn [app].
  rewrite (dropSeqs_app revWhites " " _ revWhites_free (proj2 blank_not_tail) (rev b)).
  - rewrite <- in_rev. apply in_or_app. right. left. reflexivity.
  - intros Hnil. apply Hb. unfold Str.dropWhiteEnd. fold revWhites. rewrite Hnil. reflexivity.
Qed.

Lemma keeps_ink (line : string) :
  keeps line = true ->
  Str.dropWhite (Str.chars line) <> [] /\ Str.dropWhiteEnd (Str.chars line) <> [].
Proof.
  unfold keeps. intros Hk. apply andb_true_iff in Hk as [Hk _].
  apply andb_true_iff in Hk as [Hk _]. apply negb_true_iff in Hk.
  assert (Hstart : Str.dropWhite (Str.chars line) <> []).
  { intros Hnil. unfold Str.trim in Hk. rewrite Hnil in Hk. discriminate. }
  split; [exact Hstart|]. intros Hnil. apply Hstart, dropWhiteEnd_nil, Hnil.
Qed.

Lemma join_ink (x : string) (lines : list string) :
  Forall (fun line => keeps line = true) (x :: lines) ->
  Str.dropWhiteEnd (Str.chars (Str.join " " (x :: lines))) <> [].
Proof.
  revert x. induction lines as [|y lines IH]; intros x Hall.
  - apply Forall_cons in Hall as [Hx _]. apply keeps_ink, Hx.
  - apply Forall_cons in Hall as [_ Hall]. specialize (IH y Hall).
    rewrite join_cons. change (Str.chars " ") with [" "%char]. cbn [app].
    unfold Str.dropWhiteEnd in *. fold revWhites in *.
    rewrite rev_app_distr. cbn [rev]. rewrite <- app_assoc. cbn [app].
    rewrite (dropSeqs_app revWhites " " _ revWhites_free (proj2 blank_not_tail)).
    + intros Hnil. apply (f_equal (@rev ascii)) in Hnil. rewrite rev_involutive in Hnil.
      destruct (Str.dropSeqs revWhites 0 _); discriminate.
    + intros Hnil. apply IH. rewrite Hnil. reflexivity.
Qed.

(** The kept lines, joined and trimmed, are no number. *)
Lemma joined_no_number (kept : list string) :
  Forall (fun line => keeps line = true) kept ->
  isNumber (Str.trim (Str.join " " kept)) = false.
Proof.
  intros Hall. destruct kept as [|x kept]; [reflexivity|].
  pose proof Hall as Hall'.
  apply Forall_cons in Hall as [Hx Hall]. destruct kept as [|y kept].
  - cbn [Str.join]. unfold keeps in Hx. apply andb_true_iff in Hx as [Hx _].
    apply andb_true_iff in Hx as [_ Hx]. apply negb_true_iff in Hx. exact Hx.
  - pose proof (trim_keeps_middle (Str.chars x) (Str.chars (Str.join " " (y :: kept)))
                  (proj1 (keeps_ink _ Hx)) (join_ink _ _ Hall)) as Hin.
    assert (Hjoin : Str.ofChars (Str.chars x ++ " "%char :: Str.chars (Str.join " " (y :: kept)))
                    = Str.join " " (x :: y :: kept)).
    { apply chars_inj. rewrite chars_ofChars, join_cons. reflexivity. }
    rewrite Hjoin in Hin. unfold isNumber. apply andb_false_iff. right.
    destruct (forallb Re.isDigit _) eqn:Hdigits; [|reflexivity].
    apply (proj1 (forallb_forall _ _)) with (x := " "%char) in Hdigits; [|exact Hin].
    discriminate.
Qed.

(** The caption read off a subtitle file is trimmed and is one line with
    no arrow in it, and reading it again as a subtitle file gives it back.
    The caption of a file with the given lines is its kept lines, joined
    with blanks and trimmed. *)
Theorem srt_caption_clean (srtText : string) :
  let c := caption srtText in
  Str.trim c = c
  /\ forallb (Re.isNot newline) (Str.chars c) = true
  /\ Links.includes c "-->" = false
  /\ caption c = c
  /\ (forall lines,
        srtText = Str.join (String newline "") lines ->
        Forall (fun line => forallb (Re.isNot newline) (Str.chars line) = true) lines ->
        c = Str.trim (Str.join " " (List.filter keeps lines))).
Proof.
  cbn zeta.
  set (kept := List.filter keeps (map Str.ofChars (split (Str.chars srtText)))).
  change (caption srtText) with (Str.trim (Str.join " " kept)).
  assert (Hkept : Forall (fun line => keeps line = true) kept).
  { apply List.Forall_forall. intros line Hin. apply List.filter_In in Hin as [_ Hk].
    exact Hk. }
  assert (Hlines : Forall (fun line => forallb (Re.isNot newline) (Str.chars line) = true) kept).
  { apply List.Forall_forall. intros line Hin. apply List.filter_In in Hin as [Hin _].
    apply List.in_map_iff in Hin as (l & <- & Hin). rewrite chars_ofChars.
    apply (proj1 (List.Forall_forall _ _) (split_clean (Str.chars srtText))). exact Hin. }
  assert (Htrim : Str.trim (Str.trim (Str.join " " kept)) = Str.trim (Str.join " " kept))
    by apply trim_idem.
  assert (Hone : forallb (Re.isNot newline) (Str.chars (Str.trim (Str.join " " kept))) = true).
  { rewrite <- (ofChars_chars (Str.join " " kept)). apply trim_forallb.
    apply join_forallb; [reflexivity|exact Hlines]. }
  assert (Harrow : Links.includes (Str.trim (Str.join " " kept)) "-->" = false).
  { unfold Links.includes. apply trim_contains.
    apply (join_contains " " (Str.chars "-->")); [reflexivity|discriminate|].
    apply List.Forall_forall. intros line Hin.
    apply (proj1 (List.Forall_forall _ _) Hkept) in Hin. unfold keeps in Hin.
    apply andb_true_iff in Hin as [_ Hin]. apply negb_true_iff in Hin. exact Hin. }
  split; [exact Htrim|split; [exact Hone|split; [exact Harrow|split]]].
  - unfold caption. rewrite (split_line _ Hone). cbn [map List.filter].
    rewrite ofChars_chars.
    destruct (keeps (Str.trim (Str.join " " kept))) eqn:Hk; cbn [Str.join]; [exact Htrim|].
    unfold keeps in Hk. rewrite Htrim, Harrow, (joined_no_number kept Hkept) in Hk.
    cbn [negb] in Hk. rewrite !andb_true_r in Hk. apply negb_false_iff, isEmpty_true in Hk.
    rewrite Hk. reflexivity.
  - intros lines -> Hall. subst kept. destruct lines as [|x lines]; [reflexivity|].
    rewrite split_join; [reflexivity|exact Hall|discriminate].
Qed.

End SrtFacts.

(** ** Testing a link *)

Section LinkTestFacts.
Context `{Platform}.
Import Links Resolve LinkTest.

Variable resolveUrl : string -> Url.URL -> option string.
Variable net : nat -> Url.URL -> Exc Http.Response.
Variable locate : string -> option Location.
Variable decodeURIComponent : string -> option string.
Variable UserMeta : Type.
Variable fetchUserMeta : string -> Exc UserMeta.
Variable fetchVideoMeta : string -> Exc Tasks.VideoMeta.
Variable head range : Exc Http.Response.

Lemma assertSafeExternalHttpUrl_href (url : string) (u : Url.URL) :
  Url.assertSafeExternalHttpUrl url = Return u ->
  Url.assertSafeExternalHttpUrl (Url.href u) = Return u.
Proof.
  intros Hu. pose proof Hu as Hu'. unfold Url.assertSafeExternalHttpUrl in Hu' |- *.
  destruct (Url.parse url) as [parsed|] eqn:Hparse; [|discriminate].
  assert (Hsame : u = parsed).
  { unfold Url.checkExternalHttp in Hu'. cbn zeta in Hu'.
    destruct (negb _ && negb _) in Hu'; [discriminate|].
    destruct (_ || _) in Hu'; [discriminate|]. injection Hu' as <-. reflexivity. }
  subst u. rewrite (parse_href _ _ Hparse), parse_trim, Hparse. exact Hu'.
Qed.

(** What a probe asks for: the URL that the guard for external links let
    through, first with HEAD and then, where that request failed, with a
    range; and a probe that is ok has a status. *)
Lemma probeRemoteMediaUrl_requests (url : string) :
  let r := probeRemoteMediaUrl url head range in
  map fst r.2 `prefix_of` [HEAD; RANGE]
  /\ Forall (fun q => exists u, Url.assertSafeExternalHttpUrl q.2 = Return u) r.2
  /\ (forall probe, r.1 = Return probe ->
        r.2 <> [] /\ (probe_ok probe = true -> probe_status probe <> None)).
Proof.
  cbn zeta. unfold probeRemoteMediaUrl.
  destruct (Url.assertSafeExternalHttpUrl url) as [safeUrl|msg] eqn:Hguard; cbn [fst snd].
  2: { split; [eexists; reflexivity|split; [constructor|discriminate]]. }
  assert (Hhref : exists u, Url.assertSafeExternalHttpUrl (Url.href safeUrl) = Return u).
  { exists safeUrl. apply assertSafeExternalHttpUrl_href with (url := url). exact Hguard. }
  destruct head as [headRes|msg]; [|destruct range as [rangeRes|msg']]; cbn [fst snd map].
  - split; [exists [RANGE]; reflexivity|split; [repeat constructor; exact Hhref|]].
    intros probe [= <-]. split; discriminate.
  - split; [exists []; reflexivity|split; [repeat constructor; exact Hhref|]].
    intros probe [= <-]. split; discriminate.
  - split; [exists []; reflexivity|split; [repeat constructor; exact Hhref|]].
    intros probe [= <-]. split; discriminate.
Qed.

(** [handleLinkTest] answers 400, and has asked for nothing, unless the
    text holds a link that the Douyin guard lets through; its requests
    while it resolves the link, at most six, go to Douyin hosts. It
    probes only the play URL of a video, only URLs that the guard for
    external links lets through, with HEAD and then at most once with a
    range. It says ok only for an account whose page arrived, or for a
    video whose page arrived with a play URL that a probe found ok. *)
Theorem handleLinkTest_contract (params : list (string * string)) :
  let r := handleLinkTest resolveUrl net locate decodeURIComponent UserMeta fetchUserMeta
             fetchVideoMeta head range params in
  Forall onDouyin (run_requests r)
  /\ (length (run_requests r) <= 6)%nat
  /\ map fst (run_probes r) `prefix_of` [HEAD; RANGE]
  /\ Forall (fun q => exists u, Url.assertSafeExternalHttpUrl q.2 = Return u) (run_probes r)
  /\ match run_reply r with
     | Untested status error => status = 400 /\ run_requests r = [] /\ run_probes r = []
     | Tested res =>
         (exists u, Url.assertSafeDouyinUrl (lt_extractedUrl res) = Return u)
         /\ (run_probes r <> [] -> lt_type res = video /\ lt_hasCaption res <> None)
         /\ (lt_ok res = true ->
             (lt_type res = account
              /\ exists secUid page,
                   lt_secUid res = Some secUid /\ secUid <> ""
                   /\ fetchUserMeta secUid = Return page)
             \/ (lt_type res = video
                 /\ exists id meta probe,
                      lt_videoId res = Some id /\ id <> ""
                      /\ fetchVideoMeta id = Return meta
                      /\ Js.truthy (Tasks.playUrl meta) = true
                      /\ lt_probe res = Some probe
                      /\ probe_ok probe = true
                      /\ probe_status probe <> None
                      /\ run_probes r <> []))
     end.
Proof.
  cbn zeta. unfold handleLinkTest.
  assert (Hnone : map fst (@nil (Method * string)) `prefix_of` [HEAD; RANGE])
    by (eexists; reflexivity).
  destruct (Str.isEmpty _).
  { cbn. repeat split; try constructor; try lia; exact Hnone. }
  destruct (Url.assertSafeDouyinUrl _) as [u|msg] eqn:Hguard.
  2: { cbn. repeat split; try constructor; try lia; exact Hnone. }
  match type of Hguard with
  | Url.assertSafeDouyinUrl ?link = _ =>
      destruct (follow_requests resolveUrl net link) as [Hall Hlen];
      destruct (follow resolveUrl net link) as [resolved requests]
  end.
  cbn [fst snd] in Hall, Hlen.
  assert (Hquiet : forall res,
            (exists u, Url.assertSafeDouyinUrl (lt_extractedUrl res) = Return u) ->
            lt_ok res = false ->
            let r := mkLinkTestRun (Tested res) requests [] in
            Forall onDouyin (run_requests r)
            /\ (length (run_requests r) <= 6)%nat
            /\ map fst (run_probes r) `prefix_of` [HEAD; RANGE]
            /\ Forall (fun q => exists u, Url.assertSafeExternalHttpUrl q.2 = Return u)
                 (run_probes r)
            /\ (exists u, Url.assertSafeDouyinUrl (lt_extractedUrl res) = Return u)
            /\ (run_probes r <> [] -> lt_type res = video /\ lt_hasCaption res <> None)
            /\ (lt_ok res = true ->
                (lt_type res = account
                 /\ exists secUid page,
                      lt_secUid res = Some secUid /\ secUid <> ""
                      /\ fetchUserMeta secUid = Return page)
                \/ (lt_type res = video
                    /\ exists id meta probe,
                         lt_videoId res = Some id /\ id <> ""
                         /\ fetchVideoMeta id = Return meta
                         /\ Js.truthy (Tasks.playUrl meta) = true
                         /\ lt_probe res = Some probe
                         /\ probe_ok probe = true
                         /\ probe_status probe <> None
                         /\ run_probes r <> []))).
  { intros res Hlink Hok. cbn [run_requests run_probes].
    split; [exact Hall|split; [exact Hlen|split; [exact Hnone|split; [constructor|]]]].
    split; [exact Hlink|split; [intros Hp; contradiction|]].
    rewrite Hok. discriminate. }
  destruct (guessType (locate resolved)) eqn:Htype; cbn [run_reply].
  - (* video *)
    destruct (parseVideoId (locate resolved)) as [[|ch id]|] eqn:Hid;
      [apply Hquiet; [eauto|reflexivity]| |apply Hquiet; [eauto|reflexivity]].
    destruct (fetchVideoMeta (String ch id)) as [meta|msg] eqn:Hmeta;
      [|apply Hquiet; [eauto|reflexivity]].
    destruct (Tasks.ownCaption meta) as [own|msg]; [|apply Hquiet; [eauto|reflexivity]].
    destruct (Js.truthy (Tasks.playUrl meta)) eqn:Hplay; cbn [negb];
      [|apply Hquiet; [eauto|reflexivity]].
    destruct (probeRemoteMediaUrl_requests (ToString (Tasks.playUrl meta)))
      as (Hprefix & Hprobes & Hprobe).
    destruct (probeRemoteMediaUrl (ToString (Tasks.playUrl meta)) head range)
      as [[probe|msg] probes]; cbn [fst snd] in Hprefix, Hprobes, Hprobe.
    + destruct (Hprobe probe eq_refl) as [Hasked Hstatus].
      destruct (probe_ok probe) eqn:Hok;
        cbn [run_reply run_requests run_probes lt_extractedUrl lt_type lt_hasCaption lt_ok
             lt_videoId lt_secUid lt_probe].
      * split; [exact Hall|split; [exact Hlen|split; [exact Hprefix|split; [exact Hprobes|]]]].
        split; [eauto|split; [intros _; split; [reflexivity|discriminate]|]].
        intros _. right. split; [reflexivity|]. exists (String ch id), meta, probe.
        repeat split; try assumption; try discriminate. apply Hstatus. reflexivity.
      * split; [exact Hall|split; [exact Hlen|split; [exact Hprefix|split; [exact Hprobes|]]]].
        split; [eauto|split; [intros _; split; [reflexivity|discriminate]|discriminate]].
    + cbn [run_reply run_requests run_probes lt_extractedUrl lt_type lt_hasCaption lt_ok].
      split; [exact Hall|split; [exact Hlen|split; [exact Hprefix|split; [exact Hprobes|]]]].
      split; [eauto|split; [intros _; split; [reflexivity|discriminate]|discriminate]].
  - (* account *)
    destruct (parseSecUid decodeURIComponent (locate resolved)) as [[|ch secUid]|] eqn:Hid;
      [apply Hquiet; [eauto|reflexivity]| |apply Hquiet; [eauto|reflexivity]].
    destruct (fetchUserMeta (String ch secUid)) as [page|msg] eqn:Hpage;
      [|apply Hquiet; [eauto|reflexivity]].
    cbn [run_reply run_requests run_probes lt_extractedUrl lt_type lt_hasCaption lt_ok
         lt_videoId lt_secUid lt_probe].
    split; [exact Hall|split; [exact Hlen|split; [exact Hnone|split; [constructor|]]]].
    split; [eauto|split; [intros Hp; contradiction|]].
    intros _. left. split; [reflexivity|]. exists (String ch secUid), page.
    repeat split; [discriminate|exact Hpage].
  - (* unknown *)
    apply Hquiet; [eauto|reflexivity].
Qed.

End LinkTestFacts.

(** ** White space beyond ASCII *)

(** [trim] strips the byte-order mark, the ideographic space and the
    no-break space as it strips blanks. *)
Example trim_wide :
  Str.trim (Wide.bom +:+ "　hi " +:+ Wide.nbsp) = "hi"
  /\ Str.trim ("　" +:+ Wide.nbsp +:+ Wide.bom) = "".
Proof. split; vm_compute; reflexivity. Qed.

(** A link ends where an ideographic space stands. *)
Example links_wide :
  Links.normalizeUrl "https://a　" = "https://a"
  /\ Links.extractUrlFromText "https://v.douyin.com/a　b" = Some "https://v.douyin.com/a"
  /\ Links.extractUrlFromText ("see" +:+ Wide.nbsp +:+ "v.douyin.com/a　b")
     = Some "https://v.douyin.com/a".
Proof. repeat split; vm_compute; reflexivity. Qed.

(** A body of white space is no body, and a byte-order mark before the
    JSON is not in the way. *)
Example readJsonBody_wide :
  readJsonBody (H := Ref.platform) (Wide.bom +:+ Wide.nbsp) = Return JNull
  /\ readJsonBody (H := Ref.platform) (Wide.bom +:+ "{}") = Return (JObject []).
Proof. split; vm_compute; reflexivity. Qed.

(** A line of one ideographic space is dropped from the subtitles, and
    one at the end of the caption is trimmed. *)
Example srt_wide :
  Srt.caption "hi　" = "hi"
  /\ Srt.caption (Str.join (String Srt.newline "") ["1"; "00:01 --> 00:02"; "　"; "hi"]) = "hi".
Proof. split; vm_compute; reflexivity. Qed.

(** A caption of one ideographic space is no caption, and a transcript
    of one is none. *)
Example blank_wide :
  Tasks.ownCaption (Tasks.mkMeta (JString "　") Scenario.media) = Return None
  /\ Flash.readReply (H := Ref.platform) (Http.mkResponse true 200 []) Ref.wideBlankBody
     = Throw "豆包语音识别完成，但返回文本为空".
Proof. split; vm_compute; reflexivity. Qed.
